(** * TreeRepository: tree queries and the closure-table move plan

    A shallow embedding of [src/repository/TreeRepository.ts].  The
    repository builds SQL fragments as strings; here every fragment is a
    small syntax tree whose [render]ing is the text the TypeScript code
    concatenates, and whose evaluation over rows is the usual relational
    reading of that text.  JavaScript objects are finite maps from
    property names to values, entity objects that are mutated in place
    live in a store addressed by locations, and thrown errors and
    rejected promises are the left summand of [result]. *)

From stdpp Require Import gmap strings list fin_maps pretty.
From Stdlib Require Import ZArith Ascii Relations.

Set Warnings "-register-all".
Local Open Scope Z_scope.
Local Open Scope string_scope.

(** ** JavaScript values and objects *)

Definition loc := nat.

(** Primitive values: what a database column or a bound parameter holds. *)
Inductive prim :=
  | PUndefined
  | PNull
  | PNum (n : Z)
  | PStr (s : string).

(** A property of an object holds a primitive, a reference to another
    object, or an array of entity references. *)
Inductive value :=
  | VPrim (p : prim)
  | VRef (l : loc)
  | VArr (ls : list loc).

Global Instance prim_eq_dec : EqDecision prim.
Proof. solve_decision. Defined.
Global Instance value_eq_dec : EqDecision value.
Proof. solve_decision. Defined.

(** An object literal ([ObjectLiteral], an entity instance). *)
Abbreviation obj := (gmap string value).
(** A database row, keyed by the column name a query refers to. *)
Abbreviation row := (gmap string prim).
(** The store of entity objects shared between caller and repository. *)
Abbreviation heap := (gmap loc (gmap string value)).

(** [o[name]]: a missing property reads as [undefined]. *)
Definition getProp (o : obj) (name : string) : value :=
  default (VPrim PUndefined) (o !! name).

(** The integers a JavaScript number holds exactly
    ([Number.isSafeInteger]).  A number of the model is an integer and
    stands for the JavaScript number of that value; statements about
    printed numbers are made for safe integers. *)
Definition safeInteger (n : Z) : bool :=
  bool_decide (Z.abs n <= 9007199254740991).

(** The digits of a number without their trailing zeros. *)
Fixpoint stripZeros (digits : string) : string :=
  match digits with
  | EmptyString => EmptyString
  | String c rest =>
      match stripZeros rest with
      | EmptyString =>
          if bool_decide (c = "0"%char) then EmptyString else String c EmptyString
      | kept => String c kept
      end
  end.

(** [Number.prototype.toString] on an integer: its decimal digits below
    10^21, and from there on the exponent notation, one digit before the
    point and the exponent after [e+].  For the safe integers this is the
    string JavaScript prints.  Beyond them JavaScript holds only some of
    the integers and prints the shortest digits that read back to the
    same number; the digits of the integer stand for them here. *)
Definition numberToString (n : Z) : string :=
  if bool_decide (Z.abs n < 1000000000000000000000) then pretty n
  else
    let digits := pretty (Z.abs n) in
    let sign := if bool_decide (n < 0) then "-" else "" in
    let exponent := "e+" +:+ pretty (Z.of_nat (String.length digits) - 1) in
    match stripZeros digits with
    | EmptyString => pretty n
    | String d EmptyString => sign +:+ String d exponent
    | String d more => sign +:+ String d ("." +:+ more +:+ exponent)
    end.

(** The string a value turns into under [propertyName + eVal]. *)
Definition primToString (p : prim) : string :=
  match p with
  | PUndefined => "undefined"
  | PNull => "null"
  | PNum n => numberToString n
  | PStr s => s
  end.

Definition valueToString (v : value) : string :=
  match v with
  | VPrim p => primToString p
  | VRef _ => "[object Object]"
  | VArr ls => String.concat "," (map (fun _ => "[object Object]") ls)
  end.

(** [a === b] between a primitive and an arbitrary value. *)
Definition strictEq (a : prim) (b : value) : bool :=
  bool_decide (b = VPrim a).

(** [String.prototype.replace] with a string pattern of one character:
    only the first occurrence is replaced. *)
Fixpoint replaceFirst (c : ascii) (by_ : string) (s : string) : string :=
  match s with
  | EmptyString => EmptyString
  | String a rest =>
      if bool_decide (a = c) then by_ +:+ rest
      else String a (replaceFirst c by_ rest)
  end.

(** ** Errors *)

Inductive error :=
  | TreeError (message : string)      (* new Error(`Supported only in tree entities`) *)
  | TypeError (what : string)         (* a [!] applied to undefined *)
  | ExternalError (message : string). (* raised by a collaborator *)

Abbreviation result := (sum error).

Global Instance result_ret : MRet result := fun _ a => inr a.
Global Instance result_bind : MBind result := fun _ _ f m =>
  match m with
  | inl e => inl e
  | inr a => f a
  end.

Definition unsupported : error := TreeError "Supported only in tree entities".

(** The non-null assertion [x!]: reading through it when [x] is undefined
    throws. *)
Definition nonNull {A} (what : string) (x : option A) : result A :=
  match x with
  | Some a => inr a
  | None => inl (TypeError what)
  end.

(** ** Metadata *)

Inductive ColumnMetadata := mkColumn {
  propertyName : string;
  propertyPath : string;
  databaseName : string;
  givenDatabaseName : option string;
  referencedColumn : option ColumnMetadata
}.

Record RelationMetadata := mkRelation {
  relationPropertyName : string;
  joinColumns : list ColumnMetadata
}.

Record JunctionMetadata := mkJunction {
  junctionTableName : string;
  ancestorColumns : list ColumnMetadata;
  descendantColumns : list ColumnMetadata
}.

Record EntityMetadata := mkMetadata {
  treeType : option string;
  targetName : string;
  tableName : string;
  primaryColumns : list ColumnMetadata;
  closureJunctionTable : JunctionMetadata;
  nestedSetLeftColumn : option ColumnMetadata;
  nestedSetRightColumn : option ColumnMetadata;
  materializedPathColumn : option ColumnMetadata;
  treeParentRelation : option RelationMetadata;
  treeChildrenRelation : option RelationMetadata
}.

(** Modelled from the spec: [ColumnMetadata.getEntityValue] and
    [ColumnMetadata.setEntityValue] belong to the metadata service
    ("compute an entity's current value for any given column"); they read
    and write the property the column is declared on. *)
Definition getEntityValue (c : ColumnMetadata) (entity : obj) : value :=
  getProp entity (propertyName c).

Definition setEntityValue (c : ColumnMetadata) (entity : obj) (v : value) : obj :=
  <[propertyName c := v]> entity.

(** Modelled from the spec: [EntityMetadata.getEntityIdMap], the values of
    the primary columns of an entity. *)
Definition getEntityIdMap (md : EntityMetadata) (entity : obj) : obj :=
  foldl (fun m c => <[propertyName c := getEntityValue c entity]> m) ∅
        (primaryColumns md).

(** The driver: identifier escaping, whether it is an
    [AbstractSqliteDriver], and the coercion of raw column values.

    Modelled from the spec: the last two fields describe the engine
    behind the driver, a collaborator, as far as its [LIKE] goes: whether
    it compares ASCII letters without regard to case (SQLite does, and so
    do engines under a case-insensitive collation), and the character
    that takes the special meaning off the next pattern character
    (the backslash on PostgreSQL and MySQL, none on SQLite). *)
Record Driver := mkDriver {
  escape : string -> string;
  isSqlite : bool;
  prepareHydratedValue : prim -> ColumnMetadata -> prim;
  likeIgnoresCase : bool;
  likeEscape : option ascii
}.

(** ** Query fragments

    The conditions the repository hands to the query builder.  Each
    constructor stands for one of the textual shapes the source
    concatenates; [renderCond] gives that text. *)

(** The sub-query of the materialized-path branch:
    [qb.subQuery().select(expr, "path").from(target, targetName).whereInIds(ids)]. *)
Record SubQuery := mkSubQuery {
  sqSelectQualifier : string;
  sqSelectColumn : string;
  sqSelectAlias : string;
  sqFrom : string;
  sqFromAlias : string;
  sqWhereInIds : gmap string value
}.

Inductive operand :=
  | OCol (qualifier : string) (column : string)            (* alias.column *)
  | OEscCol (qualifier : option string) (column : string)  (* escape(alias).escape(column) *)
  | OParam (name : string)                                 (* :name *)
  | OSubQuery (sq : SubQuery)                              (* subQuery.getQuery() *)
  | OConcatOp (e : operand) (suffix : string)              (* e || 'suffix' *)
  | OConcatFn (e : operand) (suffix : string).             (* CONCAT(e, 'suffix') *)

Inductive cond :=
  | CEq (l r : operand)                 (* l = r *)
  | CBetween (x lo hi : operand)        (* x BETWEEN lo AND hi *)
  | CLike (l r : operand)               (* l LIKE r *)
  | CAnd (cs : list cond)               (* cs.join(" AND ") *)
  | COr (cs : list cond)                (* cs.join(" OR ") *)
  | CParen (c : cond).                  (* `(${c})` *)

(** What the repository reaches through [this.manager.connection]: the
    driver, and the text the query builder prints for a sub-query. *)
Record Connection := mkConnection {
  driver : Driver;
  getQuery : SubQuery -> string
}.

Fixpoint renderOperand (conn : Connection) (o : operand) : string :=
  match o with
  | OCol q c => q +:+ "." +:+ c
  | OEscCol (Some q) c => escape (driver conn) q +:+ "." +:+ escape (driver conn) c
  | OEscCol None c => escape (driver conn) c
  | OParam name => ":" +:+ name
  | OSubQuery sq => getQuery conn sq
  | OConcatOp e suffix => renderOperand conn e +:+ " || '" +:+ suffix +:+ "'"
  | OConcatFn e suffix => "CONCAT(" +:+ renderOperand conn e +:+ ", '" +:+ suffix +:+ "')"
  end.

Fixpoint renderCond (conn : Connection) (c : cond) : string :=
  match c with
  | CEq l r => renderOperand conn l +:+ " = " +:+ renderOperand conn r
  | CBetween x lo hi =>
      renderOperand conn x +:+ " BETWEEN " +:+ renderOperand conn lo
        +:+ " AND " +:+ renderOperand conn hi
  | CLike l r => renderOperand conn l +:+ " LIKE " +:+ renderOperand conn r
  | CAnd cs => String.concat " AND " (map (renderCond conn) cs)
  | COr cs => String.concat " OR " (map (renderCond conn) cs)
  | CParen c => "(" +:+ renderCond conn c +:+ ")"
  end.

(** ** Relational reading of the fragments

    The database engine and the statements' execution are collaborators
    of the repository.  A database is its tables, a table a list of rows;
    the definitions below give the conditions their SQL meaning. *)

Abbreviation database := (gmap string (list (gmap string prim))).

(** Modelled from the spec: SQL equality as the database engine decides
    it, never true on NULL and only between values of one type. *)
Definition sqlEq (a b : prim) : bool :=
  match a, b with
  | PNum x, PNum y => bool_decide (x = y)
  | PStr x, PStr y => bool_decide (x = y)
  | _, _ => false
  end.

(** Modelled from the spec: SQL [BETWEEN] on numbers, bounds included. *)
Definition sqlBetween (x lo hi : prim) : bool :=
  match x, lo, hi with
  | PNum a, PNum l, PNum h => bool_decide (l <= a) && bool_decide (a <= h)
  | _, _, _ => false
  end.

(** Modelled from the spec: the letters A to Z read as a to z where the
    engine ignores case. *)
Definition foldChar (ignoreCase : bool) (c : ascii) : ascii :=
  if ignoreCase && (65 <=? nat_of_ascii c)%nat && (nat_of_ascii c <=? 90)%nat
  then ascii_of_nat (nat_of_ascii c + 32)
  else c.


(** Modelled from the spec: SQL [LIKE] with its two wildcards, [%] for
    any run of characters and [_] for one.  The escape character, where
    the engine has one, makes the pattern character after it stand for
    itself; no pattern of the repository ends in it, and such a pattern
    matches nothing here. *)
Fixpoint likeMatch (ignoreCase : bool) (esc : option ascii) (pattern s : string)
    : bool :=
  match pattern with
  | EmptyString => bool_decide (s = EmptyString)
  | String p rest =>
      if bool_decide (p = "%"%char) then
        (fix anySuffix (t : string) : bool :=
           likeMatch ignoreCase esc rest t ||
           match t with
           | EmptyString => false
           | String _ t' => anySuffix t'
           end) s
      else if bool_decide (esc = Some p) then
        match rest, s with
        | String q rest', String a s' =>
            bool_decide (foldChar ignoreCase q = foldChar ignoreCase a)
            && likeMatch ignoreCase esc rest' s'
        | _, _ => false
        end
      else
        match s with
        | EmptyString => false
        | String a s' =>
            (bool_decide (p = "_"%char)
             || bool_decide (foldChar ignoreCase p = foldChar ignoreCase a))
            && likeMatch ignoreCase esc rest s'
        end
  end.

(** Modelled from the spec: [LIKE] holds between strings only. *)
Definition sqlLike (d : Driver) (a pattern : prim) : bool :=
  match a, pattern with
  | PStr s, PStr p => likeMatch (likeIgnoresCase d) (likeEscape d) p s
  | _, _ => false
  end.

(** Modelled from the spec: string concatenation, by [||] or by
    [CONCAT]; NULL stays NULL. *)
Definition sqlConcat (a : prim) (suffix : string) : prim :=
  match a with
  | PStr s => PStr (s +:+ suffix)
  | PNum n => PStr (pretty n +:+ suffix)
  | _ => PNull
  end.

(** Modelled from the spec: a bound parameter as the database engine
    sees it; what is not a column value binds as NULL. *)
Definition paramValue (v : value) : prim :=
  match v with
  | VPrim PUndefined => PNull
  | VPrim p => p
  | _ => PNull
  end.

(** Modelled from the spec: an entity name used in [from] or [innerJoin]
    resolves to the table of the entity. *)
Definition resolveTable (md : EntityMetadata) (name : string) : string :=
  if bool_decide (name = targetName md) then tableName md else name.

(** Modelled from the spec: the rows of a table; a table that was never
    written has none. *)
Definition tableRows (md : EntityMetadata) (db : database) (name : string) : list row :=
  db !!! resolveTable md name.

Definition lookupAlias (env : list (string * row)) (alias : string) : option row :=
  snd <$> List.find (fun ar => bool_decide (fst ar = alias)) env.

(** Modelled from the spec: a column reference, qualified by an alias or
    else a column of the row the statement ranges over (the first one in
    scope); an absent column reads as NULL. *)
Definition columnValue (env : list (string * row)) (q : option string) (c : string) : prim :=
  let r := match q with
           | Some alias => lookupAlias env alias
           | None => snd <$> head env
           end in
  default PNull (r ≫= fun r => r !! c).

(** Modelled from the spec: [whereInIds], every id column of the row
    equals the id given for it. *)
Definition rowHasIds (ids : obj) (r : row) : bool :=
  bool_decide (map_Forall (fun k v => sqlEq (default PNull (r !! k)) (paramValue v) = true) ids).

(** Modelled from the spec: a scalar sub-query yields the selected column
    of the first row it matches, NULL when there is none. *)
Definition evalSubQuery (md : EntityMetadata) (db : database) (sq : SubQuery) : prim :=
  match List.find (rowHasIds (sqWhereInIds sq)) (tableRows md db (sqFrom sq)) with
  | Some r => default PNull (r !! sqSelectColumn sq)
  | None => PNull
  end.

(** Modelled from the spec: the value of an operand and the truth of a
    condition, for rows bound to aliases and parameters bound to names. *)
Fixpoint evalOperand (md : EntityMetadata) (db : database)
    (env : list (string * row)) (params : obj) (o : operand) : prim :=
  match o with
  | OCol q c => columnValue env (Some q) c
  | OEscCol q c => columnValue env q c
  | OParam name => paramValue (getProp params name)
  | OSubQuery sq => evalSubQuery md db sq
  | OConcatOp e suffix => sqlConcat (evalOperand md db env params e) suffix
  | OConcatFn e suffix => sqlConcat (evalOperand md db env params e) suffix
  end.

Fixpoint evalCond (md : EntityMetadata) (conn : Connection) (db : database)
    (env : list (string * row)) (params : obj) (c : cond) : bool :=
  let ev := evalOperand md db env params in
  match c with
  | CEq l r => sqlEq (ev l) (ev r)
  | CBetween x lo hi => sqlBetween (ev x) (ev lo) (ev hi)
  | CLike l r => sqlLike (driver conn) (ev l) (ev r)
  | CAnd cs => forallb (evalCond md conn db env params) cs
  | COr cs => existsb (evalCond md conn db env params) cs
  | CParen c => evalCond md conn db env params c
  end.

(** ** The query builder

    The query construction and execution service is a collaborator ("build
    filtered/joined queries, execute them, ... execute delete/insert
    statements with bound parameters").  A builder records what the
    repository passed to it; [getMany] reads a select builder as a
    nested-loop join over the tables of the database. *)

(** Modelled from the spec: one [innerJoin] of a select builder. *)
Record Join := mkJoin {
  joinTable : string;
  joinAlias : string;
  joinCondition : cond
}.

(** Modelled from the spec: [SelectQueryBuilder], what was selected from,
    joined, filtered on and bound. *)
Record SelectQueryBuilder := mkSelect {
  selFrom : string;
  selAlias : string;
  selJoins : list Join;
  selWhere : option cond;
  selParameters : gmap string value
}.

(** Modelled from the spec: [createQueryBuilder().delete().from(table)
    .where(condition).setParameters(parameters)]. *)
Record DeleteQueryBuilder := mkDelete {
  delFrom : string;
  delWhere : option cond;
  delParameters : gmap string value
}.

(** Modelled from the spec: [createQueryBuilder().insert().into(table)
    .values(rows)]. *)
Record InsertQueryBuilder := mkInsert {
  insInto : string;
  insValues : list (gmap string value)
}.

(** [QueryBuilder<Entity|unknown>], as far as [move] handles it. *)
Inductive QueryBuilder :=
  | QDelete (q : DeleteQueryBuilder)
  | QInsert (q : InsertQueryBuilder).

(** Modelled from the spec: [setParameters],
    [Object.keys(ps).forEach(k => this.setParameter(k, ps[k]))]. *)
Definition mergeParameters (ps old : obj) : obj := ps ∪ old.

(** Modelled from the spec: [innerJoin], [where] and [setParameters] of
    the select builder. *)
Definition innerJoin (table alias : string) (c : cond) (qb : SelectQueryBuilder)
    : SelectQueryBuilder :=
  mkSelect (selFrom qb) (selAlias qb) (selJoins qb ++ [mkJoin table alias c])%list
           (selWhere qb) (selParameters qb).

Definition where_ (c : cond) (ps : obj) (qb : SelectQueryBuilder) : SelectQueryBuilder :=
  mkSelect (selFrom qb) (selAlias qb) (selJoins qb) (Some c)
           (mergeParameters ps (selParameters qb)).

Definition setParameters (ps : obj) (qb : SelectQueryBuilder) : SelectQueryBuilder :=
  mkSelect (selFrom qb) (selAlias qb) (selJoins qb) (selWhere qb)
           (mergeParameters ps (selParameters qb)).

(** Modelled from the spec: whether a condition lets a binding of rows
    through.  The builder keeps a condition only [if (condition)], so an
    empty text adds no restriction. *)
Definition condHolds (md : EntityMetadata) (conn : Connection) (db : database)
    (params : obj) (c : option cond) (env : list (string * row)) : bool :=
  match c with
  | None => true
  | Some c =>
      if bool_decide (renderCond conn c = "") then true
      else evalCond md conn db env params c
  end.

(** Modelled from the spec: the inner joins of a select, taken one after
    the other; a row is kept when each join finds a partner row and the
    where condition holds of the rows found. *)
Fixpoint joinsHold (md : EntityMetadata) (conn : Connection) (db : database)
    (params : obj) (joins : list Join) (wh : option cond)
    (env : list (string * row)) : bool :=
  match joins with
  | [] => condHolds md conn db params wh env
  | j :: js =>
      existsb (fun jr =>
                 let env' := (env ++ [(joinAlias j, jr)])%list in
                 condHolds md conn db params (Some (joinCondition j)) env'
                 && joinsHold md conn db params js wh env')
              (tableRows md db (joinTable j))
  end.

(** Modelled from the spec: hydration, the columns of a row become the
    properties of an entity. *)
Definition hydrate (r : row) : obj := VPrim <$> r.

(** Modelled from the spec: the rows of the selected table a select
    statement returns, each once.  No statement of the repository asks
    for an order, and the engine is free in the order it returns rows in:
    they are listed here as the table lists them, and what is proved of
    them is stated on membership, or for every order of the table's
    rows. *)
Definition selectedRows (md : EntityMetadata) (conn : Connection) (db : database)
    (qb : SelectQueryBuilder) : list row :=
  List.filter (fun r => joinsHold md conn db (selParameters qb) (selJoins qb)
                          (selWhere qb) [(selAlias qb, r)])
              (tableRows md db (selFrom qb)).

(** Modelled from the spec: [getMany] and [getCount] of the select
    builder. *)
Definition getMany (md : EntityMetadata) (conn : Connection) (db : database)
    (qb : SelectQueryBuilder) : list obj :=
  hydrate <$> selectedRows md conn db qb.

Definition getCount (md : EntityMetadata) (conn : Connection) (db : database)
    (qb : SelectQueryBuilder) : nat :=
  length (selectedRows md conn db qb).

(** Modelled from the spec: the rows of its table a delete statement
    removes. *)
Definition deleteTargets (md : EntityMetadata) (conn : Connection) (db : database)
    (q : DeleteQueryBuilder) (r : row) : bool :=
  condHolds md conn db (delParameters q) (delWhere q) [(delFrom q, r)].

(** ** TreeRepository *)

Definition closureTable : string := "closure-table".
Definition nestedSet : string := "nested-set".
Definition materializedPath : string := "materialized-path".

(** One callback of a [columns.map(...)] that both records a parameter
    and returns a condition. *)
Record Fragment := mkFragment {
  fragKey : string;
  fragValue : value;
  fragCond : cond
}.

Definition recordParameters (ps : obj) (fs : list Fragment) : obj :=
  foldl (fun m f => <[fragKey f := fragValue f]> m) ps fs.

Definition refColumn (column : ColumnMetadata) : result ColumnMetadata :=
  nonNull "referencedColumn" (referencedColumn column).

(** [this.metadata.treeParentRelation!.joinColumns[0]], used through a
    property access that throws when it is undefined. *)
Definition firstJoinColumn (md : EntityMetadata) : result ColumnMetadata :=
  relation ← nonNull "treeParentRelation" (treeParentRelation md);
  nonNull "joinColumns[0]" (head (joinColumns relation)).

Section TreeRepository.
Variable metadata : EntityMetadata.
Variable connection : Connection.

Definition createQueryBuilder (alias : string) : SelectQueryBuilder :=
  mkSelect (targetName metadata) alias [] None ∅.

(** The sub-query both materialized-path branches build.  Its native
    parameters, which the source copies onto the outer builder, are the
    ids it carries. *)
Definition pathSubQuery (pathColumn : ColumnMetadata) (entity : obj) : SubQuery :=
  mkSubQuery (targetName metadata) (propertyPath pathColumn) "path"
             (targetName metadata) (targetName metadata)
             (getEntityIdMap metadata entity).

(** The join-column callback shared by both nested-set branches. *)
Definition nestedSetFragment (entity : obj) (joinColumn : ColumnMetadata)
    : result Fragment :=
  ref ← refColumn joinColumn;
  let parameterName := replaceFirst "."%char "_" (propertyPath ref) in
  mret (mkFragment parameterName (getEntityValue ref entity)
          (CEq (OCol "joined" (propertyPath ref)) (OParam parameterName))).

Definition createDescendantsQueryBuilder (alias closureTableAlias : string)
    (entity : obj) : result SelectQueryBuilder :=
  if bool_decide (treeType metadata = Some closureTable) then
    let junction := closureJunctionTable metadata in
    joinCondition ← mapM (fun column =>
        ref ← refColumn column;
        mret (CEq (OEscCol (Some closureTableAlias) (propertyPath column))
                  (OEscCol (Some alias) (propertyPath ref))))
      (descendantColumns junction);
    whereCondition ← mapM (fun column =>
        ref ← refColumn column;
        mret (mkFragment (propertyName ref) (getEntityValue ref entity)
                (CEq (OEscCol (Some closureTableAlias) (propertyPath column))
                     (OParam (propertyName ref)))))
      (ancestorColumns junction);
    let parameters := recordParameters ∅ whereCondition in
    mret (setParameters parameters
           (where_ (CAnd (fragCond <$> whereCondition)) ∅
             (innerJoin (junctionTableName junction) closureTableAlias
                        (CAnd joinCondition)
                        (createQueryBuilder alias))))
  else if bool_decide (treeType metadata = Some nestedSet) then
    left ← nonNull "nestedSetLeftColumn" (nestedSetLeftColumn metadata);
    right ← nonNull "nestedSetRightColumn" (nestedSetRightColumn metadata);
    let whereCondition :=
      CBetween (OCol alias (propertyPath left))
               (OCol "joined" (propertyPath left))
               (OCol "joined" (propertyPath right)) in
    relation ← nonNull "treeParentRelation" (treeParentRelation metadata);
    joinCondition ← mapM (nestedSetFragment entity) (joinColumns relation);
    let parameters := recordParameters ∅ joinCondition in
    mret (where_ (CAnd (fragCond <$> joinCondition)) parameters
           (innerJoin (targetName metadata) "joined" whereCondition
                      (createQueryBuilder alias)))
  else if bool_decide (treeType metadata = Some materializedPath) then
    pathColumn ← nonNull "materializedPathColumn" (materializedPathColumn metadata);
    let subQuery := pathSubQuery pathColumn entity in
    mret (where_
            (if isSqlite (driver connection) then
               CLike (OCol alias (propertyPath pathColumn))
                     (OConcatOp (OSubQuery subQuery) "%")
             else
               CLike (OCol alias (propertyPath pathColumn))
                     (OConcatFn (OSubQuery subQuery) "%"))
            ∅ (createQueryBuilder alias))
  else inl unsupported.

Definition createAncestorsQueryBuilder (alias closureTableAlias : string)
    (entity : obj) : result SelectQueryBuilder :=
  if bool_decide (treeType metadata = Some closureTable) then
    let junction := closureJunctionTable metadata in
    joinCondition ← mapM (fun column =>
        ref ← refColumn column;
        mret (CEq (OCol closureTableAlias (propertyPath column))
                  (OCol alias (propertyPath ref))))
      (ancestorColumns junction);
    whereCondition ← mapM (fun column =>
        ref ← refColumn column;
        mret (mkFragment (propertyName ref) (getEntityValue ref entity)
                (CEq (OCol closureTableAlias (propertyPath column))
                     (OParam (propertyName ref)))))
      (descendantColumns junction);
    let parameters := recordParameters ∅ whereCondition in
    mret (setParameters parameters
           (where_ (CAnd (fragCond <$> whereCondition)) ∅
             (innerJoin (junctionTableName junction) closureTableAlias
                        (CAnd joinCondition)
                        (createQueryBuilder alias))))
  else if bool_decide (treeType metadata = Some nestedSet) then
    left ← nonNull "nestedSetLeftColumn" (nestedSetLeftColumn metadata);
    right ← nonNull "nestedSetRightColumn" (nestedSetRightColumn metadata);
    let joinCondition :=
      CBetween (OCol "joined" (propertyPath left))
               (OCol alias (propertyPath left))
               (OCol alias (propertyPath right)) in
    relation ← nonNull "treeParentRelation" (treeParentRelation metadata);
    whereCondition ← mapM (nestedSetFragment entity) (joinColumns relation);
    let parameters := recordParameters ∅ whereCondition in
    mret (where_ (CAnd (fragCond <$> whereCondition)) parameters
           (innerJoin (targetName metadata) "joined" joinCondition
                      (createQueryBuilder alias)))
  else if bool_decide (treeType metadata = Some materializedPath) then
    pathColumn ← nonNull "materializedPathColumn" (materializedPathColumn metadata);
    let subQuery := pathSubQuery pathColumn entity in
    mret (where_
            (if isSqlite (driver connection) then
               CLike (OSubQuery subQuery)
                     (OConcatOp (OCol alias (propertyPath pathColumn)) "%")
             else
               CLike (OSubQuery subQuery)
                     (OConcatFn (OCol alias (propertyPath pathColumn)) "%"))
            ∅ (createQueryBuilder alias))
  else inl unsupported.

Definition findDescendants (db : database) (entity : obj) : result (list obj) :=
  qb ← createDescendantsQueryBuilder "treeEntity" "treeClosure" entity;
  mret (getMany metadata connection db qb).

Definition countDescendants (db : database) (entity : obj) : result nat :=
  qb ← createDescendantsQueryBuilder "treeEntity" "treeClosure" entity;
  mret (getCount metadata connection db qb).

Definition findAncestors (db : database) (entity : obj) : result (list obj) :=
  qb ← createAncestorsQueryBuilder "treeEntity" "treeClosure" entity;
  mret (getMany metadata connection db qb).

Definition countAncestors (db : database) (entity : obj) : result nat :=
  qb ← createAncestorsQueryBuilder "treeEntity" "treeClosure" entity;
  mret (getCount metadata connection db qb).

(** The callback of [entDescendants.map] in the delete plan: one
    parenthesised conjunction per descendant, one parameter per column. *)
Definition descendantFragments (e : obj) : result (list Fragment) :=
  mapM (fun column =>
      ref ← refColumn column;
      let eVal := getEntityValue ref e in
      let eKey := propertyName ref +:+ valueToString eVal in
      mret (mkFragment eKey eVal
              (CEq (OEscCol None (propertyPath column)) (OParam eKey))))
    (descendantColumns (closureJunctionTable metadata)).

(** [columns.reduce((prev, column) => ({...prev, [column.propertyPath]:
    column.referencedColumn!.getEntityValue(e)}), {})]. *)
Definition closurePartial (columns : list ColumnMetadata) (e : obj) : result obj :=
  foldl (fun prevPartial column =>
           prev ← prevPartial;
           ref ← refColumn column;
           mret (<[propertyPath column := getEntityValue ref e]> prev))
        (mret ∅) columns.

(** The callback of [toAncestors.reduce]: the closures of one ancestor
    with every descendant, appended to those collected so far. *)
Definition appendClosures (entDescendants : list obj)
    (closures : result (list obj)) (ancestorEntity : obj) : result (list obj) :=
  closures ← closures;
  ancestorPartial ←
    closurePartial (ancestorColumns (closureJunctionTable metadata)) ancestorEntity;
  descendentPartials ←
    mapM (closurePartial (descendantColumns (closureJunctionTable metadata)))
         entDescendants;
  let newClosuresToInsert :=
    (fun descendentPartial => descendentPartial ∪ ancestorPartial)
      <$> descendentPartials in
  mret (closures ++ newClosuresToInsert)%list.

Definition closuresToInsert (toAncestors entDescendants : list obj)
    : result (list obj) :=
  foldl (appendClosures entDescendants) (mret []) toAncestors.

Definition moveEntityQueriesBuilder (db : database) (alias closureTableAlias : string)
    (entity : obj) (to : option obj) : result (list QueryBuilder) :=
  entDescendants ← findDescendants db entity;
  toAncestors ← match to with
                 | Some to => findAncestors db to
                 | None => mret []
                 end;
  let toAncestors := (toAncestors ++ [entity])%list in
  if bool_decide (treeType metadata = Some closureTable) then
    fragments ← mapM descendantFragments entDescendants;
    let delAncestorsParameters := recordParameters ∅ (concat fragments) in
    let descendantWhereCondition :=
      COr ((fun fs => CParen (CAnd (fragCond <$> fs))) <$> fragments) in
    let clearAncestorsQuery :=
      mkDelete (junctionTableName (closureJunctionTable metadata))
               (Some descendantWhereCondition) delAncestorsParameters in
    closures ← closuresToInsert toAncestors entDescendants;
    let insertAncestorsQuery :=
      mkInsert (junctionTableName (closureJunctionTable metadata)) closures in
    mret [QDelete clearAncestorsQuery; QInsert insertAncestorsQuery]
  else mret [].
End TreeRepository.

(** ** Tree assembly

    [buildChildrenEntityTree] and [buildParentEntityTree] assign to the
    objects they are given, so they run on the store.  Their recursion
    follows the relation maps and is not structural: the embedding counts
    it down with [fuel], and [None] means the count ran out. *)

Record RelationMap := mkRelationMap {
  rmId : prim;
  rmParentId : prim
}.

(** [ids.indexOf(v) !== -1]. *)
Definition indexOfFound (ids : list prim) (v : value) : bool :=
  existsb (fun id => strictEq id v) ids.

(** [l.forEach(x => f(x))] for an [f] that updates the store. *)
Fixpoint forEachM {A} (f : A -> heap -> option (result heap)) (l : list A)
    (h : heap) : option (result heap) :=
  match l with
  | [] => Some (inr h)
  | x :: rest =>
      match f x h with
      | Some (inr h') => forEachM f rest h'
      | stopped => stopped
      end
  end.

(** [a || b] on names: an absent or empty name is falsy. *)
Definition orElse (given : option string) (fallback : string) : string :=
  match given with
  | Some name => if bool_decide (name = "") then fallback else name
  | None => fallback
  end.

Section TreeAssembly.
Variable metadata : EntityMetadata.
Variable connection : Connection.

Definition createRelationMaps (alias : string) (rawResults : list row)
    : result (list RelationMap) :=
  mapM (fun rawResult : row =>
      joinColumn ← firstJoinColumn metadata;
      let joinColumnName :=
        orElse (givenDatabaseName joinColumn) (databaseName joinColumn) in
      primary ← nonNull "primaryColumns[0]" (head (primaryColumns metadata));
      let id := default PUndefined
                  (rawResult !! (alias +:+ "_" +:+ databaseName primary)) in
      let parentId := default PUndefined
                        (rawResult !! (alias +:+ "_" +:+ joinColumnName)) in
      mret (mkRelationMap
              (prepareHydratedValue (driver connection) id primary)
              (prepareHydratedValue (driver connection) parentId joinColumn)))
    rawResults.

Fixpoint buildChildrenEntityTree (fuel : nat) (entity : loc) (entities : list loc)
    (relationMaps : list RelationMap) (h : heap) : option (result heap) :=
  match fuel with
  | O => None
  | S fuel =>
      match nonNull "treeChildrenRelation" (treeChildrenRelation metadata) with
      | inl e => Some (inl e)
      | inr relation =>
          let childProperty := relationPropertyName relation in
          match nonNull "primaryColumns[0]" (head (primaryColumns metadata)) with
          | inl e => Some (inl e)
          | inr primary =>
              let parentEntityId := getEntityValue primary (h !!! entity) in
              let childRelationMaps :=
                List.filter (fun relationMap =>
                               strictEq (rmParentId relationMap) parentEntityId)
                            relationMaps in
              let childIds := rmId <$> childRelationMaps in
              let children :=
                List.filter (fun entity =>
                               indexOfFound childIds (getProp (h !!! entity) "id"))
                            entities in
              let h := <[entity := <[childProperty := VArr children]> (h !!! entity)]> h in
              forEachM (fun childEntity =>
                          buildChildrenEntityTree fuel childEntity entities relationMaps)
                       children h
          end
      end
  end.

(** The hydrated entity [buildParentEntityTree] picks as the parent of
    a node whose primary key reads [entityId]. *)
Definition findParentEntity (primary : ColumnMetadata) (entityId : value)
    (entities : list loc) (relationMaps : list RelationMap) (h : heap)
    : option loc :=
  let parentRelationMap :=
    List.find (fun relationMap => strictEq (rmId relationMap) entityId)
              relationMaps in
  List.find (fun entity =>
               match parentRelationMap with
               | None => false
               | Some relationMap =>
                   strictEq (rmParentId relationMap)
                            (getProp (h !!! entity) (propertyName primary))
               end)
            entities.

Fixpoint buildParentEntityTree (fuel : nat) (entity : loc) (entities : list loc)
    (relationMaps : list RelationMap) (h : heap) : option (result heap) :=
  match fuel with
  | O => None
  | S fuel =>
      match nonNull "treeParentRelation" (treeParentRelation metadata) with
      | inl e => Some (inl e)
      | inr relation =>
          let parentProperty := relationPropertyName relation in
          match nonNull "primaryColumns[0]" (head (primaryColumns metadata)) with
          | inl e => Some (inl e)
          | inr primary =>
              let entityId := getEntityValue primary (h !!! entity) in
              match findParentEntity primary entityId entities relationMaps h with
              | Some parentEntity =>
                  let h := <[entity := <[parentProperty := VRef parentEntity]>
                                         (h !!! entity)]> h in
                  buildParentEntityTree fuel parentEntity entities relationMaps h
              | None => Some (inr h)
              end
          end
      end
  end.
End TreeAssembly.

(** ** Moving an entity

    [move] reads and writes two things: the store of entity objects and
    the database.  Executing a statement and saving an entity are the
    work of collaborators and may fail; they are parameters here. *)

Record World := mkWorld {
  objects : heap;
  data : database
}.

Definition M (A : Type) : Type := World -> result A * World.

Global Instance M_ret : MRet M := fun _ a w => (inr a, w).
Global Instance M_bind : MBind M := fun _ _ f m w =>
  match m w with
  | (inl e, w') => (inl e, w')
  | (inr a, w') => f a w'
  end.

Definition liftResult {A} (r : result A) : M A := fun w => (r, w).
Definition getData : M database := fun w => (inr (data w), w).
Definition getObjects : M heap := fun w => (inr (objects w), w).
Definition readObject (l : loc) : M obj := fun w => (inr (objects w !!! l), w).
Definition writeObject (l : loc) (o : obj) : M unit :=
  fun w => (inr tt, mkWorld (<[l := o]> (objects w)) (data w)).
Definition onData (f : database -> result database) : M unit :=
  fun w => match f (data w) with
           | inl e => (inl e, w)
           | inr db => (inr tt, mkWorld (objects w) db)
           end.

(** Modelled from the spec: [EntityManager.transaction] ("run a unit of
    work atomically"; "a failed move leaves the transaction rolled back
    by the external transaction manager").  When the unit of work fails
    the database is as it was before; objects in memory keep what was
    assigned to them. *)
Definition transaction {A} (work : M A) : M A := fun w =>
  match work w with
  | (inl e, w') => (inl e, mkWorld (objects w') (data w))
  | committed => committed
  end.

(** [for (const x of l) { await f(x) }]. *)
Fixpoint forOf {A} (f : A -> M unit) (l : list A) : M unit :=
  match l with
  | [] => mret tt
  | x :: rest => f x ;; forOf f rest
  end.

(** The value [move] assigns for [to : Entity | null]. *)
Definition destination (to : option loc) : value :=
  match to with
  | Some l => VRef l
  | None => VPrim PNull
  end.

(** The statements of a plan executed in order, stopping at the first
    failure. *)
Fixpoint executeAll (execute : QueryBuilder -> database -> result database)
    (queries : list QueryBuilder) (db : database) : result database :=
  match queries with
  | [] => inr db
  | query :: rest => db' ← execute query db; executeAll execute rest db'
  end.

Section Move.
Variable metadata : EntityMetadata.
Variable connection : Connection.
(** [moveQuery.execute()] on the transaction's query runner. *)
Variable execute : QueryBuilder -> database -> result database.
(** [transactionManager.save(entity)]. *)
Variable save : heap -> loc -> database -> result database.

Definition move (entity : loc) (to : option loc) : M unit :=
  entityObject ← readObject entity;
  toObject ← match to with
              | Some l => o ← readObject l; mret (Some o)
              | None => mret None
              end;
  db ← getData;
  moveQueries ← liftResult
    (moveEntityQueriesBuilder metadata connection db "treeEntity" "treeClosure"
                              entityObject toObject);
  transaction (
    forOf (fun moveQuery => onData (execute moveQuery)) moveQueries ;;
    joinColumn ← liftResult (firstJoinColumn metadata);
    current ← readObject entity;
    writeObject entity (setEntityValue joinColumn current (destination to)) ;;
    h ← getObjects;
    onData (save h entity)).
End Move.

(** ** The scenario of the test for issue 193

    [ClosureCategory] is a closure-table entity with a generated primary
    key [id]; the test saves A, B and C under A, and D under C, on a
    driver that escapes identifiers with double quotes. *)
Module Issue193.
Definition quote : string := String (ascii_of_nat 34) EmptyString.

Definition postgres : Connection :=
  mkConnection
    (mkDriver (fun name => quote +:+ name +:+ quote) false (fun raw _ => raw)
       false (Some (ascii_of_nat 92)))
    (fun _ => "(sub-query)").

Definition idColumn : ColumnMetadata := mkColumn "id" "id" "id" None None.
Definition ancestorColumn : ColumnMetadata :=
  mkColumn "id_ancestor" "id_ancestor" "id_ancestor" None (Some idColumn).
Definition descendantColumn : ColumnMetadata :=
  mkColumn "id_descendant" "id_descendant" "id_descendant" None (Some idColumn).
Definition parentJoinColumn : ColumnMetadata :=
  mkColumn "parentCategory" "parentCategory" "parentCategoryId" None (Some idColumn).

Definition ClosureCategory : EntityMetadata :=
  mkMetadata (Some closureTable) "ClosureCategory" "gh_193" [idColumn]
    (mkJunction "gh_193_closure" [ancestorColumn] [descendantColumn])
    None None None
    (Some (mkRelation "parentCategory" [parentJoinColumn]))
    (Some (mkRelation "childCategories" [])).

Definition categoryRow (id : Z) (name : string) (parent : prim) : row :=
  <["id" := PNum id]> (<["name" := PStr name]> (<["parentCategoryId" := parent]> ∅)).

Definition closureRow (ancestor descendant : Z) : row :=
  <["id_ancestor" := PNum ancestor]> (<["id_descendant" := PNum descendant]> ∅).

Definition savedDatabase : database :=
  <["gh_193" := [categoryRow 1 "A" PNull; categoryRow 2 "B" (PNum 1);
                 categoryRow 3 "C" (PNum 1); categoryRow 4 "D" (PNum 3)]]>
  (<["gh_193_closure" := [closureRow 1 1;
                          closureRow 2 2; closureRow 1 2;
                          closureRow 3 3; closureRow 1 3;
                          closureRow 4 4; closureRow 3 4; closureRow 1 4]]> ∅).

(** The objects the test holds after saving, at locations 1 to 4. *)
Definition category (id : Z) (name : string) (parent : option loc) : obj :=
  let o : obj := <["id" := VPrim (PNum id)]> (<["name" := VPrim (PStr name)]> ∅) in
  match parent with
  | Some p => <["parentCategory" := VRef p]> o
  | None => o
  end.

Definition a : obj := category 1 "A" None.
Definition b : obj := category 2 "B" (Some 1%nat).
Definition c : obj := category 3 "C" (Some 1%nat).
Definition d : obj := category 4 "D" (Some 3%nat).

(** A closure row as the insert statement receives it. *)
Definition closureValue (ancestor descendant : Z) : obj :=
  <["id_ancestor" := VPrim (PNum ancestor)]>
    (<["id_descendant" := VPrim (PNum descendant)]> ∅).

(** The two statements the test expects for moving B under C. *)
Definition clearClosureQuery : DeleteQueryBuilder :=
  mkDelete "gh_193_closure"
    (Some (COr [CParen (CAnd [CEq (OEscCol None "id_descendant") (OParam "id2")])]))
    (<["id2" := VPrim (PNum 2)]> ∅).

Definition insertClosuresQuery : InsertQueryBuilder :=
  mkInsert "gh_193_closure" [closureValue 1 2; closureValue 3 2; closureValue 2 2].

Definition savedHeap : heap :=
  <[1%nat := a]> (<[2%nat := b]> (<[3%nat := c]> (<[4%nat := d]> ∅))).
End Issue193.

(** ** Well-formed declarations

    What the metadata service guarantees for an entity declared with a
    given encoding; without it the [!] assertions of the source throw. *)

Definition hasReferencedColumn (c : ColumnMetadata) : bool :=
  match referencedColumn c with
  | Some _ => true
  | None => false
  end.

Definition isDeclared {A} (x : option A) : bool :=
  match x with
  | Some _ => true
  | None => false
  end.

Definition nestedSetDeclared (md : EntityMetadata) : bool :=
  isDeclared (nestedSetLeftColumn md) && isDeclared (nestedSetRightColumn md)
  && match treeParentRelation md with
     | Some relation => forallb hasReferencedColumn (joinColumns relation)
     | None => false
     end.

Definition materializedPathDeclared (md : EntityMetadata) : bool :=
  isDeclared (materializedPathColumn md).

Definition junctionDeclared (md : EntityMetadata) : bool :=
  forallb hasReferencedColumn (ancestorColumns (closureJunctionTable md))
  && forallb hasReferencedColumn (descendantColumns (closureJunctionTable md)).

(** ** The closure table read as a relation *)

(** The columns [columns] of junction row [j] hold the key of table row
    [r]: each equals the column of [r] it references. *)
Definition matchesRow (columns : list ColumnMetadata) (j r : row) : bool :=
  forallb (fun column =>
             match referencedColumn column with
             | Some ref => sqlEq (default PNull (j !! propertyPath column))
                                 (default PNull (r !! propertyPath ref))
             | None => false
             end)
          columns.

(** The same against the key an entity object carries. *)
Definition matchesEntity (columns : list ColumnMetadata) (j : row) (e : obj) : bool :=
  forallb (fun column =>
             match referencedColumn column with
             | Some ref => sqlEq (default PNull (j !! propertyPath column))
                                 (paramValue (getEntityValue ref e))
             | None => false
             end)
          columns.

(** Entity object [e] carries the key of table row [r], column by column
    of the junction. *)
Definition represents (md : EntityMetadata) (e : obj) (r : row) : Prop :=
  forall column ref,
    column ∈ (ancestorColumns (closureJunctionTable md)
              ++ descendantColumns (closureJunctionTable md))%list ->
    referencedColumn column = Some ref ->
    paramValue (getEntityValue ref e) = default PNull (r !! propertyPath ref).

(** [parent] is the row the parent-relation join columns of [child] point
    to. *)
Definition isParentRow (md : EntityMetadata) (parent child : row) : bool :=
  match treeParentRelation md with
  | Some relation =>
      match joinColumns relation with
      | [] => false
      | columns =>
          forallb (fun joinColumn =>
                     match referencedColumn joinColumn with
                     | Some ref =>
                         sqlEq (default PNull (child !! databaseName joinColumn))
                               (default PNull (parent !! propertyPath ref))
                     | None => false
                     end)
                  columns
      end
  | None => false
  end.

(** A child edge of the stored tree: both rows are in the entity's table
    and the second names the first as its parent. *)
Definition childEdge (md : EntityMetadata) (db : database) (parent child : row) : Prop :=
  parent ∈ tableRows md db (targetName md)
  /\ child ∈ tableRows md db (targetName md)
  /\ isParentRow md parent child = true.

(** The invariant of the encoding: the junction holds a row for a pair of
    entities exactly when the second is reachable from the first along
    child edges, in zero or more steps. *)
Definition closureInvariant (md : EntityMetadata) (db : database) : Prop :=
  forall a d,
    a ∈ tableRows md db (targetName md) ->
    d ∈ tableRows md db (targetName md) ->
    (exists j, j ∈ tableRows md db (junctionTableName (closureJunctionTable md))
               /\ matchesRow (ancestorColumns (closureJunctionTable md)) j a = true
               /\ matchesRow (descendantColumns (closureJunctionTable md)) j d = true)
    <-> rtc (childEdge md db) a d.

(** Every parameter of the delete statement still holds the value its
    condition was written for: no two values share a parameter name. *)
Definition deleteParametersKept (md : EntityMetadata) (entDescendants : list obj) : bool :=
  match mapM (descendantFragments md) entDescendants with
  | inr fragments =>
      forallb (fun f =>
                 bool_decide (recordParameters ∅ (concat fragments) !! fragKey f
                              = Some (fragValue f)))
              (concat fragments)
  | inl _ => false
  end.

(** A join condition written for a junction column: it compares that
    column with the referenced column of the entity's row. *)
Definition joinsColumn (md : EntityMetadata) (conn : Connection) (db : database)
    (alias closureTableAlias : string) (column : ColumnMetadata) (c : cond) : Prop :=
  exists ref,
    referencedColumn column = Some ref
    /\ renderCond conn c <> ""
    /\ forall r j params,
         evalCond md conn db [(alias, r); (closureTableAlias, j)] params c
         = sqlEq (default PNull (j !! propertyPath column))
                 (default PNull (r !! propertyPath ref)).

(** A where fragment written for a junction column: it compares that
    column with a parameter holding the entity's referenced value. *)
Definition filtersColumn (md : EntityMetadata) (conn : Connection) (db : database)
    (alias closureTableAlias : string) (entity : obj)
    (column : ColumnMetadata) (f : Fragment) : Prop :=
  exists ref,
    referencedColumn column = Some ref
    /\ fragKey f = propertyName ref
    /\ fragValue f = getEntityValue ref entity
    /\ renderCond conn (fragCond f) <> ""
    /\ forall r j params,
         evalCond md conn db [(alias, r); (closureTableAlias, j)] params (fragCond f)
         = sqlEq (default PNull (j !! propertyPath column))
                 (paramValue (getProp params (propertyName ref))).

(** The key columns the junction references are plain properties: their
    property path is their property name. *)
Definition plainReferences (md : EntityMetadata) : bool :=
  forallb (fun column =>
             match referencedColumn column with
             | Some ref => bool_decide (propertyName ref = propertyPath ref)
             | None => true
             end)
          (ancestorColumns (closureJunctionTable md)
           ++ descendantColumns (closureJunctionTable md))%list.

(** ** Relation maps as graphs *)

(** The edge a relation map records: from an id to the parent id. *)
Definition rmEdge (relationMaps : list RelationMap) (id parentId : prim) : Prop :=
  exists relationMap,
    relationMap ∈ relationMaps
    /\ rmId relationMap = id /\ rmParentId relationMap = parentId.

(** No id is its own ancestor through the entries of the map. *)
Definition acyclicMap (relationMaps : list RelationMap) : Prop :=
  forall id, ~ tc (rmEdge relationMaps) id id.

(** A certificate of acyclicity: every entry's parent id ranks strictly
    below its id. *)
Definition rankedMap (rank : prim -> nat) (relationMaps : list RelationMap) : bool :=
  forallb (fun relationMap =>
             bool_decide (rank (rmParentId relationMap) < rank (rmId relationMap))%nat)
          relationMaps.


(** ** Further entity declarations used as examples *)
Module Examples.
Import Issue193.

Definition leftColumn : ColumnMetadata := mkColumn "nsleft" "nsleft" "nsleft" None None.
Definition rightColumn : ColumnMetadata := mkColumn "nsright" "nsright" "nsright" None None.
Definition pathColumn : ColumnMetadata := mkColumn "mpath" "mpath" "mpath" None None.

Definition withTreeType (t : option string) : EntityMetadata :=
  mkMetadata t "Category" "category" [idColumn]
    (mkJunction "category_closure" [ancestorColumn] [descendantColumn])
    (Some leftColumn) (Some rightColumn) (Some pathColumn)
    (Some (mkRelation "parentCategory" [parentJoinColumn]))
    (Some (mkRelation "childCategories" [])).

Definition NestedSetCategory : EntityMetadata := withTreeType (Some nestedSet).
Definition PlainCategory : EntityMetadata := withTreeType None.
Definition AdjacencyCategory : EntityMetadata := withTreeType (Some "adjacency-list").

Definition sqlite : Connection :=
  mkConnection
    (mkDriver (fun name => quote +:+ name +:+ quote) true (fun raw _ => raw)
       true None)
    (fun _ => "(sub-query)").



Definition unsavedDatabase : database :=
  <["gh_193" := [Issue193.categoryRow 2 "B" PNull]]> ∅.

(** What [findAncestorsTree] fetches for D: copies of A, C and D at
    locations 11, 13 and 14, and one relation map per raw row. *)
Definition fetchedHeap : heap :=
  <[11%nat := hydrate (categoryRow 1 "A" PNull)]>
    (<[13%nat := hydrate (categoryRow 3 "C" (PNum 1))]>
       (<[14%nat := hydrate (categoryRow 4 "D" (PNum 3))]> savedHeap)).

Definition fetchedAncestors : list loc := [11%nat; 13%nat; 14%nat].

Definition ancestorMaps : list RelationMap :=
  [mkRelationMap (PNum 1) PNull; mkRelationMap (PNum 3) (PNum 1);
   mkRelationMap (PNum 4) (PNum 3)].

Definition idRank (id : prim) : nat :=
  match id with
  | PNum n => Z.to_nat n
  | _ => 0%nat
  end.

(** An entity type whose primary key property is [uuid]. *)
Definition uuidColumn : ColumnMetadata := mkColumn "uuid" "uuid" "uuid" None None.

Definition UuidCategory : EntityMetadata :=
  mkMetadata (Some closureTable) "UuidCategory" "uuid_category" [uuidColumn]
    (mkJunction "uuid_category_closure"
       [mkColumn "uuid_ancestor" "uuid_ancestor" "uuid_ancestor" None (Some uuidColumn)]
       [mkColumn "uuid_descendant" "uuid_descendant" "uuid_descendant" None
          (Some uuidColumn)])
    None None None
    (Some (mkRelation "parentCategory"
             [mkColumn "parentCategory" "parentCategory" "parentCategoryUuid" None
                (Some uuidColumn)]))
    (Some (mkRelation "childCategories" [])).

(** A parent at location 1 and its fetched child at location 2. *)
Definition uuidHeap : heap :=
  <[1%nat := <["uuid" := VPrim (PNum 1)]> ∅]>
    (<[2%nat := <["uuid" := VPrim (PNum 2)]> ∅]> ∅).

(** The same, where the child also carries a plain column named [id]. *)
Definition uuidHeapWithId : heap :=
  <[1%nat := <["uuid" := VPrim (PNum 1)]> ∅]>
    (<[2%nat := <["uuid" := VPrim (PNum 2)]> (<["id" := VPrim (PNum 2)]> ∅)]> ∅).

Definition uuidMaps : list RelationMap := [mkRelationMap (PNum 2) (PNum 1)].

(** Statements that wipe the database, and a save that fails. *)
Definition wipeExecute : QueryBuilder -> database -> result database :=
  fun _ _ => inr ∅.
Definition failingSave : heap -> loc -> database -> result database :=
  fun _ _ _ => inl (ExternalError "save failed").

Definition noExecute : QueryBuilder -> database -> result database :=
  fun _ db => inr db.
Definition noSave : heap -> loc -> database -> result database :=
  fun _ _ db => inr db.
End Examples.

(** ** Notions for the remaining operations *)

(** The closure columns one entity contributes to an inserted row: each
    column of [columns] holds the entity's referenced value. *)
Definition keyPartial (columns : list ColumnMetadata) (e : obj) : obj :=
  foldl (fun prev column =>
           match referencedColumn column with
           | Some ref => <[propertyPath column := getEntityValue ref e]> prev
           | None => prev
           end)
        ∅ columns.

(** The parent [buildParentEntityTree] locates for the object at [l], as
    the store stands. *)
Definition locatedParent (primary : ColumnMetadata) (entities : list loc)
    (relationMaps : list RelationMap) (h : heap) (l : loc) : option loc :=
  findParentEntity primary (getEntityValue primary (h !!! l)) entities relationMaps h.

(** The children [buildChildrenEntityTree] selects for the object at [l],
    as the store stands. *)
Definition selectedChildren (primary : ColumnMetadata) (entities : list loc)
    (relationMaps : list RelationMap) (h : heap) (l : loc) : list loc :=
  let childIds :=
    rmId <$> List.filter (fun relationMap =>
                            strictEq (rmParentId relationMap)
                                     (getEntityValue primary (h !!! l)))
                         relationMaps in
  List.filter (fun candidate => indexOfFound childIds (getProp (h !!! candidate) "id"))
              entities.

(** The nested-set conditions read on rows: the left bound of [inner]
    lies within the bounds of [outer], and the row [j] carries the
    entity's value of the referenced column. *)
Definition withinBounds (left right : ColumnMetadata) (outer inner : row) : bool :=
  sqlBetween (default PNull (inner !! propertyPath left))
             (default PNull (outer !! propertyPath left))
             (default PNull (outer !! propertyPath right)).

Definition carriesKey (ref : ColumnMetadata) (entity : obj) (j : row) : bool :=
  sqlEq (default PNull (j !! propertyPath ref)) (paramValue (getEntityValue ref entity)).

(** A nested set of three rows: A spans 1 to 6, its children B and C span
    2 to 3 and 4 to 5. *)
Module NestedSetExample.
Definition nestedRow (id left right : Z) : row :=
  <["id" := PNum id]> (<["nsleft" := PNum left]> (<["nsright" := PNum right]> ∅)).

Definition rowA : row := nestedRow 1 1 6.
Definition rowB : row := nestedRow 2 2 3.
Definition rowC : row := nestedRow 3 4 5.

Definition nestedDatabase : database := <["category" := [rowA; rowB; rowC]]> ∅.

(** B and C as objects, at locations 2 and 3. *)
Definition nestedHeap : heap := <[2%nat := hydrate rowB]> (<[3%nat := hydrate rowC]> ∅).
End NestedSetExample.

(** The collaborators of [move], as the examples run them. *)
Module Collaborators.
(** Modelled from the spec: [moveQuery.execute()] for the statements of a
    move plan (the external query execution).  A delete removes from its
    table the rows its condition targets.  The insert reaches the engine
    with DEFAULT in place of every value: that is the statement text the
    repository's test expects for it, and what the TODO in
    [moveEntityQueriesBuilder] asks about.  The columns of the junction
    table are key columns without a default, so the engine refuses the
    statement. *)
Definition execute (md : EntityMetadata) (conn : Connection) (query : QueryBuilder)
    (db : database) : result database :=
  match query with
  | QDelete q =>
      inr (<[resolveTable md (delFrom q) :=
               List.filter (fun r => negb (deleteTargets md conn db q r))
                           (tableRows md db (delFrom q))]> db)
  | QInsert _ => inl (ExternalError "null value in a key column of the junction table")
  end.

(** Modelled from the spec: [transactionManager.save(entity)] ("persist
    the updated parent pointer"), as far as the parent pointer goes: the
    row that carries the entity's key gets, in the join column, the key of
    the object the entity's parent property refers to, and NULL when it
    refers to none. *)
Definition save (md : EntityMetadata) (h : heap) (l : loc) (db : database)
    : result database :=
  joinColumn ← firstJoinColumn md;
  primary ← nonNull "primaryColumns[0]" (head (primaryColumns md));
  let key := paramValue (getEntityValue primary (h !!! l)) in
  let parentKey :=
    match getProp (h !!! l) (propertyName joinColumn) with
    | VRef parent => paramValue (getEntityValue primary (h !!! parent))
    | _ => PNull
    end in
  mret (<[tableName md :=
            (fun r : row =>
               if sqlEq (default PNull (r !! databaseName primary)) key
               then <[databaseName joinColumn := parentKey]> r
               else r) <$> tableRows md db (targetName md)]> db).
End Collaborators.

(** An entity keyed by [uuid] that also carries a plain column [id]: the
    entity handed to [findDescendantsTree] at location 0, and the fetched
    copies of itself and of its child at locations 1 and 2.  The [id] of
    the entity is the [uuid] of its child. *)
Module SelfChild.
Definition uuidRow (uuid id : Z) : obj :=
  <["uuid" := VPrim (PNum uuid)]> (<["id" := VPrim (PNum id)]> ∅).

Definition fetchedHeap : heap :=
  <[0%nat := uuidRow 1 2]> (<[1%nat := uuidRow 1 2]> (<[2%nat := uuidRow 2 7]> ∅)).

Definition fetchedDescendants : list loc := [1%nat; 2%nat].

Definition descendantMaps : list RelationMap :=
  [mkRelationMap (PNum 1) PNull; mkRelationMap (PNum 2) (PNum 1)].
End SelfChild.

(** Materialized paths of entities keyed by strings: the key of the first
    holds the wildcard [_]. *)
Module WildcardPaths.


End WildcardPaths.

(** A closure-table declaration whose junction columns do not say what
    they reference. *)
Module Broken.
Definition ancestorColumn : ColumnMetadata :=
  mkColumn "id_ancestor" "id_ancestor" "id_ancestor" None None.
Definition descendantColumn : ColumnMetadata :=
  mkColumn "id_descendant" "id_descendant" "id_descendant" None
           (Some Issue193.idColumn).
Definition BrokenCategory : EntityMetadata :=
  mkMetadata (Some closureTable) "BrokenCategory" "broken" [Issue193.idColumn]
    (mkJunction "broken_closure" [ancestorColumn] [descendantColumn])
    None None None
    (Some (mkRelation "parentCategory" [Issue193.parentJoinColumn]))
    (Some (mkRelation "childCategories" [])).
End Broken.

(** * Properties *)

(** Closed equations between computed values are checked by evaluation. *)
Ltac by_evaluation :=
  lazymatch goal with
  | |- ?lhs = ?rhs => vm_cast_no_check (@eq_refl _ rhs)
  end.

(** ** The error monad *)

Lemma bind_inr {A B} (m : result A) (f : A -> result B) (b : B) :
  m ≫= f = inr b <-> exists a, m = inr a /\ f a = inr b.
Proof.
  destruct m as [e|a]; simpl; split.
  - discriminate.
  - intros (a & Ha & _). discriminate.
  - intros H. exists a. split; [reflexivity | exact H].
  - intros (a' & Ha & H). injection Ha as ->. exact H.
Qed.

Lemma mapM_inr {A B} (f : A -> result B) (l : list A) (ys : list B) :
  mapM f l = inr ys <-> Forall2 (fun x y => f x = inr y) l ys.
Proof.
  revert ys. induction l as [|x l IH]; intros ys; simpl.
  - split.
    + intros H. injection H as <-. constructor.
    + intros H. inversion H. reflexivity.
  - split.
    + intros H. apply bind_inr in H as (y & Hy & H).
      apply bind_inr in H as (ys' & Hys & H). injection H as <-.
      constructor; [exact Hy | apply IH, Hys].
    + intros H. inversion H as [|? y ? ys' Hy Hys]; subst.
      apply IH in Hys. rewrite Hy. simpl. rewrite Hys. reflexivity.
Qed.

Lemma mapM_total {A B} (f : A -> result B) (l : list A) :
  Forall (fun x => exists y, f x = inr y) l -> exists ys, mapM f l = inr ys.
Proof.
  induction 1 as [|x l [y Hy] _ [ys Hys]].
  - exists []. reflexivity.
  - exists (y :: ys). simpl. rewrite Hy. simpl. rewrite Hys. reflexivity.
Qed.

(** ** The text of the fragments

    Each condition renders as the string the source concatenates for
    it. *)

Lemma append_assoc (a b c : string) : (a +:+ b) +:+ c = a +:+ b +:+ c.
Proof.
  induction a as [|x a IH]; [reflexivity|].
  change (String x ((a +:+ b) +:+ c) = String x (a +:+ b +:+ c)).
  f_equal. exact IH.
Qed.

Lemma closure_descendants_join_text conn alias closureTableAlias column ref :
  renderCond conn (CEq (OEscCol (Some closureTableAlias) (propertyPath column))
                       (OEscCol (Some alias) (propertyPath ref)))
  = escape (driver conn) closureTableAlias +:+ "."
    +:+ escape (driver conn) (propertyPath column) +:+ " = "
    +:+ escape (driver conn) alias +:+ "." +:+ escape (driver conn) (propertyPath ref).
Proof. cbn [renderCond renderOperand]. rewrite !append_assoc. reflexivity. Qed.

Lemma closure_descendants_where_text conn closureTableAlias column ref :
  renderCond conn (CEq (OEscCol (Some closureTableAlias) (propertyPath column))
                       (OParam (propertyName ref)))
  = escape (driver conn) closureTableAlias +:+ "."
    +:+ escape (driver conn) (propertyPath column) +:+ " = :" +:+ propertyName ref.
Proof. cbn [renderCond renderOperand]. rewrite !append_assoc. reflexivity. Qed.

Lemma closure_ancestors_join_text conn alias closureTableAlias column ref :
  renderCond conn (CEq (OCol closureTableAlias (propertyPath column))
                       (OCol alias (propertyPath ref)))
  = closureTableAlias +:+ "." +:+ propertyPath column +:+ " = "
    +:+ alias +:+ "." +:+ propertyPath ref.
Proof. cbn [renderCond renderOperand]. rewrite !append_assoc. reflexivity. Qed.

Lemma closure_ancestors_where_text conn closureTableAlias column ref :
  renderCond conn (CEq (OCol closureTableAlias (propertyPath column))
                       (OParam (propertyName ref)))
  = closureTableAlias +:+ "." +:+ propertyPath column +:+ " = :" +:+ propertyName ref.
Proof. cbn [renderCond renderOperand]. rewrite !append_assoc. reflexivity. Qed.

Lemma nested_set_descendants_text conn alias left right :
  renderCond conn (CBetween (OCol alias (propertyPath left))
                            (OCol "joined" (propertyPath left))
                            (OCol "joined" (propertyPath right)))
  = alias +:+ "." +:+ propertyPath left +:+ " BETWEEN "
    +:+ "joined." +:+ propertyPath left +:+ " AND joined." +:+ propertyPath right.
Proof. cbn [renderCond renderOperand]. rewrite !append_assoc. reflexivity. Qed.

Lemma nested_set_ancestors_text conn alias left right :
  renderCond conn (CBetween (OCol "joined" (propertyPath left))
                            (OCol alias (propertyPath left))
                            (OCol alias (propertyPath right)))
  = "joined." +:+ propertyPath left +:+ " BETWEEN "
    +:+ alias +:+ "." +:+ propertyPath left +:+ " AND "
    +:+ alias +:+ "." +:+ propertyPath right.
Proof. cbn [renderCond renderOperand]. rewrite !append_assoc. reflexivity. Qed.

Lemma nested_set_parameter_text conn ref parameterName :
  renderCond conn (CEq (OCol "joined" (propertyPath ref)) (OParam parameterName))
  = "joined." +:+ propertyPath ref +:+ " = :" +:+ parameterName.
Proof. cbn [renderCond renderOperand]. rewrite !append_assoc. reflexivity. Qed.

Lemma delete_condition_text conn column eKey :
  renderCond conn (CEq (OEscCol None (propertyPath column)) (OParam eKey))
  = escape (driver conn) (propertyPath column) +:+ " = :" +:+ eKey.
Proof. reflexivity. Qed.

Lemma delete_where_text conn (fragments : list (list Fragment)) :
  renderCond conn (COr ((fun fs => CParen (CAnd (fragCond <$> fs))) <$> fragments))
  = String.concat " OR "
      (map (fun fs => "(" +:+ String.concat " AND "
                                (map (fun f => renderCond conn (fragCond f)) fs)
                          +:+ ")")
           fragments).
Proof.
  cbn [renderCond]. f_equal. induction fragments as [|fs fragments IH]; [reflexivity|].
  cbn [fmap list_fmap map renderCond]. f_equal; [|exact IH].
  do 2 f_equal. rewrite <- list_fmap_compose. reflexivity.
Qed.

(** ** Encodings the repository does not know *)

Section Unsupported.
Variable metadata : EntityMetadata.
Variable connection : Connection.
Hypothesis not_closure : treeType metadata <> Some closureTable.
Hypothesis not_nested : treeType metadata <> Some nestedSet.
Hypothesis not_path : treeType metadata <> Some materializedPath.

Lemma descendants_builder_unsupported alias closureTableAlias entity :
  createDescendantsQueryBuilder metadata connection alias closureTableAlias entity
  = inl unsupported.
Proof.
  unfold createDescendantsQueryBuilder.
  rewrite !bool_decide_eq_false_2 by assumption. reflexivity.
Qed.

Lemma ancestors_builder_unsupported alias closureTableAlias entity :
  createAncestorsQueryBuilder metadata connection alias closureTableAlias entity
  = inl unsupported.
Proof.
  unfold createAncestorsQueryBuilder.
  rewrite !bool_decide_eq_false_2 by assumption. reflexivity.
Qed.

Lemma move_plan_unsupported db alias closureTableAlias entity to :
  moveEntityQueriesBuilder metadata connection db alias closureTableAlias entity to
  = inl unsupported.
Proof.
  unfold moveEntityQueriesBuilder, findDescendants.
  rewrite descendants_builder_unsupported. reflexivity.
Qed.
End Unsupported.

(** C5. When the declared encoding is none of closure-table, nested-set
    and materialized-path, every tree operation fails with the error
    "Supported only in tree entities": the two query builders, the find
    and count operations on descendants and on ancestors, the move plan,
    and [move] itself, which then leaves store and database untouched.
    None of them returns an empty result. *)
Theorem unsupported_encoding_fails
    (metadata : EntityMetadata) (connection : Connection)
    (execute : QueryBuilder -> database -> result database)
    (save : heap -> loc -> database -> result database)
    (db : database) (alias closureTableAlias : string) (entity : obj)
    (to : option obj) (l : loc) (dest : option loc) (w : World) :
  treeType metadata <> Some closureTable ->
  treeType metadata <> Some nestedSet ->
  treeType metadata <> Some materializedPath ->
  createDescendantsQueryBuilder metadata connection alias closureTableAlias entity
    = inl unsupported
  /\ createAncestorsQueryBuilder metadata connection alias closureTableAlias entity
    = inl unsupported
  /\ findDescendants metadata connection db entity = inl unsupported
  /\ countDescendants metadata connection db entity = inl unsupported
  /\ findAncestors metadata connection db entity = inl unsupported
  /\ countAncestors metadata connection db entity = inl unsupported
  /\ moveEntityQueriesBuilder metadata connection db alias closureTableAlias entity to
    = inl unsupported
  /\ move metadata connection execute save l dest w = (inl unsupported, w).
Proof.
  intros Hc Hn Hp.
  pose proof (descendants_builder_unsupported metadata connection Hc Hn Hp) as Hd.
  pose proof (ancestors_builder_unsupported metadata connection Hc Hn Hp) as Ha.
  pose proof (move_plan_unsupported metadata connection Hc Hn Hp) as Hm.
  repeat split.
  - apply Hd.
  - apply Ha.
  - unfold findDescendants. rewrite Hd. reflexivity.
  - unfold countDescendants. rewrite Hd. reflexivity.
  - unfold findAncestors. rewrite Ha. reflexivity.
  - unfold countAncestors. rewrite Ha. reflexivity.
  - apply Hm.
  - unfold move, mbind, M_bind, readObject, getData, liftResult.
    destruct dest; simpl; rewrite Hm; reflexivity.
Qed.

(** C5, at an entity that declares no tree encoding. *)
Lemma unsupported_encoding_fails_witness :
  findDescendants Examples.PlainCategory Issue193.postgres Issue193.savedDatabase
                  Issue193.b = inl unsupported
  /\ move Examples.PlainCategory Issue193.postgres Examples.noExecute Examples.noSave
          2%nat (Some 3%nat) (mkWorld Issue193.savedHeap Issue193.savedDatabase)
     = (inl unsupported, mkWorld Issue193.savedHeap Issue193.savedDatabase).
Proof.
  pose proof (unsupported_encoding_fails Examples.PlainCategory Issue193.postgres
                Examples.noExecute Examples.noSave Issue193.savedDatabase
                "treeEntity" "treeClosure" Issue193.b (Some Issue193.c)
                2%nat (Some 3%nat)
                (mkWorld Issue193.savedHeap Issue193.savedDatabase)) as H.
  destruct H as (_ & _ & Hf & _ & _ & _ & _ & Hm); try discriminate.
  split; [exact Hf | exact Hm].
Defined.

(** ** Moving under the other encodings *)

Lemma forallb_has_ref_total {B} (f : ColumnMetadata -> result B)
    (columns : list ColumnMetadata) :
  (forall column ref, referencedColumn column = Some ref -> exists y, f column = inr y) ->
  forallb hasReferencedColumn columns = true ->
  exists ys, mapM f columns = inr ys.
Proof.
  intros Hf Hall. apply mapM_total.
  revert Hall. induction columns as [|column columns IH]; simpl; intros Hall.
  - constructor.
  - apply andb_prop in Hall as [Hc Hall]. constructor; [|apply IH, Hall].
    unfold hasReferencedColumn in Hc.
    destruct (referencedColumn column) as [ref|] eqn:Href; [|discriminate].
    eapply Hf, Href.
Qed.

Section OtherEncodings.
Variable metadata : EntityMetadata.
Variable connection : Connection.

Lemma nested_set_fragments_total entity relation :
  forallb hasReferencedColumn (joinColumns relation) = true ->
  exists fs, mapM (nestedSetFragment entity) (joinColumns relation) = inr fs.
Proof.
  apply forallb_has_ref_total.
  intros column ref Href. unfold nestedSetFragment, refColumn.
  rewrite Href. eexists. reflexivity.
Qed.

Lemma nested_set_builders_total alias closureTableAlias entity :
  treeType metadata = Some nestedSet ->
  nestedSetDeclared metadata = true ->
  (exists qb, createDescendantsQueryBuilder metadata connection alias
                closureTableAlias entity = inr qb)
  /\ (exists qb, createAncestorsQueryBuilder metadata connection alias
                   closureTableAlias entity = inr qb).
Proof.
  intros Htype Hdecl. unfold nestedSetDeclared in Hdecl.
  apply andb_prop in Hdecl as [Hdecl Hrel].
  apply andb_prop in Hdecl as [Hleft Hright].
  unfold createDescendantsQueryBuilder, createAncestorsQueryBuilder.
  rewrite Htype.
  rewrite (bool_decide_eq_false_2 (Some nestedSet = Some closureTable)) by discriminate.
  rewrite (bool_decide_eq_true_2 (Some nestedSet = Some nestedSet)) by reflexivity.
  destruct (nestedSetLeftColumn metadata) as [left|]; [|discriminate].
  destruct (nestedSetRightColumn metadata) as [right|]; [|discriminate].
  destruct (treeParentRelation metadata) as [relation|]; [|discriminate].
  destruct (nested_set_fragments_total entity relation Hrel) as [fs Hfs].
  simpl. rewrite Hfs. simpl. split; eexists; reflexivity.
Qed.

Lemma materialized_path_builders_total alias closureTableAlias entity :
  treeType metadata = Some materializedPath ->
  materializedPathDeclared metadata = true ->
  (exists qb, createDescendantsQueryBuilder metadata connection alias
                closureTableAlias entity = inr qb)
  /\ (exists qb, createAncestorsQueryBuilder metadata connection alias
                   closureTableAlias entity = inr qb).
Proof.
  intros Htype Hdecl. unfold materializedPathDeclared in Hdecl.
  unfold createDescendantsQueryBuilder, createAncestorsQueryBuilder.
  rewrite Htype.
  rewrite (bool_decide_eq_false_2 (Some materializedPath = Some closureTable))
    by discriminate.
  rewrite (bool_decide_eq_false_2 (Some materializedPath = Some nestedSet))
    by discriminate.
  rewrite (bool_decide_eq_true_2 (Some materializedPath = Some materializedPath))
    by reflexivity.
  destruct (materializedPathColumn metadata) as [pathColumn|]; [|discriminate].
  simpl. split; eexists; reflexivity.
Qed.

(** Where both select builders succeed and the encoding is not
    closure-table, the plan is empty. *)
Lemma empty_plan_of_builders db alias closureTableAlias entity to :
  treeType metadata <> Some closureTable ->
  (forall e, exists qb, createDescendantsQueryBuilder metadata connection
                          "treeEntity" "treeClosure" e = inr qb) ->
  (forall e, exists qb, createAncestorsQueryBuilder metadata connection
                          "treeEntity" "treeClosure" e = inr qb) ->
  moveEntityQueriesBuilder metadata connection db alias closureTableAlias entity to
  = inr [].
Proof.
  intros Hc Hdesc Hanc.
  unfold moveEntityQueriesBuilder, findDescendants, findAncestors.
  destruct (Hdesc entity) as [qb ->]. simpl.
  destruct to as [to|]; simpl.
  - destruct (Hanc to) as [qb' ->]. simpl.
    rewrite bool_decide_eq_false_2 by assumption. reflexivity.
  - rewrite bool_decide_eq_false_2 by assumption. reflexivity.
Qed.
End OtherEncodings.

(** C4 (amended).  For an entity declared nested-set or
    materialized-path, with the columns of that encoding declared,
    [moveEntityQueriesBuilder] returns the empty list, and [move] executes
    no statement: its outcome does not depend on how statements would be
    executed.  For any other encoding that is not closure-table the plan is
    not empty but fails with the unsupported-operation error. *)
Theorem move_plan_without_closure_table
    (metadata : EntityMetadata) (connection : Connection) (db : database)
    (alias closureTableAlias : string) (entity : obj) (to : option obj) :
  ((treeType metadata = Some nestedSet /\ nestedSetDeclared metadata = true)
   \/ (treeType metadata = Some materializedPath
       /\ materializedPathDeclared metadata = true) ->
   moveEntityQueriesBuilder metadata connection db alias closureTableAlias entity to
   = inr []
   /\ forall execute execute' save l dest w,
        move metadata connection execute save l dest w
        = move metadata connection execute' save l dest w)
  /\ (treeType metadata <> Some closureTable ->
      treeType metadata <> Some nestedSet ->
      treeType metadata <> Some materializedPath ->
      moveEntityQueriesBuilder metadata connection db alias closureTableAlias entity to
      = inl unsupported).
Proof.
  split.
  - intros Hdecl.
    assert (treeType metadata <> Some closureTable) as Hc
      by (destruct Hdecl as [[-> _]|[-> _]]; discriminate).
    assert (forall e, (exists qb, createDescendantsQueryBuilder metadata connection
                         "treeEntity" "treeClosure" e = inr qb)
                      /\ (exists qb, createAncestorsQueryBuilder metadata connection
                         "treeEntity" "treeClosure" e = inr qb)) as Htotal.
    { intros e. destruct Hdecl as [[Ht Hd]|[Ht Hd]].
      - apply nested_set_builders_total; assumption.
      - apply materialized_path_builders_total; assumption. }
    assert (forall db alias closureTableAlias entity to,
               moveEntityQueriesBuilder metadata connection db alias closureTableAlias
                 entity to = inr []) as Hplan.
    { intros. apply empty_plan_of_builders; [exact Hc| |]; intros e; apply Htotal. }
    split; [apply Hplan|].
    intros execute execute' save l dest w.
    unfold move, mbind, M_bind, readObject, getData, liftResult.
    destruct dest; simpl; rewrite Hplan; reflexivity.
  - intros Hc Hn Hp. apply move_plan_unsupported; assumption.
Qed.

(** C4, at a nested-set entity. *)
Lemma move_plan_without_closure_table_witness :
  moveEntityQueriesBuilder Examples.NestedSetCategory Issue193.postgres
    Issue193.savedDatabase "treeEntity" "treeClosure" Issue193.b (Some Issue193.c)
  = inr [].
Proof.
  apply (move_plan_without_closure_table Examples.NestedSetCategory Issue193.postgres
           Issue193.savedDatabase "treeEntity" "treeClosure" Issue193.b
           (Some Issue193.c)).
  left. split; reflexivity.
Defined.

(** C4 as stated fails at an encoding that is not closure-table and not
    one of the other two either, and at an entity that declares none: the
    plan is an error, not the empty list. *)
Lemma move_plan_not_empty_for_adjacency_list :
  treeType Examples.AdjacencyCategory <> Some closureTable
  /\ moveEntityQueriesBuilder Examples.AdjacencyCategory Issue193.postgres
       Issue193.savedDatabase "treeEntity" "treeClosure" Issue193.b (Some Issue193.c)
     = inl unsupported
  /\ moveEntityQueriesBuilder Examples.AdjacencyCategory Issue193.postgres
       Issue193.savedDatabase "treeEntity" "treeClosure" Issue193.b (Some Issue193.c)
     <> inr []
  /\ treeType Examples.PlainCategory <> Some closureTable
  /\ moveEntityQueriesBuilder Examples.PlainCategory Issue193.postgres
       Issue193.savedDatabase "treeEntity" "treeClosure" Issue193.b (Some Issue193.c)
     <> inr [].
Proof.
  split; [discriminate|]. split; [reflexivity|]. split; [discriminate|].
  split; discriminate.
Qed.

(** ** The closure-table plan *)

Section ClosurePlan.
Variable metadata : EntityMetadata.
Variable connection : Connection.
Hypothesis closure : treeType metadata = Some closureTable.

Let junction := closureJunctionTable metadata.

Lemma has_ref_of_mapM {B} (f : ColumnMetadata -> result B)
    (columns : list ColumnMetadata) ys :
  (forall column, referencedColumn column = None -> exists e, f column = inl e) ->
  mapM f columns = inr ys ->
  forallb hasReferencedColumn columns = true.
Proof.
  intros Hf H. apply mapM_inr in H.
  induction H as [|column y columns ys Hy _ IH]; [reflexivity|].
  simpl. rewrite IH, andb_true_r. unfold hasReferencedColumn.
  destruct (referencedColumn column) eqn:Href; [reflexivity|].
  destruct (Hf column Href) as [e He]. congruence.
Qed.

(** A closure-table select builder is produced exactly when every
    junction column names the column it references. *)
Lemma descendants_builder_declared alias closureTableAlias entity qb :
  createDescendantsQueryBuilder metadata connection alias closureTableAlias entity
    = inr qb ->
  junctionDeclared metadata = true.
Proof.
  unfold createDescendantsQueryBuilder. rewrite closure.
  rewrite bool_decide_eq_true_2 by reflexivity. fold junction.
  intros H. apply bind_inr in H as (js & Hjs & H).
  apply bind_inr in H as (ws & Hws & _).
  unfold junctionDeclared. fold junction. apply andb_true_intro. split.
  - eapply has_ref_of_mapM; [|exact Hws].
    intros column Href. unfold refColumn. rewrite Href. eexists. reflexivity.
  - eapply has_ref_of_mapM; [|exact Hjs].
    intros column Href. unfold refColumn. rewrite Href. eexists. reflexivity.
Qed.

Lemma closure_builders_total alias closureTableAlias entity :
  junctionDeclared metadata = true ->
  (exists qb, createDescendantsQueryBuilder metadata connection alias
                closureTableAlias entity = inr qb)
  /\ (exists qb, createAncestorsQueryBuilder metadata connection alias
                   closureTableAlias entity = inr qb).
Proof.
  intros Hdecl. unfold junctionDeclared in Hdecl. fold junction in Hdecl.
  apply andb_prop in Hdecl as [Hanc Hdesc].
  unfold createDescendantsQueryBuilder, createAncestorsQueryBuilder.
  rewrite closure. rewrite bool_decide_eq_true_2 by reflexivity. fold junction.
  split.
  - edestruct (forallb_has_ref_total
                 (fun column => ref ← refColumn column;
                    mret (CEq (OEscCol (Some closureTableAlias) (propertyPath column))
                              (OEscCol (Some alias) (propertyPath ref)))))
      as [js ->]; [|exact Hdesc|].
    { intros column ref Href. unfold refColumn. rewrite Href. eexists. reflexivity. }
    edestruct (forallb_has_ref_total
                 (fun column => ref ← refColumn column;
                    mret (mkFragment (propertyName ref) (getEntityValue ref entity)
                            (CEq (OEscCol (Some closureTableAlias) (propertyPath column))
                                 (OParam (propertyName ref))))))
      as [ws ->]; [|exact Hanc|].
    { intros column ref Href. unfold refColumn. rewrite Href. eexists. reflexivity. }
    simpl. eexists. reflexivity.
  - edestruct (forallb_has_ref_total
                 (fun column => ref ← refColumn column;
                    mret (CEq (OCol closureTableAlias (propertyPath column))
                              (OCol alias (propertyPath ref)))))
      as [js ->]; [|exact Hanc|].
    { intros column ref Href. unfold refColumn. rewrite Href. eexists. reflexivity. }
    edestruct (forallb_has_ref_total
                 (fun column => ref ← refColumn column;
                    mret (mkFragment (propertyName ref) (getEntityValue ref entity)
                            (CEq (OCol closureTableAlias (propertyPath column))
                                 (OParam (propertyName ref))))))
      as [ws ->]; [|exact Hdesc|].
    { intros column ref Href. unfold refColumn. rewrite Href. eexists. reflexivity. }
    simpl. eexists. reflexivity.
Qed.

Lemma closurePartial_total columns e :
  forallb hasReferencedColumn columns = true ->
  exists partial, closurePartial columns e = inr partial.
Proof.
  unfold closurePartial. generalize (∅ : obj) as start.
  induction columns as [|column columns IH]; intros start Hall; simpl in *.
  - exists start. reflexivity.
  - apply andb_prop in Hall as [Hc Hall]. unfold hasReferencedColumn in Hc.
    destruct (referencedColumn column) as [ref|] eqn:Href; [|discriminate].
    assert (refColumn column = inr ref) as -> by (unfold refColumn; rewrite Href; reflexivity).
    apply (IH (<[propertyPath column := getEntityValue ref e]> start) Hall).
Qed.

Lemma closuresToInsert_no_descendants toAncestors :
  junctionDeclared metadata = true ->
  closuresToInsert metadata toAncestors [] = inr [].
Proof.
  intros Hdecl. unfold junctionDeclared in Hdecl.
  apply andb_prop in Hdecl as [Hanc _].
  unfold closuresToInsert.
  enough (forall closures : list obj,
             foldl (appendClosures metadata []) (mret closures) toAncestors
             = inr closures) as H by apply H.
  induction toAncestors as [|ancestorEntity rest IH]; intros closures.
  - reflexivity.
  - change (foldl (appendClosures metadata [])
              (appendClosures metadata [] (mret closures) ancestorEntity) rest
            = inr closures).
    unfold appendClosures at 2. simpl.
    destruct (closurePartial_total _ ancestorEntity Hanc) as [partial ->].
    simpl. rewrite app_nil_r. apply IH.
Qed.
End ClosurePlan.

(** C10. For a closure-table entity whose descendants query returns the
    empty list, the plan is a delete whose where condition is the
    disjunction over no descendants, which renders as the empty string and
    so restricts nothing (every row of the junction is a target), and an
    insert with an empty values list. *)
Theorem move_plan_without_descendants
    (metadata : EntityMetadata) (connection : Connection) (db : database)
    (alias closureTableAlias : string) (entity : obj) (to : option obj) :
  treeType metadata = Some closureTable ->
  findDescendants metadata connection db entity = inr [] ->
  let clearAncestorsQuery :=
    mkDelete (junctionTableName (closureJunctionTable metadata)) (Some (COr [])) ∅ in
  moveEntityQueriesBuilder metadata connection db alias closureTableAlias entity to
  = inr [QDelete clearAncestorsQuery;
         QInsert (mkInsert (junctionTableName (closureJunctionTable metadata)) [])]
  /\ renderCond connection (COr []) = ""
  /\ forall r, deleteTargets metadata connection db clearAncestorsQuery r = true.
Proof.
  intros Hclosure Hnone. simpl. split; [|split; [reflexivity|]].
  - assert (junctionDeclared metadata = true) as Hdecl.
    { unfold findDescendants in Hnone. apply bind_inr in Hnone as (qb & Hqb & _).
      eapply descendants_builder_declared; eassumption. }
    unfold moveEntityQueriesBuilder. rewrite Hnone. simpl.
    assert (exists ancestors,
               match to with
               | Some to => findAncestors metadata connection db to
               | None => mret []
               end = inr ancestors) as [ancestors ->].
    { destruct to as [to|]; [|eexists; reflexivity]. unfold findAncestors.
      destruct (closure_builders_total metadata connection Hclosure
                  "treeEntity" "treeClosure" to Hdecl) as [_ [qb ->]].
      eexists. reflexivity. }
    simpl. rewrite bool_decide_eq_true_2 by assumption.
    rewrite closuresToInsert_no_descendants by assumption. reflexivity.
  - intros r. reflexivity.
Qed.

(** C10, at a closure-table entity none of whose closure rows exist. *)
Lemma move_plan_without_descendants_witness :
  moveEntityQueriesBuilder Issue193.ClosureCategory Issue193.postgres
    Examples.unsavedDatabase "treeEntity" "treeClosure" Issue193.b None
  = inr [QDelete (mkDelete "gh_193_closure" (Some (COr [])) ∅);
         QInsert (mkInsert "gh_193_closure" [])].
Proof.
  apply (move_plan_without_descendants Issue193.ClosureCategory Issue193.postgres
           Examples.unsavedDatabase "treeEntity" "treeClosure" Issue193.b None);
    reflexivity.
Defined.

(** ** Materialized paths *)

Lemma append_nonempty (a b c : string) : b <> "" -> a +:+ b +:+ c <> "".
Proof.
  intros Hb H. destruct a; [|inversion H]. destruct b; [|inversion H].
  apply Hb. reflexivity.
Qed.



(** The same pattern on two engines: SQLite's [LIKE] takes [A] for [a],
    PostgreSQL's does not, and reads the backslash as an escape. *)
Example like_by_engine :
  sqlLike (driver Examples.sqlite) (PStr "A.b.") (PStr "a.%") = true
  /\ sqlLike (driver Issue193.postgres) (PStr "A.b.") (PStr "a.%") = false
  /\ sqlLike (driver Issue193.postgres) (PStr "1%2")
       (PStr (String "1" (String (ascii_of_nat 92) "%2"))) = true
  /\ sqlLike (driver Issue193.postgres) (PStr "1x2")
       (PStr (String "1" (String (ascii_of_nat 92) "%2"))) = false
  /\ sqlLike (driver Issue193.postgres) (PStr "1x2") (PStr "1%2") = true.
Proof. repeat split; by_evaluation. Qed.



Lemma columnValue_unqualified name r env column :
  columnValue ((name, r) :: env) None column = default PNull (r !! column).
Proof. unfold columnValue. simpl. destruct (r !! column); reflexivity. Qed.

(** ** The test scenario: moving B under C *)

Lemma issue193_plan alias closureTableAlias :
  moveEntityQueriesBuilder Issue193.ClosureCategory Issue193.postgres
    Issue193.savedDatabase alias closureTableAlias Issue193.b (Some Issue193.c)
  = inr [QDelete Issue193.clearClosureQuery; QInsert Issue193.insertClosuresQuery].
Proof. vm_compute. reflexivity. Qed.

Lemma issue193_delete_targets db (r : row) :
  deleteTargets Issue193.ClosureCategory Issue193.postgres db
    Issue193.clearClosureQuery r = true
  <-> r !! "id_descendant" = Some (PNum 2).
Proof.
  unfold deleteTargets, condHolds, Issue193.clearClosureQuery.
  cbn [delWhere delParameters delFrom].
  rewrite bool_decide_eq_false_2 by (vm_compute; discriminate).
  cbn [evalCond existsb forallb evalOperand]. rewrite columnValue_unqualified.
  replace (paramValue (getProp (<["id2" := VPrim (PNum 2)]> ∅) "id2")) with (PNum 2)
    by (vm_compute; reflexivity).
  rewrite orb_false_r, andb_true_r.
  destruct (r !! "id_descendant") as [[| |n|]|]; simpl; split;
    try discriminate; try (intros H; injection H; discriminate).
  - intros H. apply bool_decide_eq_true_1 in H. congruence.
  - intros H. injection H as ->. apply bool_decide_eq_true_2. reflexivity.
Qed.

(** ** [move] as one unit of work *)

Section MoveOutcome.
Variable metadata : EntityMetadata.
Variable connection : Connection.
Variable execute : QueryBuilder -> database -> result database.
Variable save : heap -> loc -> database -> result database.

Lemma world_eta (w : World) : mkWorld (objects w) (data w) = w.
Proof. destruct w. reflexivity. Qed.

Lemma M_bind_eq {A B} (m : M A) (f : A -> M B) (w : World) :
  (m ≫= f) w = match m w with
               | (inl e, w') => (inl e, w')
               | (inr a, w') => f a w'
               end.
Proof. reflexivity. Qed.

Lemma onData_eq (f : database -> result database) (w : World) :
  onData f w = match f (data w) with
               | inl e => (inl e, w)
               | inr db => (inr tt, mkWorld (objects w) db)
               end.
Proof. reflexivity. Qed.

(** The loop over the plan changes the database only, and fails where
    [executeAll] does. *)
Lemma forOf_execute queries w :
  match executeAll execute queries (data w) with
  | inr db' =>
      forOf (fun query => onData (execute query)) queries w
      = (inr tt, mkWorld (objects w) db')
  | inl e =>
      exists w', forOf (fun query => onData (execute query)) queries w = (inl e, w')
                 /\ objects w' = objects w
  end.
Proof.
  revert w. induction queries as [|query rest IH]; intros w.
  - simpl. unfold mret, M_ret. rewrite world_eta. reflexivity.
  - cbn [executeAll forOf]. rewrite M_bind_eq, onData_eq.
    destruct (execute query (data w)) as [e|db1] eqn:Hq.
    + simpl. exists w. split; reflexivity.
    + simpl. specialize (IH (mkWorld (objects w) db1)). simpl in IH.
      destruct (executeAll execute rest db1) as [e|db']; exact IH.
Qed.

(** What [move] returns and leaves behind, case by case. *)
Lemma move_eq entity to w :
  move metadata connection execute save entity to w =
  match moveEntityQueriesBuilder metadata connection (data w) "treeEntity"
          "treeClosure" (objects w !!! entity)
          ((fun l => objects w !!! l) <$> to) with
  | inl e => (inl e, w)
  | inr moveQueries =>
      match executeAll execute moveQueries (data w) with
      | inl e => (inl e, w)
      | inr db1 =>
          match firstJoinColumn metadata with
          | inl e => (inl e, w)
          | inr joinColumn =>
              let h := <[entity := setEntityValue joinColumn (objects w !!! entity)
                                     (destination to)]> (objects w) in
              match save h entity db1 with
              | inl e => (inl e, mkWorld h (data w))
              | inr db2 => (inr tt, mkWorld h db2)
              end
          end
      end
  end.
Proof.
  unfold move. rewrite M_bind_eq. unfold readObject at 1.
  rewrite M_bind_eq.
  replace (match to with
           | Some l => o ← readObject l; mret (Some o)
           | None => mret None
           end w)
    with (@inr error _ ((fun l => objects w !!! l) <$> to), w)
    by (destruct to; reflexivity).
  rewrite M_bind_eq. unfold getData at 1.
  rewrite M_bind_eq. unfold liftResult at 1.
  destruct (moveEntityQueriesBuilder _ _ _ _ _ _ _) as [e|moveQueries];
    [reflexivity|].
  unfold transaction. rewrite M_bind_eq.
  pose proof (forOf_execute moveQueries w) as Hloop.
  destruct (executeAll execute moveQueries (data w)) as [e|db1].
  - destruct Hloop as (w' & -> & Hobjects). rewrite Hobjects, world_eta.
    reflexivity.
  - rewrite Hloop. rewrite M_bind_eq. unfold liftResult at 1.
    destruct (firstJoinColumn metadata) as [e|joinColumn].
    + simpl. rewrite world_eta. reflexivity.
    + rewrite M_bind_eq. unfold readObject at 1.
      rewrite M_bind_eq. unfold writeObject at 1.
      rewrite M_bind_eq. unfold getObjects at 1. rewrite onData_eq. simpl.
      destruct (save _ entity db1); reflexivity.
Qed.
End MoveOutcome.

Lemma closure_plan_shape metadata connection db alias closureTableAlias entity to plan :
  treeType metadata = Some closureTable ->
  moveEntityQueriesBuilder metadata connection db alias closureTableAlias entity to
    = inr plan ->
  exists clearAncestorsQuery insertAncestorsQuery,
    plan = [QDelete clearAncestorsQuery; QInsert insertAncestorsQuery]
    /\ delFrom clearAncestorsQuery = junctionTableName (closureJunctionTable metadata)
    /\ insInto insertAncestorsQuery = junctionTableName (closureJunctionTable metadata).
Proof.
  intros Hclosure H. unfold moveEntityQueriesBuilder in H.
  apply bind_inr in H as (entDescendants & _ & H).
  apply bind_inr in H as (toAncestors & _ & H).
  rewrite bool_decide_eq_true_2 in H by assumption.
  apply bind_inr in H as (fragments & _ & H).
  apply bind_inr in H as (closures & _ & H).
  injection H as <-. do 2 eexists. split; [reflexivity|]. split; reflexivity.
Qed.

(** The rollback is not vacuous: when both statements have run and the
    save then fails, the database is the saved one again, while B, in
    memory, already points to C. *)
Example move_rolls_back_when_save_fails :
  move Issue193.ClosureCategory Issue193.postgres Examples.wipeExecute
       Examples.failingSave 2%nat (Some 3%nat)
       (mkWorld Issue193.savedHeap Issue193.savedDatabase)
  = (inl (ExternalError "save failed"),
     mkWorld (<[2%nat := <["parentCategory" := VRef 3%nat]> Issue193.b]>
                Issue193.savedHeap)
             Issue193.savedDatabase).
Proof. by_evaluation. Qed.

(** ** Assembling the ancestors tree *)

Lemma ranked_acyclic rank relationMaps :
  rankedMap rank relationMaps = true -> acyclicMap relationMaps.
Proof.
  intros Hranked.
  assert (forall a b, tc (rmEdge relationMaps) a b -> (rank b < rank a)%nat) as Hdown.
  { assert (forall a b, rmEdge relationMaps a b -> (rank b < rank a)%nat) as Hedge.
    { intros a b (relationMap & Hin & <- & <-).
      unfold rankedMap in Hranked. rewrite forallb_forall in Hranked.
      apply list_elem_of_In in Hin. apply Hranked in Hin.
      apply bool_decide_eq_true_1 in Hin. exact Hin. }
    induction 1 as [a b Hab|a b c Hab _ IH].
    - apply Hedge, Hab.
    - apply Hedge in Hab. lia. }
  intros id Hcycle. apply Hdown in Hcycle. lia.
Qed.

Lemma find_nowhere {A} (f : A -> bool) (l : list A) :
  (forall x, x ∈ l -> f x = false) -> List.find f l = None.
Proof.
  induction l as [|x l IH]; intros Hall; [reflexivity|].
  simpl. rewrite (Hall x) by apply list_elem_of_here.
  apply IH. intros y Hy. apply Hall, list_elem_of_further, Hy.
Qed.

Section ParentTree.
Variable metadata : EntityMetadata.
Variable entities : list loc.
Variable relationMaps : list RelationMap.

(** What it means for [findParentEntity] to find a parent: the first
    relation map with the node's id names it. *)
Lemma findParentEntity_Some primary entityId h parentEntity :
  findParentEntity primary entityId entities relationMaps h = Some parentEntity ->
  exists relationMap,
    relationMap ∈ relationMaps
    /\ entityId = VPrim (rmId relationMap)
    /\ getProp (h !!! parentEntity) (propertyName primary)
       = VPrim (rmParentId relationMap).
Proof.
  unfold findParentEntity. intros H. apply find_some in H as [_ H].
  destruct (List.find _ relationMaps) as [relationMap|] eqn:Hmap; [|discriminate].
  apply find_some in Hmap as [Hin Hid].
  exists relationMap. split; [apply list_elem_of_In, Hin|].
  unfold strictEq in *. split.
  - apply bool_decide_eq_true_1 in Hid. exact Hid.
  - apply bool_decide_eq_true_1 in H. exact H.
Qed.

(** The recursion stops exactly where the claim says: no relation map
    carries the node's id, or the parent id of the first one that does
    belongs to no fetched entity. *)
Lemma findParentEntity_None primary entityId h :
  findParentEntity primary entityId entities relationMaps h = None
  <-> (forall relationMap, relationMap ∈ relationMaps ->
         entityId <> VPrim (rmId relationMap))
      \/ (exists relationMap,
            List.find (fun relationMap => strictEq (rmId relationMap) entityId)
                      relationMaps = Some relationMap
            /\ forall entity, entity ∈ entities ->
                 getProp (h !!! entity) (propertyName primary)
                 <> VPrim (rmParentId relationMap)).
Proof.
  unfold findParentEntity.
  destruct (List.find _ relationMaps) as [relationMap|] eqn:Hmap.
  - split.
    + intros Hnone. right. exists relationMap. split; [reflexivity|].
      intros entity Hin Heq. apply list_elem_of_In in Hin.
      eapply find_none in Hnone; [|exact Hin]. simpl in Hnone.
      unfold strictEq in Hnone. rewrite bool_decide_eq_true_2 in Hnone by exact Heq.
      discriminate.
    + intros [Hno|(relationMap' & Heq & Hno)].
      * apply find_some in Hmap as [Hin Hid]. unfold strictEq in Hid.
        apply bool_decide_eq_true_1 in Hid.
        apply list_elem_of_In in Hin. exfalso. exact (Hno _ Hin Hid).
      * injection Heq as <-. apply find_nowhere. intros entity Hin.
        unfold strictEq. apply bool_decide_eq_false_2. apply Hno, Hin.
  - split.
    + intros _. left. intros relationMap Hin Heq. apply list_elem_of_In in Hin.
      eapply find_none in Hmap; [|exact Hin]. simpl in Hmap.
      unfold strictEq in Hmap. rewrite bool_decide_eq_true_2 in Hmap by exact Heq.
      discriminate.
    + intros _. apply find_nowhere. intros entity _. reflexivity.
Qed.

(** One call of [buildParentEntityTree], for metadata that declares the
    parent relation and a primary column. *)
Lemma buildParentEntityTree_step fuel relation primary entity h :
  treeParentRelation metadata = Some relation ->
  head (primaryColumns metadata) = Some primary ->
  buildParentEntityTree metadata (S fuel) entity entities relationMaps h =
  match findParentEntity primary (getEntityValue primary (h !!! entity))
          entities relationMaps h with
  | Some parentEntity =>
      buildParentEntityTree metadata fuel parentEntity entities relationMaps
        (<[entity := <[relationPropertyName relation := VRef parentEntity]>
                       (h !!! entity)]> h)
  | None => Some (inr h)
  end.
Proof. intros Hrelation Hprimary. simpl. rewrite Hrelation, Hprimary. reflexivity. Qed.

(** The ids met so far are distinct ids of the map, each an ancestor in
    the map of the node the recursion stands on; so at most as many nodes
    are met as the map has entries. *)
Lemma buildParentEntityTree_bounded :
  acyclicMap relationMaps ->
  forall fuel visited entity h,
    NoDup visited ->
    (forall id, id ∈ visited -> id ∈ (rmId <$> relationMaps)) ->
    (forall primary id,
        head (primaryColumns metadata) = Some primary ->
        getEntityValue primary (h !!! entity) = VPrim id ->
        forall v, v ∈ visited -> tc (rmEdge relationMaps) v id) ->
    (length relationMaps <= fuel + length visited)%nat ->
    exists outcome,
      buildParentEntityTree metadata (S fuel) entity entities relationMaps h
      = Some outcome.
Proof.
  intros Hacyclic.
  assert (forall visited id,
             NoDup visited ->
             (forall v, v ∈ visited -> v ∈ (rmId <$> relationMaps)) ->
             id ∉ visited -> id ∈ (rmId <$> relationMaps) ->
             (length (id :: visited) <= length relationMaps)%nat) as Hcount.
  { intros visited id Hnodup Hsub Hfresh Hmem.
    rewrite <- (length_fmap rmId relationMaps).
    apply submseteq_length, NoDup_submseteq; [constructor; assumption|].
    intros x Hx. apply elem_of_cons in Hx as [->|Hx]; [exact Hmem|apply Hsub, Hx]. }
  induction fuel as [|fuel IH]; intros visited entity h Hnodup Hsub Hreach Hlen.
  all: destruct (treeParentRelation metadata) as [relation|] eqn:Hrelation;
    [|eexists; simpl; rewrite Hrelation; reflexivity].
  all: destruct (head (primaryColumns metadata)) as [primary|] eqn:Hprimary;
    [|eexists; simpl; rewrite Hrelation, Hprimary; reflexivity].
  all: rewrite (buildParentEntityTree_step _ relation primary) by assumption.
  all: destruct (findParentEntity _ _ _ _ _) as [parentEntity|] eqn:Hparent;
    [|eexists; reflexivity].
  all: apply findParentEntity_Some in Hparent as (relationMap & Hin & Hid & Hpid).
  all: assert (rmId relationMap ∉ visited) as Hfresh
    by (intros Hv; exact (Hacyclic _ (Hreach primary _ eq_refl Hid _ Hv))).
  all: assert (rmId relationMap ∈ (rmId <$> relationMaps)) as Hmem
    by (apply list_elem_of_fmap; exists relationMap; split; [reflexivity|exact Hin]).
  all: pose proof (Hcount visited (rmId relationMap) Hnodup Hsub Hfresh Hmem) as Hmax.
  - simpl in Hmax. lia.
  - apply (IH (rmId relationMap :: visited)).
    + constructor; assumption.
    + intros x Hx. apply elem_of_cons in Hx as [->|Hx]; [exact Hmem|apply Hsub, Hx].
    + intros primary' id Hprimary' Hnext v Hv.
      assert (primary' = primary) as -> by congruence.
      assert (id = rmParentId relationMap) as ->.
      { unfold getEntityValue in Hnext.
        destruct (decide (entity = parentEntity)) as [->|Hne].
        - rewrite lookup_total_insert_eq in Hnext.
          unfold getProp in Hnext, Hpid.
          destruct (decide (relationPropertyName relation = propertyName primary))
            as [Heq|Hneq].
          + rewrite Heq, lookup_insert_eq in Hnext. discriminate.
          + rewrite lookup_insert_ne in Hnext by exact Hneq. congruence.
        - rewrite lookup_total_insert_ne in Hnext by exact Hne. congruence. }
      assert (rmEdge relationMaps (rmId relationMap) (rmParentId relationMap))
        as Hedge by (exists relationMap; auto).
      apply elem_of_cons in Hv as [->|Hv].
      * apply tc_once, Hedge.
      * eapply tc_r; [|exact Hedge]. eapply Hreach; eauto.
    + simpl. lia.
Qed.
End ParentTree.

(** Fuel beyond what the recursion needs changes nothing. *)
Lemma buildParentEntityTree_more_fuel metadata entities relationMaps fuel :
  forall entity h outcome,
    buildParentEntityTree metadata fuel entity entities relationMaps h = Some outcome ->
    buildParentEntityTree metadata (S fuel) entity entities relationMaps h
    = Some outcome.
Proof.
  induction fuel as [|fuel IH]; intros entity h outcome H; [discriminate|].
  destruct (treeParentRelation metadata) as [relation|] eqn:Hrelation;
    [|simpl in *; rewrite Hrelation in *; exact H].
  destruct (head (primaryColumns metadata)) as [primary|] eqn:Hprimary;
    [|simpl in *; rewrite Hrelation, Hprimary in *; exact H].
  rewrite (buildParentEntityTree_step _ _ _ fuel relation primary) in H by assumption.
  rewrite (buildParentEntityTree_step _ _ _ (S fuel) relation primary) by assumption.
  destruct (findParentEntity _ _ _ _ _); [apply IH, H | exact H].
Qed.

(** C8. For an acyclic relation map [buildParentEntityTree] terminates:
    with any fuel above the number of entries in the map it returns, and
    always the same outcome.  Each call looks up the first relation map
    carrying the node's id and the first fetched entity whose primary key
    is that map's parent id; when there is one it assigns it to the
    node's parent property and continues from it, and it returns as soon
    as no relation map carries the node's id or no fetched entity has the
    parent id. *)
Theorem buildParentEntityTree_terminates
    (metadata : EntityMetadata) (entities : list loc)
    (relationMaps : list RelationMap) (entity : loc) (h : heap) :
  acyclicMap relationMaps ->
  (exists outcome, forall fuel,
      (length relationMaps < fuel)%nat ->
      buildParentEntityTree metadata fuel entity entities relationMaps h
      = Some outcome)
  /\ forall relation primary node h' fuel,
       treeParentRelation metadata = Some relation ->
       head (primaryColumns metadata) = Some primary ->
       let nodeId := getEntityValue primary (h' !!! node) in
       let located := findParentEntity primary nodeId entities relationMaps h' in
       (forall parentEntity, located = Some parentEntity ->
          buildParentEntityTree metadata (S fuel) node entities relationMaps h'
          = buildParentEntityTree metadata fuel parentEntity entities relationMaps
              (<[node := <[relationPropertyName relation := VRef parentEntity]>
                           (h' !!! node)]> h'))
       /\ (located = None ->
           buildParentEntityTree metadata (S fuel) node entities relationMaps h'
           = Some (inr h'))
       /\ (located = None
           <-> (forall relationMap, relationMap ∈ relationMaps ->
                  nodeId <> VPrim (rmId relationMap))
               \/ (exists relationMap,
                     List.find (fun relationMap => strictEq (rmId relationMap) nodeId)
                               relationMaps = Some relationMap
                     /\ forall candidate, candidate ∈ entities ->
                          getProp (h' !!! candidate) (propertyName primary)
                          <> VPrim (rmParentId relationMap))).
Proof.
  intros Hacyclic. split.
  - destruct (buildParentEntityTree_bounded metadata entities relationMaps Hacyclic
                (length relationMaps) [] entity h) as [outcome Houtcome].
    + constructor.
    + intros id Hid. inversion Hid.
    + intros primary id _ _ v Hv. inversion Hv.
    + lia.
    + exists outcome. intros fuel Hfuel.
      replace fuel with (fuel - S (length relationMaps) + S (length relationMaps))%nat
        by lia.
      induction (fuel - S (length relationMaps))%nat as [|extra IH]; [exact Houtcome|].
      apply buildParentEntityTree_more_fuel, IH.
  - intros relation primary node h' fuel Hrelation Hprimary nodeId located.
    pose proof (buildParentEntityTree_step metadata entities relationMaps fuel
                  relation primary node h' Hrelation Hprimary) as Hstep.
    fold nodeId in Hstep. fold located in Hstep.
    split; [|split].
    + intros parentEntity Hlocated. rewrite Hstep, Hlocated. reflexivity.
    + intros Hlocated. rewrite Hstep, Hlocated. reflexivity.
    + apply findParentEntity_None.
Qed.

(** C8, on what [findAncestorsTree] fetches for D in the test tree: D's
    parent becomes the fetched C, whose parent becomes the fetched A. *)
Lemma buildParentEntityTree_terminates_witness :
  exists outcome, forall fuel,
    (length Examples.ancestorMaps < fuel)%nat ->
    buildParentEntityTree Issue193.ClosureCategory fuel 4%nat
      Examples.fetchedAncestors Examples.ancestorMaps Examples.fetchedHeap
    = Some outcome.
Proof.
  apply (buildParentEntityTree_terminates Issue193.ClosureCategory
           Examples.fetchedAncestors Examples.ancestorMaps 4%nat Examples.fetchedHeap).
  apply (ranked_acyclic Examples.idRank). vm_compute. reflexivity.
Defined.

Example buildParentEntityTree_of_d :
  buildParentEntityTree Issue193.ClosureCategory 4 4%nat
    Examples.fetchedAncestors Examples.ancestorMaps Examples.fetchedHeap
  = Some (inr (<[4%nat := <["parentCategory" := VRef 13%nat]> Issue193.d]>
                 (<[13%nat := <["parentCategory" := VRef 11%nat]>
                                 (hydrate (Issue193.categoryRow 3 "C" (PNum 1)))]>
                    Examples.fetchedHeap))).
Proof. by_evaluation. Qed.

(** A cyclic relation map is a real obstacle: with ids 1 and 2 naming
    each other as parent the recursion outruns any fuel it is tried
    with. *)
Example buildParentEntityTree_cycle :
  let relationMaps := [mkRelationMap (PNum 1) (PNum 2); mkRelationMap (PNum 2) (PNum 1)] in
  let h : heap := <[1%nat := Issue193.a]> (<[2%nat := Issue193.b]> ∅) in
  buildParentEntityTree Issue193.ClosureCategory 50 1%nat [1%nat; 2%nat] relationMaps h
  = None.
Proof. vm_compute. reflexivity. Qed.

(** ** Assembling the descendants tree *)

Lemma indexOfFound_undefined (ids : list prim) :
  (forall id, id ∈ ids -> id <> PUndefined) ->
  indexOfFound ids (VPrim PUndefined) = false.
Proof.
  intros Hdefined. unfold indexOfFound.
  induction ids as [|id ids IH]; [reflexivity|]. simpl.
  rewrite IH by (intros x Hx; apply Hdefined, list_elem_of_further, Hx).
  rewrite orb_false_r. unfold strictEq. apply bool_decide_eq_false_2.
  intros Heq. injection Heq as Heq. symmetry in Heq.
  exact (Hdefined id (list_elem_of_here _ _) Heq).
Qed.

Lemma filter_nothing {A} (f : A -> bool) (l : list A) :
  (forall x, x ∈ l -> f x = false) -> List.filter f l = [].
Proof.
  induction l as [|x l IH]; intros Hall; [reflexivity|].
  simpl. rewrite (Hall x) by apply list_elem_of_here.
  apply IH. intros y Hy. apply Hall, list_elem_of_further, Hy.
Qed.

(** C9 (amended).  [buildChildrenEntityTree] keeps a fetched entity as a
    child when the value of its property literally named [id] occurs
    among the ids of the relation maps whose parent id is the node's
    primary key; the primary column is used for the node only.  Hence,
    when no fetched entity carries a property named [id] (and no relation
    map has an undefined id), the children collection assigned to the node
    is empty and the call returns at once, whatever was fetched. *)
Theorem children_selected_by_literal_id
    (metadata : EntityMetadata) (entities : list loc)
    (relationMaps : list RelationMap) (entity : loc) (h : heap) (fuel : nat)
    (relation : RelationMetadata) (primary : ColumnMetadata) :
  treeChildrenRelation metadata = Some relation ->
  head (primaryColumns metadata) = Some primary ->
  let childIds :=
    rmId <$> List.filter (fun relationMap =>
                            strictEq (rmParentId relationMap)
                                     (getEntityValue primary (h !!! entity)))
                         relationMaps in
  let children :=
    List.filter (fun candidate => indexOfFound childIds (getProp (h !!! candidate) "id"))
                entities in
  buildChildrenEntityTree metadata (S fuel) entity entities relationMaps h
  = forEachM (fun childEntity =>
                buildChildrenEntityTree metadata fuel childEntity entities relationMaps)
             children
             (<[entity := <[relationPropertyName relation := VArr children]>
                            (h !!! entity)]> h)
  /\ ((forall candidate, candidate ∈ entities -> (h !!! candidate) !! "id" = None) ->
      (forall relationMap, relationMap ∈ relationMaps ->
         rmId relationMap <> PUndefined) ->
      children = []
      /\ buildChildrenEntityTree metadata (S fuel) entity entities relationMaps h
         = Some (inr (<[entity := <[relationPropertyName relation := VArr []]>
                                    (h !!! entity)]> h))).
Proof.
  intros Hrelation Hprimary childIds children.
  assert (buildChildrenEntityTree metadata (S fuel) entity entities relationMaps h
          = forEachM (fun childEntity =>
                        buildChildrenEntityTree metadata fuel childEntity entities
                          relationMaps)
                     children
                     (<[entity := <[relationPropertyName relation := VArr children]>
                                    (h !!! entity)]> h)) as Hstep.
  { simpl. rewrite Hrelation, Hprimary. reflexivity. }
  split; [exact Hstep|].
  intros Hnoid Hdefined.
  assert (children = []) as Hnone.
  { apply filter_nothing. intros candidate Hin.
    unfold getProp. rewrite (Hnoid candidate Hin). simpl.
    apply indexOfFound_undefined. intros id Hid.
    apply list_elem_of_fmap in Hid as (relationMap & -> & Hmap).
    apply Hdefined. apply list_elem_of_In in Hmap. apply filter_In in Hmap as [Hmap _].
    apply list_elem_of_In, Hmap. }
  split; [exact Hnone|]. rewrite Hstep, Hnone. reflexivity.
Qed.

(** C9, for an entity type keyed by [uuid]: the child was fetched and its
    relation map names the node as parent, yet no child is assigned. *)
Lemma children_selected_by_literal_id_witness :
  buildChildrenEntityTree Examples.UuidCategory 1 1%nat [2%nat] Examples.uuidMaps
    Examples.uuidHeap
  = Some (inr (<[1%nat := <["childCategories" := VArr []]> (Examples.uuidHeap !!! 1%nat)]>
                 Examples.uuidHeap)).
Proof.
  apply (children_selected_by_literal_id Examples.UuidCategory [2%nat]
           Examples.uuidMaps 1%nat Examples.uuidHeap 0
           (mkRelation "childCategories" []) Examples.uuidColumn eq_refl eq_refl).
  - intros candidate Hin. apply list_elem_of_singleton in Hin as ->.
    vm_compute. reflexivity.
  - intros relationMap Hin. apply list_elem_of_singleton in Hin as ->. discriminate.
Defined.

(** C9 as stated fails for an entity type whose primary key property is
    [uuid] and which also has a column named [id]: the fetched child is
    assigned. *)
Lemma children_found_through_other_id_column :
  head (primaryColumns Examples.UuidCategory) = Some Examples.uuidColumn
  /\ propertyName Examples.uuidColumn <> "id"
  /\ exists h',
       buildChildrenEntityTree Examples.UuidCategory 2 1%nat [2%nat] Examples.uuidMaps
         Examples.uuidHeapWithId = Some (inr h')
       /\ getProp (h' !!! 1%nat) "childCategories" = VArr [2%nat].
Proof.
  split; [reflexivity|]. split; [discriminate|].
  exists (<[2%nat := <["childCategories" := VArr []]>
                       (Examples.uuidHeapWithId !!! 2%nat)]>
            (<[1%nat := <["childCategories" := VArr [2%nat]]>
                          (Examples.uuidHeapWithId !!! 1%nat)]>
               Examples.uuidHeapWithId)).
  split; by_evaluation.
Qed.

(** ** Reading the closure-table queries over rows *)

Lemma concat_nonempty (sep x : string) (xs : list string) :
  x <> "" -> String.concat sep (x :: xs) <> "".
Proof.
  intros Hx. cbn [String.concat]. destruct xs as [|y ys]; [exact Hx|].
  destruct x; [congruence|]. intros H. inversion H.
Qed.

Lemma render_eq_nonempty connection l r : renderCond connection (CEq l r) <> "".
Proof. cbn [renderCond]. apply append_nonempty. discriminate. Qed.

(** A conjunction of non-empty conditions holds when each does, whether
    or not the builder kept it. *)
Lemma condHolds_conj md connection db params env (cs : list cond) :
  Forall (fun c => renderCond connection c <> "") cs ->
  condHolds md connection db params (Some (CAnd cs)) env
  = forallb (evalCond md connection db env params) cs.
Proof.
  intros Hcs. unfold condHolds. case_bool_decide as Hempty; [|reflexivity].
  destruct Hcs as [|c cs Hc _]; [reflexivity|].
  cbn [renderCond map] in Hempty. apply concat_nonempty in Hempty; [contradiction|exact Hc].
Qed.

Lemma columnValue_first alias r env column :
  columnValue ((alias, r) :: env) (Some alias) column = default PNull (r !! column).
Proof.
  unfold columnValue, lookupAlias. simpl.
  rewrite bool_decide_eq_true_2 by reflexivity. simpl.
  destruct (r !! column); reflexivity.
Qed.

Lemma columnValue_second alias r other j env column :
  alias <> other ->
  columnValue ((alias, r) :: (other, j) :: env) (Some other) column
  = default PNull (j !! column).
Proof.
  intros Hne. unfold columnValue, lookupAlias. simpl.
  rewrite bool_decide_eq_false_2 by exact Hne.
  rewrite bool_decide_eq_true_2 by reflexivity. simpl.
  destruct (j !! column); reflexivity.
Qed.

(** Parameters recorded from one entity: each name holds the property of
    that name, however often it was written. *)
Lemma recordParameters_of_entity (entity : obj) (fs : list Fragment) :
  Forall (fun f => fragValue f = getProp entity (fragKey f)) fs ->
  forall start : obj,
    (forall k v, start !! k = Some v -> v = getProp entity k) ->
    (forall k v, recordParameters start fs !! k = Some v -> v = getProp entity k)
    /\ (forall f, f ∈ fs -> is_Some (recordParameters start fs !! fragKey f))
    /\ (forall k, is_Some (start !! k) -> is_Some (recordParameters start fs !! k)).
Proof.
  induction 1 as [|f fs Hf _ IH]; intros start Hstart.
  - split; [exact Hstart|]. split; [|auto]. intros f Hin. inversion Hin.
  - cbn [recordParameters foldl].
    destruct (IH (<[fragKey f := fragValue f]> start)) as (Hval & Hin & Hkeep).
    { intros k v. destruct (decide (fragKey f = k)) as [<-|Hne].
      - rewrite lookup_insert_eq. intros [= <-]. exact Hf.
      - rewrite lookup_insert_ne by exact Hne. apply Hstart. }
    split; [exact Hval|]. split.
    + intros f' Hf'. apply elem_of_cons in Hf' as [->|Hf']; [|apply Hin, Hf'].
      apply Hkeep. rewrite lookup_insert_eq. eexists. reflexivity.
    + intros k Hk. apply Hkeep. destruct (decide (fragKey f = k)) as [<-|Hne].
      * rewrite lookup_insert_eq. eexists. reflexivity.
      * rewrite lookup_insert_ne by exact Hne. exact Hk.
Qed.

Lemma recordParameters_getProp (entity : obj) (fs : list Fragment) (f : Fragment) :
  Forall (fun f => fragValue f = getProp entity (fragKey f)) fs ->
  f ∈ fs ->
  getProp (mergeParameters (recordParameters ∅ fs) (mergeParameters ∅ ∅)) (fragKey f)
  = getProp entity (fragKey f).
Proof.
  intros Hfs Hin.
  destruct (recordParameters_of_entity entity fs Hfs ∅) as (Hval & Hsome & _).
  { intros k v Hk. rewrite lookup_empty in Hk. discriminate. }
  destruct (Hsome f Hin) as [v Hv].
  unfold getProp, mergeParameters.
  rewrite (lookup_union_Some_l _ _ _ _ Hv). simpl. apply Hval in Hv. exact Hv.
Qed.

Lemma existsb_pointwise {A} (f g : A -> bool) (l : list A) :
  (forall x, f x = g x) -> existsb f l = existsb g l.
Proof.
  intros Hfg. induction l as [|x l IH]; [reflexivity|].
  simpl. rewrite Hfg, IH. reflexivity.
Qed.

Section ClosureQueries.
Variable metadata : EntityMetadata.
Variable connection : Connection.
Variable db : database.

Lemma closure_select_rows alias closureTableAlias entity table
    (joinCols whereCols : list ColumnMetadata)
    (joinConds : list cond) (whereFrags : list Fragment) :
  Forall2 (joinsColumn metadata connection db alias closureTableAlias)
          joinCols joinConds ->
  Forall2 (filtersColumn metadata connection db alias closureTableAlias entity)
          whereCols whereFrags ->
  selectedRows metadata connection db
    (setParameters (recordParameters ∅ whereFrags)
       (where_ (CAnd (fragCond <$> whereFrags)) ∅
          (innerJoin table closureTableAlias (CAnd joinConds)
             (createQueryBuilder metadata alias))))
  = List.filter
      (fun r => existsb (fun j => matchesRow joinCols j r
                                  && matchesEntity whereCols j entity)
                        (tableRows metadata db table))
      (tableRows metadata db (targetName metadata)).
Proof.
  intros Hjoin Hwhere. unfold selectedRows.
  cbn [setParameters where_ innerJoin createQueryBuilder selFrom selAlias selJoins
       selWhere selParameters app].
  apply filter_ext. intros r. cbn [joinsHold joinAlias joinCondition joinTable app].
  apply existsb_pointwise. intros j. f_equal.
  - rewrite condHolds_conj.
    + unfold matchesRow. clear Hwhere.
      induction Hjoin as [|column c columns cs (ref & Href & _ & Heval) _ IH];
        [reflexivity|].
      cbn [forallb]. rewrite Heval, Href, IH. reflexivity.
    + clear Hwhere. induction Hjoin as [|column c columns cs (ref & _ & Hc & _) _ IH];
        constructor; assumption.
  - rewrite condHolds_conj.
    + assert (Forall (fun f => fragValue f = getProp entity (fragKey f)) whereFrags)
        as Hvalues.
      { clear Hjoin.
        induction Hwhere as [|column f columns fs (ref & _ & Hk & Hv & _) _ IH];
          constructor; [|exact IH]. rewrite Hv, Hk. reflexivity. }
      assert (forall f, f ∈ whereFrags ->
                getProp (mergeParameters (recordParameters ∅ whereFrags)
                           (mergeParameters ∅ ∅)) (fragKey f)
                = getProp entity (fragKey f)) as Hparams
        by (intros f Hf; apply recordParameters_getProp; assumption).
      unfold matchesEntity. clear Hjoin Hvalues.
      revert Hparams.
      generalize (mergeParameters (recordParameters ∅ whereFrags)
                    (mergeParameters ∅ ∅)) as params.
      intros params Hparams.
      induction Hwhere as [|column f columns fs (ref & Href & Hk & _ & _ & Heval) _ IH];
        [reflexivity|].
      cbn [fmap list_fmap forallb]. rewrite Heval, Href.
      rewrite <- Hk, (Hparams f) by apply list_elem_of_here.
      rewrite Hk. unfold getEntityValue. f_equal.
      apply IH. intros f' Hf'. apply Hparams, list_elem_of_further, Hf'.
    + clear Hjoin.
      induction Hwhere as [|column f columns fs (ref & _ & _ & _ & Hc & _) _ IH];
        constructor; assumption.
Qed.

Hypothesis closure : treeType metadata = Some closureTable.
Hypothesis declared : junctionDeclared metadata = true.

Let junction := closureJunctionTable metadata.
Let table := tableRows metadata db (targetName metadata).
Let closures := tableRows metadata db (junctionTableName junction).

(** What the descendants query returns: the rows of the entity's table
    that some junction row pairs, as descendant, with the given entity as
    ancestor. *)
Lemma findDescendants_rows entity :
  findDescendants metadata connection db entity
  = inr (hydrate <$>
         List.filter
           (fun r => existsb (fun j => matchesRow (descendantColumns junction) j r
                                       && matchesEntity (ancestorColumns junction) j entity)
                             closures)
           table).
Proof.
  unfold findDescendants, createDescendantsQueryBuilder.
  rewrite closure, bool_decide_eq_true_2 by reflexivity. fold junction.
  unfold junctionDeclared in declared. fold junction in declared.
  apply andb_prop in declared as [Hanc Hdesc].
  destruct (forallb_has_ref_total
              (fun column => ref ← refColumn column;
                 mret (CEq (OEscCol (Some "treeClosure") (propertyPath column))
                           (OEscCol (Some "treeEntity") (propertyPath ref))))
              (descendantColumns junction)) as [js Hjs]; [|exact Hdesc|].
  { intros column ref Href. unfold refColumn. rewrite Href. eexists. reflexivity. }
  destruct (forallb_has_ref_total
              (fun column => ref ← refColumn column;
                 mret (mkFragment (propertyName ref) (getEntityValue ref entity)
                         (CEq (OEscCol (Some "treeClosure") (propertyPath column))
                              (OParam (propertyName ref)))))
              (ancestorColumns junction)) as [ws Hws]; [|exact Hanc|].
  { intros column ref Href. unfold refColumn. rewrite Href. eexists. reflexivity. }
  rewrite Hjs. cbn [mbind result_bind]. rewrite Hws. cbn [mbind result_bind mret result_ret].
  unfold getMany. do 2 f_equal.
  apply closure_select_rows.
  - apply mapM_inr in Hjs. eapply Forall2_impl; [exact Hjs|].
    intros column c Hc. apply bind_inr in Hc as (ref & Href & Hc).
    injection Hc as <-. unfold refColumn in Href.
    destruct (referencedColumn column) as [ref'|] eqn:Hrc; [|discriminate].
    injection Href as ->. exists ref. split; [exact Hrc|].
    split; [apply render_eq_nonempty|]. intros r j params.
    cbn [evalCond evalOperand].
    rewrite columnValue_second by discriminate. rewrite columnValue_first. reflexivity.
  - apply mapM_inr in Hws. eapply Forall2_impl; [exact Hws|].
    intros column f Hf. apply bind_inr in Hf as (ref & Href & Hf).
    injection Hf as <-. unfold refColumn in Href.
    destruct (referencedColumn column) as [ref'|] eqn:Hrc; [|discriminate].
    injection Href as ->. exists ref. split; [exact Hrc|].
    split; [reflexivity|]. split; [reflexivity|].
    split; [apply render_eq_nonempty|]. intros r j params.
    cbn [evalCond evalOperand fragCond].
    rewrite columnValue_second by discriminate. reflexivity.
Qed.

(** The ancestors query returns the rows some junction row pairs, as
    ancestor, with the given entity as descendant. *)
Lemma findAncestors_rows entity :
  findAncestors metadata connection db entity
  = inr (hydrate <$>
         List.filter
           (fun r => existsb (fun j => matchesRow (ancestorColumns junction) j r
                                       && matchesEntity (descendantColumns junction) j entity)
                             closures)
           table).
Proof.
  unfold findAncestors, createAncestorsQueryBuilder.
  rewrite closure, bool_decide_eq_true_2 by reflexivity. fold junction.
  unfold junctionDeclared in declared. fold junction in declared.
  apply andb_prop in declared as [Hanc Hdesc].
  destruct (forallb_has_ref_total
              (fun column => ref ← refColumn column;
                 mret (CEq (OCol "treeClosure" (propertyPath column))
                           (OCol "treeEntity" (propertyPath ref))))
              (ancestorColumns junction)) as [js Hjs]; [|exact Hanc|].
  { intros column ref Href. unfold refColumn. rewrite Href. eexists. reflexivity. }
  destruct (forallb_has_ref_total
              (fun column => ref ← refColumn column;
                 mret (mkFragment (propertyName ref) (getEntityValue ref entity)
                         (CEq (OCol "treeClosure" (propertyPath column))
                              (OParam (propertyName ref)))))
              (descendantColumns junction)) as [ws Hws]; [|exact Hdesc|].
  { intros column ref Href. unfold refColumn. rewrite Href. eexists. reflexivity. }
  rewrite Hjs. cbn [mbind result_bind]. rewrite Hws. cbn [mbind result_bind mret result_ret].
  unfold getMany. do 2 f_equal.
  apply closure_select_rows.
  - apply mapM_inr in Hjs. eapply Forall2_impl; [exact Hjs|].
    intros column c Hc. apply bind_inr in Hc as (ref & Href & Hc).
    injection Hc as <-. unfold refColumn in Href.
    destruct (referencedColumn column) as [ref'|] eqn:Hrc; [|discriminate].
    injection Href as ->. exists ref. split; [exact Hrc|].
    split; [apply render_eq_nonempty|]. intros r j params.
    cbn [evalCond evalOperand].
    rewrite columnValue_second by discriminate. rewrite columnValue_first. reflexivity.
  - apply mapM_inr in Hws. eapply Forall2_impl; [exact Hws|].
    intros column f Hf. apply bind_inr in Hf as (ref & Href & Hf).
    injection Hf as <-. unfold refColumn in Href.
    destruct (referencedColumn column) as [ref'|] eqn:Hrc; [|discriminate].
    injection Href as ->. exists ref. split; [exact Hrc|].
    split; [reflexivity|]. split; [reflexivity|].
    split; [apply render_eq_nonempty|]. intros r j params.
    cbn [evalCond evalOperand fragCond].
    rewrite columnValue_second by discriminate. reflexivity.
Qed.
End ClosureQueries.

Lemma matchesEntity_represents md (e : obj) (r j : row) (columns : list ColumnMetadata) :
  represents md e r ->
  (forall column, column ∈ columns ->
     column ∈ (ancestorColumns (closureJunctionTable md)
               ++ descendantColumns (closureJunctionTable md))%list) ->
  matchesEntity columns j e = matchesRow columns j r.
Proof.
  intros Hrep Hsub. unfold matchesEntity, matchesRow.
  induction columns as [|column columns IH]; [reflexivity|].
  cbn [forallb]. rewrite IH by (intros c Hc; apply Hsub, list_elem_of_further, Hc).
  destruct (referencedColumn column) as [ref|] eqn:Href; [|reflexivity].
  rewrite (Hrep column ref (Hsub column (list_elem_of_here _ _)) Href). reflexivity.
Qed.

Lemma elem_of_hydrated_filter (f : row -> bool) (rows : list row) (o : obj) :
  o ∈ hydrate <$> List.filter f rows
  <-> exists x, x ∈ rows /\ o = hydrate x /\ f x = true.
Proof.
  rewrite list_elem_of_fmap. split.
  - intros (x & -> & Hx). apply list_elem_of_In, filter_In in Hx as [Hx Hf].
    exists x. split; [apply list_elem_of_In, Hx|]. split; [reflexivity|exact Hf].
  - intros (x & Hx & -> & Hf). exists x. split; [reflexivity|].
    apply list_elem_of_In, filter_In. split; [apply list_elem_of_In, Hx|exact Hf].
Qed.

Lemma existsb_elem_of {A} (f : A -> bool) (l : list A) :
  existsb f l = true <-> exists x, x ∈ l /\ f x = true.
Proof.
  rewrite existsb_exists. split; intros (x & Hx & Hf); exists x;
    (split; [apply list_elem_of_In, Hx|exact Hf]).
Qed.

(** C3 (amended).  For a closure-table entity whose junction is the
    reflexive-transitive closure of the child edges, [findDescendants(E)]
    returns exactly the entities reachable from E by following child
    edges zero or more times, and [findAncestors(E)] exactly those from
    which E is so reachable.  Zero steps count: E itself is returned by
    both. *)
Theorem closure_queries_follow_edges
    (metadata : EntityMetadata) (connection : Connection) (db : database)
    (E : row) (entity : obj) :
  treeType metadata = Some closureTable ->
  junctionDeclared metadata = true ->
  closureInvariant metadata db ->
  E ∈ tableRows metadata db (targetName metadata) ->
  represents metadata entity E ->
  exists descendants ancestors,
    findDescendants metadata connection db entity = inr descendants
    /\ findAncestors metadata connection db entity = inr ancestors
    /\ (forall o, o ∈ descendants
                  <-> exists x, x ∈ tableRows metadata db (targetName metadata)
                                /\ o = hydrate x
                                /\ rtc (childEdge metadata db) E x)
    /\ (forall o, o ∈ ancestors
                  <-> exists x, x ∈ tableRows metadata db (targetName metadata)
                                /\ o = hydrate x
                                /\ rtc (childEdge metadata db) x E)
    /\ hydrate E ∈ descendants
    /\ hydrate E ∈ ancestors.
Proof.
  intros Hclosure Hdeclared Hinvariant HE Hrep.
  rewrite (findDescendants_rows metadata connection db Hclosure Hdeclared).
  rewrite (findAncestors_rows metadata connection db Hclosure Hdeclared).
  do 2 eexists. split; [reflexivity|]. split; [reflexivity|].
  assert (forall x, x ∈ tableRows metadata db (targetName metadata) ->
            existsb (fun j =>
                       matchesRow (descendantColumns (closureJunctionTable metadata)) j x
                       && matchesEntity (ancestorColumns (closureJunctionTable metadata))
                            j entity)
                    (tableRows metadata db
                       (junctionTableName (closureJunctionTable metadata))) = true
            <-> rtc (childEdge metadata db) E x) as Hdown.
  { intros x Hx. rewrite <- (Hinvariant E x HE Hx), existsb_elem_of.
    split; intros (j & Hj & Hm); exists j.
    - apply andb_prop in Hm as [Hd Ha].
      rewrite (matchesEntity_represents metadata entity E) in Ha;
        [auto | exact Hrep | intros c Hc; apply elem_of_app; left; exact Hc].
    - destruct Hm as [Ha Hd]. split; [exact Hj|]. apply andb_true_intro.
      rewrite (matchesEntity_represents metadata entity E);
        [auto | exact Hrep | intros c Hc; apply elem_of_app; left; exact Hc]. }
  assert (forall x, x ∈ tableRows metadata db (targetName metadata) ->
            existsb (fun j =>
                       matchesRow (ancestorColumns (closureJunctionTable metadata)) j x
                       && matchesEntity (descendantColumns (closureJunctionTable metadata))
                            j entity)
                    (tableRows metadata db
                       (junctionTableName (closureJunctionTable metadata))) = true
            <-> rtc (childEdge metadata db) x E) as Hup.
  { intros x Hx. rewrite <- (Hinvariant x E Hx HE), existsb_elem_of.
    split; intros (j & Hj & Hm); exists j.
    - apply andb_prop in Hm as [Ha Hd].
      rewrite (matchesEntity_represents metadata entity E) in Hd;
        [auto | exact Hrep | intros c Hc; apply elem_of_app; right; exact Hc].
    - destruct Hm as [Ha Hd]. split; [exact Hj|]. apply andb_true_intro.
      rewrite (matchesEntity_represents metadata entity E);
        [auto | exact Hrep | intros c Hc; apply elem_of_app; right; exact Hc]. }
  assert (forall (f : row -> bool) (reach : row -> Prop),
            (forall x, x ∈ tableRows metadata db (targetName metadata) ->
                       f x = true <-> reach x) ->
            forall o, o ∈ hydrate <$> List.filter f
                                        (tableRows metadata db (targetName metadata))
                      <-> exists x, x ∈ tableRows metadata db (targetName metadata)
                                    /\ o = hydrate x /\ reach x) as Hset.
  { intros f reach Hf o. rewrite elem_of_hydrated_filter.
    split; intros (x & Hx & Ho & Hr); exists x; (split; [exact Hx|]);
      (split; [exact Ho|]); apply (Hf x Hx); exact Hr. }
  split; [apply Hset, Hdown|]. split; [apply Hset, Hup|].
  split.
  - apply (Hset _ _ Hdown). exists E. split; [exact HE|]. split; [reflexivity|].
    apply rtc_refl.
  - apply (Hset _ _ Hup). exists E. split; [exact HE|]. split; [reflexivity|].
    apply rtc_refl.
Qed.

(** ** The saved tree of the test satisfies the closure invariant *)

Lemma issue193_table :
  tableRows Issue193.ClosureCategory Issue193.savedDatabase
            (targetName Issue193.ClosureCategory)
  = [Issue193.categoryRow 1 "A" PNull; Issue193.categoryRow 2 "B" (PNum 1);
     Issue193.categoryRow 3 "C" (PNum 1); Issue193.categoryRow 4 "D" (PNum 3)].
Proof. by_evaluation. Qed.

Ltac issue193_rows H :=
  rewrite issue193_table in H;
  repeat (apply elem_of_cons in H as [->|H]);
  [..|inversion H].

Lemma issue193_edge (parent child : row) :
  parent ∈ [Issue193.categoryRow 1 "A" PNull; Issue193.categoryRow 2 "B" (PNum 1);
            Issue193.categoryRow 3 "C" (PNum 1); Issue193.categoryRow 4 "D" (PNum 3)] ->
  child ∈ [Issue193.categoryRow 1 "A" PNull; Issue193.categoryRow 2 "B" (PNum 1);
           Issue193.categoryRow 3 "C" (PNum 1); Issue193.categoryRow 4 "D" (PNum 3)] ->
  isParentRow Issue193.ClosureCategory parent child = true ->
  childEdge Issue193.ClosureCategory Issue193.savedDatabase parent child.
Proof.
  intros Hp Hc Hedge. unfold childEdge. rewrite issue193_table. auto.
Qed.

Lemma issue193_closure_invariant :
  closureInvariant Issue193.ClosureCategory Issue193.savedDatabase.
Proof.
  intros a d Ha Hd.
  set (paired := fun a d : row =>
         existsb (fun j =>
                    matchesRow (ancestorColumns
                                  (closureJunctionTable Issue193.ClosureCategory)) j a
                    && matchesRow (descendantColumns
                                     (closureJunctionTable Issue193.ClosureCategory)) j d)
                 (tableRows Issue193.ClosureCategory Issue193.savedDatabase
                    (junctionTableName (closureJunctionTable Issue193.ClosureCategory)))).
  assert ((exists j,
              j ∈ tableRows Issue193.ClosureCategory Issue193.savedDatabase
                    (junctionTableName (closureJunctionTable Issue193.ClosureCategory))
              /\ matchesRow (ancestorColumns
                              (closureJunctionTable Issue193.ClosureCategory)) j a = true
              /\ matchesRow (descendantColumns
                              (closureJunctionTable Issue193.ClosureCategory)) j d = true)
          <-> paired a d = true) as ->.
  { unfold paired. rewrite existsb_elem_of.
    split; intros (j & Hj & Hm); exists j; (split; [exact Hj|]).
    - destruct Hm as [-> ->]. reflexivity.
    - apply andb_prop in Hm. exact Hm. }
  split.
  - (* every pair of the junction is connected by child edges *)
    intros Hpaired.
    assert (forall p c,
               p ∈ [Issue193.categoryRow 1 "A" PNull; Issue193.categoryRow 2 "B" (PNum 1);
                    Issue193.categoryRow 3 "C" (PNum 1);
                    Issue193.categoryRow 4 "D" (PNum 3)] ->
               c ∈ [Issue193.categoryRow 1 "A" PNull; Issue193.categoryRow 2 "B" (PNum 1);
                    Issue193.categoryRow 3 "C" (PNum 1);
                    Issue193.categoryRow 4 "D" (PNum 3)] ->
               isParentRow Issue193.ClosureCategory p c = true ->
               rtc (childEdge Issue193.ClosureCategory Issue193.savedDatabase) p c)
      as Hone by (intros p c Hp Hc He; apply rtc_once, issue193_edge; assumption).
    issue193_rows Ha; issue193_rows Hd;
      try (vm_compute in Hpaired; discriminate Hpaired);
      try apply rtc_refl;
      try (apply Hone; [set_solver | set_solver | vm_compute; reflexivity]).
    (* A to D goes through C *)
    apply rtc_l with (Issue193.categoryRow 3 "C" (PNum 1));
      [apply issue193_edge|apply Hone]; try set_solver; vm_compute; reflexivity.
  - (* child edges never leave the junction *)
    intros Hreach. clear Hd. revert d Hreach.
    apply (rtc_ind_r (fun d => paired a d = true)).
    + issue193_rows Ha; vm_compute; reflexivity.
    + intros y z _ (Hy & Hz & Hedge) IH.
      issue193_rows Ha; issue193_rows Hy; issue193_rows Hz;
        revert IH Hedge; vm_compute; congruence.
Qed.

Lemma issue193_represents_b :
  represents Issue193.ClosureCategory Issue193.b (Issue193.categoryRow 2 "B" (PNum 1)).
Proof.
  intros column ref Hin Href. cbn in Hin.
  apply elem_of_cons in Hin as [->|Hin];
    [|apply list_elem_of_singleton in Hin as ->];
    injection Href as <-; vm_compute; reflexivity.
Qed.

(** C3, for B in the saved tree of the test. *)
Lemma closure_queries_follow_edges_witness :
  exists descendants ancestors,
    findDescendants Issue193.ClosureCategory Issue193.postgres Issue193.savedDatabase
                    Issue193.b = inr descendants
    /\ findAncestors Issue193.ClosureCategory Issue193.postgres Issue193.savedDatabase
                     Issue193.b = inr ancestors
    /\ hydrate (Issue193.categoryRow 2 "B" (PNum 1)) ∈ descendants
    /\ hydrate (Issue193.categoryRow 2 "B" (PNum 1)) ∈ ancestors.
Proof.
  destruct (closure_queries_follow_edges Issue193.ClosureCategory Issue193.postgres
              Issue193.savedDatabase (Issue193.categoryRow 2 "B" (PNum 1)) Issue193.b
              eq_refl eq_refl issue193_closure_invariant)
    as (descendants & ancestors & Hd & Ha & _ & _ & Hself & Hself').
  - rewrite issue193_table. apply list_elem_of_further, list_elem_of_here.
  - exact issue193_represents_b.
  - exists descendants, ancestors. auto.
Defined.

(** C3 as stated fails in the saved tree of the test, whose junction is
    the closure with every reflexive pair: B has no child, yet its
    descendants are not empty but B itself, and the ancestors of C are A
    and C itself. *)
Lemma closure_queries_return_the_entity :
  closureInvariant Issue193.ClosureCategory Issue193.savedDatabase
  /\ findDescendants Issue193.ClosureCategory Issue193.postgres Issue193.savedDatabase
                     Issue193.b
     = inr [hydrate (Issue193.categoryRow 2 "B" (PNum 1))]
  /\ getProp (hydrate (Issue193.categoryRow 2 "B" (PNum 1))) "id"
     = getProp Issue193.b "id"
  /\ findAncestors Issue193.ClosureCategory Issue193.postgres Issue193.savedDatabase
                   Issue193.c
     = inr [hydrate (Issue193.categoryRow 1 "A" PNull);
            hydrate (Issue193.categoryRow 3 "C" (PNum 1))]
  /\ getProp (hydrate (Issue193.categoryRow 3 "C" (PNum 1))) "id"
     = getProp Issue193.c "id".
Proof.
  split; [exact issue193_closure_invariant|].
  repeat split; vm_compute; reflexivity.
Qed.

(** ** What the delete statement of the plan targets *)

Section DeletePlan.
Variable metadata : EntityMetadata.
Variable connection : Connection.
Variable db : database.
Hypothesis closure : treeType metadata = Some closureTable.
Hypothesis declared : junctionDeclared metadata = true.

Let junction := closureJunctionTable metadata.

Lemma descendantFragments_total e :
  exists fs, descendantFragments metadata e = inr fs.
Proof.
  unfold descendantFragments. apply forallb_has_ref_total.
  - intros column ref Href. unfold refColumn. rewrite Href. eexists. reflexivity.
  - unfold junctionDeclared in declared. apply andb_prop in declared as [_ H]. exact H.
Qed.

Lemma closuresToInsert_total toAncestors entDescendants :
  exists closures, closuresToInsert metadata toAncestors entDescendants = inr closures.
Proof.
  unfold junctionDeclared in declared. apply andb_prop in declared as [Hanc Hdesc].
  assert (exists partials,
             mapM (closurePartial (descendantColumns (closureJunctionTable metadata)))
                  entDescendants = inr partials) as [partials Hpartials].
  { apply mapM_total, Forall_forall. intros e _.
    apply closurePartial_total, Hdesc. }
  unfold closuresToInsert.
  enough (forall closures : list obj,
             exists closures',
               foldl (appendClosures metadata entDescendants) (mret closures) toAncestors
               = inr closures') as H by apply H.
  induction toAncestors as [|ancestorEntity rest IH]; intros closures.
  - eexists. reflexivity.
  - change (exists closures',
               foldl (appendClosures metadata entDescendants)
                 (appendClosures metadata entDescendants (mret closures) ancestorEntity)
                 rest = inr closures').
    unfold appendClosures at 2. cbn [mbind result_bind mret result_ret].
    destruct (closurePartial_total _ ancestorEntity Hanc) as [partial ->].
    cbn [mbind result_bind]. rewrite Hpartials. cbn [mbind result_bind]. apply IH.
Qed.

(** The plan of a closure-table move, once the descendants are known. *)
Lemma closure_plan alias closureTableAlias entity to entDescendants :
  findDescendants metadata connection db entity = inr entDescendants ->
  exists fragments insertAncestorsQuery,
    mapM (descendantFragments metadata) entDescendants = inr fragments
    /\ moveEntityQueriesBuilder metadata connection db alias closureTableAlias entity to
       = inr [QDelete
                (mkDelete (junctionTableName junction)
                   (Some (COr ((fun fs => CParen (CAnd (fragCond <$> fs))) <$> fragments)))
                   (recordParameters ∅ (concat fragments)));
              QInsert insertAncestorsQuery].
Proof.
  intros Hdescendants. unfold moveEntityQueriesBuilder. rewrite Hdescendants.
  cbn [mbind result_bind].
  assert (exists ancestors,
             match to with
             | Some to => findAncestors metadata connection db to
             | None => mret []
             end = inr ancestors) as [ancestors ->].
  { destruct to as [to|]; [|eexists; reflexivity].
    rewrite (findAncestors_rows metadata connection db closure declared).
    eexists. reflexivity. }
  cbn [mbind result_bind]. rewrite bool_decide_eq_true_2 by exact closure.
  destruct (mapM_total (descendantFragments metadata) entDescendants) as [fragments Hfs].
  { apply Forall_forall. intros e _. apply descendantFragments_total. }
  rewrite Hfs. cbn [mbind result_bind].
  destruct (closuresToInsert_total (ancestors ++ [entity]) entDescendants)
    as [closures ->].
  cbn [mbind result_bind mret result_ret].
  exists fragments. eexists. split; reflexivity.
Qed.

(** One disjunct of the delete condition, read on a junction row: the
    row's descendant columns hold the key of the descendant it was written
    for. *)
Lemma delete_disjunct name (r : row) env (params : obj) e fs :
  descendantFragments metadata e = inr fs ->
  (forall f, f ∈ fs -> params !! fragKey f = Some (fragValue f)) ->
  evalCond metadata connection db ((name, r) :: env) params (CParen (CAnd (fragCond <$> fs)))
  = matchesEntity (descendantColumns junction) r e.
Proof.
  unfold descendantFragments. fold junction. intros Hfs Hparams.
  apply mapM_inr in Hfs. cbn [evalCond]. unfold matchesEntity.
  induction Hfs as [|column f columns fs Hf _ IH]; [reflexivity|].
  cbn [fmap list_fmap forallb].
  rewrite IH by (intros f' Hf'; apply Hparams, list_elem_of_further, Hf').
  f_equal. apply bind_inr in Hf as (ref & Href & Hf). injection Hf as <-.
  unfold refColumn in Href.
  destruct (referencedColumn column) as [ref'|]; [|discriminate].
  injection Href as ->.
  cbn [evalCond evalOperand fragCond]. rewrite columnValue_unqualified.
  pose proof (Hparams _ (list_elem_of_here _ _)) as Hkept.
  cbn [fragKey fragValue] in Hkept. unfold getProp. rewrite Hkept. reflexivity.
Qed.
End DeletePlan.

Lemma sqlEq_missing (x p : prim) :
  sqlEq x (paramValue (VPrim p)) = sqlEq x p.
Proof. destruct p; [destruct x; reflexivity|reflexivity..]. Qed.

(** Against a hydrated row, matching the entity is matching the row. *)
Lemma matchesEntity_hydrate md (columns : list ColumnMetadata) (j E : row) :
  plainReferences md = true ->
  (forall column, column ∈ columns ->
     column ∈ (ancestorColumns (closureJunctionTable md)
               ++ descendantColumns (closureJunctionTable md))%list) ->
  matchesEntity columns j (hydrate E) = matchesRow columns j E.
Proof.
  intros Hplain Hsub. unfold plainReferences in Hplain.
  rewrite forallb_forall in Hplain. unfold matchesEntity, matchesRow.
  induction columns as [|column columns IH]; [reflexivity|].
  cbn [forallb]. rewrite IH by (intros c Hc; apply Hsub, list_elem_of_further, Hc).
  f_equal. pose proof (Hsub column (list_elem_of_here _ _)) as Hin.
  apply list_elem_of_In, Hplain in Hin.
  destruct (referencedColumn column) as [ref|]; [|reflexivity].
  apply bool_decide_eq_true_1 in Hin.
  unfold getEntityValue, getProp, hydrate. rewrite lookup_fmap, Hin.
  destruct (E !! propertyPath ref) as [p|]; simpl; [apply sqlEq_missing|reflexivity].
Qed.

Lemma delete_disjuncts metadata connection db name (r : row) (params : obj)
    (entDescendants : list obj) (fragments : list (list Fragment)) :
  Forall2 (fun e fs => descendantFragments metadata e = inr fs)
          entDescendants fragments ->
  (forall f, f ∈ concat fragments -> params !! fragKey f = Some (fragValue f)) ->
  existsb (evalCond metadata connection db [(name, r)] params)
          ((fun fs => CParen (CAnd (fragCond <$> fs))) <$> fragments)
  = existsb (matchesEntity (descendantColumns (closureJunctionTable metadata)) r)
            entDescendants.
Proof.
  induction 1 as [|e fs ents fragments Hfs _ IH]; intros Hparams; [reflexivity|].
  cbn [fmap list_fmap existsb]. cbn [concat] in Hparams.
  rewrite IH by (intros f Hf; apply Hparams, elem_of_app; right; exact Hf).
  f_equal. apply delete_disjunct; [exact Hfs|].
  intros f Hf. apply Hparams, elem_of_app. left. exact Hf.
Qed.

(** C2 (amended).  For a closure-table move whose descendants fetch
    returned at least one entity, and whose parameter names do not clash,
    the delete statement targets exactly the junction rows whose
    descendant columns match one of the entities [findDescendants]
    returned.  That fetch follows the junction, so where the junction
    holds the reflexive pair of the moved entity, the entity itself is
    among the fetched descendants and the rows that name it as descendant
    are targets of the delete. *)
Theorem delete_targets_fetched_descendants
    (metadata : EntityMetadata) (connection : Connection) (db : database)
    (alias closureTableAlias : string) (entity : obj) (to : option obj)
    (entDescendants : list obj) :
  treeType metadata = Some closureTable ->
  findDescendants metadata connection db entity = inr entDescendants ->
  entDescendants <> [] ->
  deleteParametersKept metadata entDescendants = true ->
  let junction := closureJunctionTable metadata in
  exists clearAncestorsQuery insertAncestorsQuery,
    moveEntityQueriesBuilder metadata connection db alias closureTableAlias entity to
    = inr [QDelete clearAncestorsQuery; QInsert insertAncestorsQuery]
    /\ delFrom clearAncestorsQuery = junctionTableName junction
    /\ (forall r,
          deleteTargets metadata connection db clearAncestorsQuery r = true
          <-> exists e, e ∈ entDescendants
                        /\ matchesEntity (descendantColumns junction) r e = true)
    /\ (forall E,
          E ∈ tableRows metadata db (targetName metadata) ->
          represents metadata entity E ->
          plainReferences metadata = true ->
          (exists j, j ∈ tableRows metadata db (junctionTableName junction)
                     /\ matchesRow (ancestorColumns junction) j E = true
                     /\ matchesRow (descendantColumns junction) j E = true) ->
          hydrate E ∈ entDescendants
          /\ forall r, matchesRow (descendantColumns junction) r E = true ->
                       deleteTargets metadata connection db clearAncestorsQuery r = true).
Proof.
  intros Hclosure Hdescendants Hsome Hkept junction.
  assert (junctionDeclared metadata = true) as Hdeclared.
  { unfold findDescendants in Hdescendants.
    apply bind_inr in Hdescendants as (qb & Hqb & _).
    eapply descendants_builder_declared; eassumption. }
  destruct (closure_plan metadata connection db Hclosure Hdeclared alias
              closureTableAlias entity to entDescendants Hdescendants)
    as (fragments & insertAncestorsQuery & Hfragments & Hplan).
  unfold deleteParametersKept in Hkept. rewrite Hfragments in Hkept.
  rewrite forallb_forall in Hkept.
  assert (forall f, f ∈ concat fragments ->
                    recordParameters ∅ (concat fragments) !! fragKey f
                    = Some (fragValue f)) as Hparams.
  { intros f Hf. apply list_elem_of_In, Hkept in Hf.
    apply bool_decide_eq_true_1 in Hf. exact Hf. }
  apply mapM_inr in Hfragments.
  assert (forall r,
             deleteTargets metadata connection db
               (mkDelete (junctionTableName junction)
                  (Some (COr ((fun fs => CParen (CAnd (fragCond <$> fs))) <$> fragments)))
                  (recordParameters ∅ (concat fragments))) r = true
             <-> exists e, e ∈ entDescendants
                           /\ matchesEntity (descendantColumns junction) r e = true)
    as Htargets.
  { intros r. unfold deleteTargets, condHolds. cbn [delWhere delParameters delFrom].
    rewrite bool_decide_eq_false_2.
    - cbn [evalCond].
      rewrite (delete_disjuncts metadata connection db _ r _ entDescendants fragments
                 Hfragments Hparams).
      apply existsb_elem_of.
    - destruct Hfragments as [|e fs ents rest _ _]; [contradiction|].
      cbn [renderCond fmap list_fmap map]. apply concat_nonempty.
      intros Hempty. inversion Hempty. }
  eexists. exists insertAncestorsQuery.
  split; [exact Hplan|]. split; [reflexivity|]. split; [exact Htargets|].
  intros E HE Hrep Hplain (j & Hj & Hanc & Hdesc).
  assert (hydrate E ∈ entDescendants) as Hself.
  { rewrite (findDescendants_rows metadata connection db Hclosure Hdeclared)
      in Hdescendants.
    injection Hdescendants as <-. apply elem_of_hydrated_filter.
    exists E. split; [exact HE|]. split; [reflexivity|].
    apply existsb_elem_of. exists j. split; [exact Hj|].
    apply andb_true_intro. split; [exact Hdesc|].
    rewrite (matchesEntity_represents metadata entity E);
      [exact Hanc | exact Hrep | intros c Hc; apply elem_of_app; left; exact Hc]. }
  split; [exact Hself|].
  intros r Hr. apply Htargets. exists (hydrate E). split; [exact Hself|].
  rewrite (matchesEntity_hydrate metadata);
    [exact Hr | exact Hplain | intros c Hc; apply elem_of_app; right; exact Hc].
Qed.

(** C2, for moving B in the saved tree of the test. *)
Lemma delete_targets_fetched_descendants_witness :
  exists clearAncestorsQuery insertAncestorsQuery,
    moveEntityQueriesBuilder Issue193.ClosureCategory Issue193.postgres
      Issue193.savedDatabase "unused" "unused" Issue193.b (Some Issue193.c)
    = inr [QDelete clearAncestorsQuery; QInsert insertAncestorsQuery]
    /\ forall r,
         deleteTargets Issue193.ClosureCategory Issue193.postgres Issue193.savedDatabase
           clearAncestorsQuery r = true
         <-> exists e, e ∈ [hydrate (Issue193.categoryRow 2 "B" (PNum 1))]
                       /\ matchesEntity [Issue193.descendantColumn] r e = true.
Proof.
  destruct (delete_targets_fetched_descendants Issue193.ClosureCategory
              Issue193.postgres Issue193.savedDatabase "unused" "unused"
              Issue193.b (Some Issue193.c)
              [hydrate (Issue193.categoryRow 2 "B" (PNum 1))])
    as (clear & insert & Hplan & _ & Htargets & _).
  - reflexivity.
  - by_evaluation.
  - discriminate.
  - vm_compute. reflexivity.
  - exists clear, insert. split; [exact Hplan|exact Htargets].
Defined.

(** C2 as stated fails in the test scenario: the delete for moving B
    targets the junction row (A, B), whose descendant is B itself. *)
Lemma delete_targets_the_moved_entity :
  moveEntityQueriesBuilder Issue193.ClosureCategory Issue193.postgres
    Issue193.savedDatabase "unused" "unused" Issue193.b (Some Issue193.c)
  = inr [QDelete Issue193.clearClosureQuery; QInsert Issue193.insertClosuresQuery]
  /\ Issue193.closureRow 1 2
     ∈ tableRows Issue193.ClosureCategory Issue193.savedDatabase "gh_193_closure"
  /\ deleteTargets Issue193.ClosureCategory Issue193.postgres Issue193.savedDatabase
       Issue193.clearClosureQuery (Issue193.closureRow 1 2) = true
  /\ VPrim <$> Issue193.closureRow 1 2 !! "id_descendant" = Issue193.b !! "id".
Proof.
  split; [apply issue193_plan|]. split.
  - replace (tableRows Issue193.ClosureCategory Issue193.savedDatabase "gh_193_closure")
      with [Issue193.closureRow 1 1; Issue193.closureRow 2 2; Issue193.closureRow 1 2;
            Issue193.closureRow 3 3; Issue193.closureRow 1 3; Issue193.closureRow 4 4;
            Issue193.closureRow 3 4; Issue193.closureRow 1 4] by by_evaluation.
    do 2 apply list_elem_of_further. apply list_elem_of_here.
  - split; by_evaluation.
Qed.


(** * Further properties of the repository *)

(** ** Closure-table declarations that cannot be queried *)

Lemma mapM_only_error {A B} (f : A -> result B) (l : list A) (e0 e : error) :
  (forall x e', f x = inl e' -> e' = e0) ->
  mapM f l = inl e -> e = e0.
Proof.
  intros Hf. induction l as [|x l IH]; [discriminate|].
  simpl. destruct (f x) as [e'|y] eqn:Hx; simpl.
  - intros [= <-]. eapply Hf, Hx.
  - destruct (mapM f l) as [e'|ys]; simpl; [|discriminate].
    intros [= <-]. apply IH. reflexivity.
Qed.

Lemma refColumn_only_error {B} (g : ColumnMetadata -> B)
    (column : ColumnMetadata) (e : error) :
  (ref ← refColumn column; mret (g ref)) = inl e ->
  e = TypeError "referencedColumn".
Proof.
  unfold refColumn. destruct (referencedColumn column); simpl; [discriminate|].
  intros [= <-]. reflexivity.
Qed.

Section ClosureDeclaration.
Variable metadata : EntityMetadata.
Variable connection : Connection.
Hypothesis closure : treeType metadata = Some closureTable.

Lemma ancestors_builder_declared alias closureTableAlias entity qb :
  createAncestorsQueryBuilder metadata connection alias closureTableAlias entity
    = inr qb ->
  junctionDeclared metadata = true.
Proof.
  unfold createAncestorsQueryBuilder. rewrite closure.
  rewrite bool_decide_eq_true_2 by reflexivity.
  intros H. apply bind_inr in H as (js & Hjs & H).
  apply bind_inr in H as (ws & Hws & _).
  unfold junctionDeclared. apply andb_true_intro. split.
  - eapply has_ref_of_mapM; [|exact Hjs].
    intros column Href. unfold refColumn. rewrite Href. eexists. reflexivity.
  - eapply has_ref_of_mapM; [|exact Hws].
    intros column Href. unfold refColumn. rewrite Href. eexists. reflexivity.
Qed.

Lemma descendants_builder_error alias closureTableAlias entity e :
  createDescendantsQueryBuilder metadata connection alias closureTableAlias entity
    = inl e ->
  e = TypeError "referencedColumn".
Proof.
  unfold createDescendantsQueryBuilder. rewrite closure.
  rewrite bool_decide_eq_true_2 by reflexivity.
  destruct (mapM _ (descendantColumns _)) as [e1|js] eqn:Hjs; simpl.
  - intros [= <-]. eapply mapM_only_error; [|exact Hjs].
    intros column e' He. exact (refColumn_only_error _ _ _ He).
  - destruct (mapM _ (ancestorColumns _)) as [e1|ws] eqn:Hws; simpl; [|discriminate].
    intros [= <-]. eapply mapM_only_error; [|exact Hws].
    intros column e' He. exact (refColumn_only_error _ _ _ He).
Qed.

Lemma ancestors_builder_error alias closureTableAlias entity e :
  createAncestorsQueryBuilder metadata connection alias closureTableAlias entity
    = inl e ->
  e = TypeError "referencedColumn".
Proof.
  unfold createAncestorsQueryBuilder. rewrite closure.
  rewrite bool_decide_eq_true_2 by reflexivity.
  destruct (mapM _ (ancestorColumns _)) as [e1|js] eqn:Hjs; simpl.
  - intros [= <-]. eapply mapM_only_error; [|exact Hjs].
    intros column e' He. exact (refColumn_only_error _ _ _ He).
  - destruct (mapM _ (descendantColumns _)) as [e1|ws] eqn:Hws; simpl; [|discriminate].
    intros [= <-]. eapply mapM_only_error; [|exact Hws].
    intros column e' He. exact (refColumn_only_error _ _ _ He).
Qed.
End ClosureDeclaration.

(** X1. For a closure-table entity the two select builders and the move
    plan succeed exactly when every ancestor and descendant column of the
    junction names the column it references.  When one does not, all three
    fail with the TypeError of reading through the undefined
    [referencedColumn], never with the unsupported-operation error and
    never with an empty result. *)
Theorem closure_operations_need_references
    (metadata : EntityMetadata) (connection : Connection) (db : database)
    (alias closureTableAlias : string) (entity : obj) (to : option obj) :
  treeType metadata = Some closureTable ->
  (junctionDeclared metadata = true ->
   (exists qb, createDescendantsQueryBuilder metadata connection alias
                 closureTableAlias entity = inr qb)
   /\ (exists qb, createAncestorsQueryBuilder metadata connection alias
                    closureTableAlias entity = inr qb)
   /\ (exists plan, moveEntityQueriesBuilder metadata connection db alias
                      closureTableAlias entity to = inr plan))
  /\ (junctionDeclared metadata = false ->
      createDescendantsQueryBuilder metadata connection alias closureTableAlias entity
        = inl (TypeError "referencedColumn")
      /\ createAncestorsQueryBuilder metadata connection alias closureTableAlias entity
        = inl (TypeError "referencedColumn")
      /\ moveEntityQueriesBuilder metadata connection db alias closureTableAlias
           entity to = inl (TypeError "referencedColumn")).
Proof.
  intros Hclosure. split.
  - intros Hdeclared.
    destruct (closure_builders_total metadata connection Hclosure alias
                closureTableAlias entity Hdeclared) as [Hd Ha].
    split; [exact Hd|]. split; [exact Ha|].
    destruct (closure_plan metadata connection db Hclosure Hdeclared alias
                closureTableAlias entity to _
                (findDescendants_rows metadata connection db Hclosure Hdeclared entity))
      as (fragments & ins & _ & Hplan).
    eexists. exact Hplan.
  - intros Hbroken.
    assert (forall alias closureTableAlias entity,
               createDescendantsQueryBuilder metadata connection alias
                 closureTableAlias entity = inl (TypeError "referencedColumn")) as Hd.
    { intros a c e.
      destruct (createDescendantsQueryBuilder metadata connection a c e)
        as [err|qb] eqn:Hqb.
      - f_equal. eapply descendants_builder_error; eassumption.
      - apply descendants_builder_declared in Hqb; [congruence|exact Hclosure]. }
    split; [apply Hd|]. split.
    + destruct (createAncestorsQueryBuilder metadata connection alias
                  closureTableAlias entity) as [err|qb] eqn:Hqb.
      * f_equal. eapply ancestors_builder_error; eassumption.
      * apply ancestors_builder_declared in Hqb; [congruence|exact Hclosure].
    + unfold moveEntityQueriesBuilder, findDescendants. rewrite Hd. reflexivity.
Qed.

(** X1, at a junction whose ancestor column references nothing. *)
Lemma closure_operations_need_references_witness :
  moveEntityQueriesBuilder Broken.BrokenCategory Issue193.postgres
    Issue193.savedDatabase "treeEntity" "treeClosure" Issue193.b None
  = inl (TypeError "referencedColumn").
Proof.
  apply (closure_operations_need_references Broken.BrokenCategory Issue193.postgres
           Issue193.savedDatabase "treeEntity" "treeClosure" Issue193.b None);
    reflexivity.
Defined.

(** ** Descendants and ancestors mirror each other *)

Lemma hydrate_inj (r1 r2 : row) : hydrate r1 = hydrate r2 -> r1 = r2.
Proof.
  intros H. apply map_eq. intros k.
  assert (hydrate r1 !! k = hydrate r2 !! k) as Hk by (rewrite H; reflexivity).
  unfold hydrate in Hk. rewrite !lookup_fmap in Hk.
  destruct (r1 !! k), (r2 !! k); simpl in Hk; congruence.
Qed.

(** X2. On a closure table, whatever rows the junction holds, the two
    queries are converse to each other: a row X of the table is among the
    descendants fetched for E exactly when E's row is among the ancestors
    fetched for X. *)
Theorem closure_descendants_ancestors_converse
    (metadata : EntityMetadata) (connection : Connection) (db : database)
    (E X : row) (entityE entityX : obj) :
  treeType metadata = Some closureTable ->
  junctionDeclared metadata = true ->
  E ∈ tableRows metadata db (targetName metadata) ->
  X ∈ tableRows metadata db (targetName metadata) ->
  represents metadata entityE E ->
  represents metadata entityX X ->
  exists descendants ancestors,
    findDescendants metadata connection db entityE = inr descendants
    /\ findAncestors metadata connection db entityX = inr ancestors
    /\ (hydrate X ∈ descendants <-> hydrate E ∈ ancestors).
Proof.
  intros Hclosure Hdeclared HE HX HrepE HrepX.
  rewrite (findDescendants_rows metadata connection db Hclosure Hdeclared).
  rewrite (findAncestors_rows metadata connection db Hclosure Hdeclared).
  do 2 eexists. split; [reflexivity|]. split; [reflexivity|].
  rewrite !elem_of_hydrated_filter.
  assert (forall (f : row -> bool) (R : row),
             (exists x, x ∈ tableRows metadata db (targetName metadata)
                        /\ hydrate R = hydrate x /\ f x = true)
             <-> R ∈ tableRows metadata db (targetName metadata) /\ f R = true)
    as Hown.
  { intros f R. split.
    - intros (x & Hx & Heq & Hf). apply hydrate_inj in Heq as ->. auto.
    - intros [HR Hf]. exists R. auto. }
  rewrite !Hown, !existsb_elem_of.
  split; intros [_ (j & Hj & Hm)]; (split; [assumption|]); exists j;
    (split; [exact Hj|]); apply andb_prop in Hm as [H1 H2]; apply andb_true_intro.
  - rewrite (matchesEntity_represents metadata entityE E) in H2;
      [| exact HrepE | intros c Hc; apply elem_of_app; left; exact Hc].
    rewrite (matchesEntity_represents metadata entityX X);
      [auto | exact HrepX | intros c Hc; apply elem_of_app; right; exact Hc].
  - rewrite (matchesEntity_represents metadata entityX X) in H2;
      [| exact HrepX | intros c Hc; apply elem_of_app; right; exact Hc].
    rewrite (matchesEntity_represents metadata entityE E);
      [auto | exact HrepE | intros c Hc; apply elem_of_app; left; exact Hc].
Qed.

Lemma issue193_represents_c :
  represents Issue193.ClosureCategory Issue193.c (Issue193.categoryRow 3 "C" (PNum 1)).
Proof.
  intros column ref Hin Href. cbn in Hin.
  apply elem_of_cons in Hin as [->|Hin];
    [|apply list_elem_of_singleton in Hin as ->];
    injection Href as <-; vm_compute; reflexivity.
Qed.

(** X2, for C and B in the saved tree of the test. *)
Lemma closure_descendants_ancestors_converse_witness :
  exists descendants ancestors,
    findDescendants Issue193.ClosureCategory Issue193.postgres Issue193.savedDatabase
                    Issue193.c = inr descendants
    /\ findAncestors Issue193.ClosureCategory Issue193.postgres Issue193.savedDatabase
                     Issue193.b = inr ancestors
    /\ (hydrate (Issue193.categoryRow 2 "B" (PNum 1)) ∈ descendants
        <-> hydrate (Issue193.categoryRow 3 "C" (PNum 1)) ∈ ancestors).
Proof.
  apply (closure_descendants_ancestors_converse Issue193.ClosureCategory
           Issue193.postgres Issue193.savedDatabase
           (Issue193.categoryRow 3 "C" (PNum 1)) (Issue193.categoryRow 2 "B" (PNum 1))
           Issue193.c Issue193.b eq_refl eq_refl).
  - rewrite issue193_table. do 2 apply list_elem_of_further. apply list_elem_of_here.
  - rewrite issue193_table. apply list_elem_of_further, list_elem_of_here.
  - exact issue193_represents_c.
  - exact issue193_represents_b.
Defined.

(** ** The rows the plan inserts *)

Lemma mapM_pure {A B} (f : A -> result B) (g : A -> B) (l : list A) :
  (forall x, x ∈ l -> f x = inr (g x)) -> mapM f l = inr (g <$> l).
Proof.
  intros Hf. apply mapM_inr. induction l as [|x l IH]; [constructor|].
  cbn [fmap list_fmap]. constructor.
  - apply Hf, list_elem_of_here.
  - apply IH. intros y Hy. apply Hf, list_elem_of_further, Hy.
Qed.

Lemma closurePartial_keyPartial (columns : list ColumnMetadata) (e : obj) :
  forallb hasReferencedColumn columns = true ->
  closurePartial columns e = inr (keyPartial columns e).
Proof.
  unfold closurePartial, keyPartial. change (mret ∅) with (@inr error obj ∅).
  generalize (∅ : obj) as start.
  induction columns as [|column columns IH]; intros start Hall; [reflexivity|].
  cbn [forallb] in Hall. apply andb_prop in Hall as [Hc Hall].
  unfold hasReferencedColumn in Hc.
  destruct (referencedColumn column) as [ref|] eqn:Href; [|discriminate].
  cbn [foldl]. rewrite Href.
  assert (refColumn column = inr ref) as ->
    by (unfold refColumn; rewrite Href; reflexivity).
  apply (IH (<[propertyPath column := getEntityValue ref e]> start) Hall).
Qed.

(** The closures of the plan: every ancestor with every descendant,
    ancestor by ancestor. *)
Lemma closuresToInsert_product metadata (toAncestors entDescendants : list obj) :
  junctionDeclared metadata = true ->
  closuresToInsert metadata toAncestors entDescendants
  = inr (flat_map
           (fun ancestorEntity =>
              (fun descendantEntity =>
                 keyPartial (descendantColumns (closureJunctionTable metadata))
                            descendantEntity
                 ∪ keyPartial (ancestorColumns (closureJunctionTable metadata))
                              ancestorEntity)
                <$> entDescendants)
           toAncestors).
Proof.
  intros Hdeclared. unfold junctionDeclared in Hdeclared.
  apply andb_prop in Hdeclared as [Hanc Hdesc].
  unfold closuresToInsert.
  set (pairs := fun ancestorEntity : obj =>
         (fun descendantEntity =>
            keyPartial (descendantColumns (closureJunctionTable metadata))
                       descendantEntity
            ∪ keyPartial (ancestorColumns (closureJunctionTable metadata))
                         ancestorEntity)
           <$> entDescendants).
  enough (forall closures : list obj,
             foldl (appendClosures metadata entDescendants) (mret closures) toAncestors
             = inr (closures ++ flat_map pairs toAncestors)%list) as H by apply (H []).
  induction toAncestors as [|ancestorEntity rest IH]; intros closures.
  - cbn [foldl flat_map]. rewrite app_nil_r. reflexivity.
  - change (foldl (appendClosures metadata entDescendants)
              (appendClosures metadata entDescendants (mret closures) ancestorEntity)
              rest = inr (closures ++ flat_map pairs (ancestorEntity :: rest))%list).
    unfold appendClosures at 2. cbn [mbind result_bind mret result_ret].
    rewrite (closurePartial_keyPartial _ ancestorEntity Hanc).
    cbn [mbind result_bind].
    rewrite (mapM_pure _ (keyPartial (descendantColumns (closureJunctionTable metadata))))
      by (intros d _; apply closurePartial_keyPartial, Hdesc).
    cbn [mbind result_bind]. rewrite IH. cbn [flat_map].
    rewrite <- list_fmap_compose, app_assoc. reflexivity.
Qed.

(** X3. The insert statement of a closure-table plan carries one row for
    every pair of an ancestor and a fetched descendant, where the
    ancestors are those fetched for the destination followed by the moved
    entity itself; rows come ancestor by ancestor, and each holds the
    descendant's key in the descendant columns and the ancestor's key in
    the ancestor columns.  Their number is the product of the two
    counts. *)
Theorem insert_rows_are_the_product
    (metadata : EntityMetadata) (connection : Connection) (db : database)
    (alias closureTableAlias : string) (entity : obj) (to : option obj)
    (entDescendants toAncestors : list obj) :
  treeType metadata = Some closureTable ->
  findDescendants metadata connection db entity = inr entDescendants ->
  match to with
  | Some to => findAncestors metadata connection db to
  | None => inr []
  end = inr toAncestors ->
  let junction := closureJunctionTable metadata in
  let rows :=
    flat_map
      (fun ancestorEntity =>
         (fun descendantEntity =>
            keyPartial (descendantColumns junction) descendantEntity
            ∪ keyPartial (ancestorColumns junction) ancestorEntity)
           <$> entDescendants)
      (toAncestors ++ [entity])%list in
  (exists clearAncestorsQuery,
      moveEntityQueriesBuilder metadata connection db alias closureTableAlias entity to
      = inr [QDelete clearAncestorsQuery;
             QInsert (mkInsert (junctionTableName junction) rows)])
  /\ length rows = (S (length toAncestors) * length entDescendants)%nat.
Proof.
  intros Hclosure Hdescendants Hancestors junction rows.
  assert (junctionDeclared metadata = true) as Hdeclared.
  { unfold findDescendants in Hdescendants.
    apply bind_inr in Hdescendants as (qb & Hqb & _).
    eapply descendants_builder_declared; eassumption. }
  split.
  - unfold moveEntityQueriesBuilder. rewrite Hdescendants. cbn [mbind result_bind].
    change (@mret result _ (list obj) []) with (@inr error (list obj) []).
    rewrite Hancestors. cbn [mbind result_bind].
    rewrite bool_decide_eq_true_2 by exact Hclosure.
    destruct (mapM_total (descendantFragments metadata) entDescendants)
      as [fragments ->].
    { apply Forall_forall. intros e _.
      apply descendantFragments_total, Hdeclared. }
    cbn [mbind result_bind].
    rewrite (closuresToInsert_product metadata _ _ Hdeclared).
    cbn [mbind result_bind mret result_ret]. eexists. reflexivity.
  - subst rows. rewrite (flat_map_constant_length (c := length entDescendants)).
    + rewrite length_app. simpl. lia.
    + intros a _. apply length_fmap.
Qed.

(** X3, for moving B under C in the saved tree of the test. *)
Lemma insert_rows_are_the_product_witness :
  exists clearAncestorsQuery,
    moveEntityQueriesBuilder Issue193.ClosureCategory Issue193.postgres
      Issue193.savedDatabase "unused" "unused" Issue193.b (Some Issue193.c)
    = inr [QDelete clearAncestorsQuery;
           QInsert
             (mkInsert "gh_193_closure"
                (flat_map
                   (fun ancestorEntity =>
                      (fun descendantEntity =>
                         keyPartial [Issue193.descendantColumn] descendantEntity
                         ∪ keyPartial [Issue193.ancestorColumn] ancestorEntity)
                        <$> [hydrate (Issue193.categoryRow 2 "B" (PNum 1))])
                   [hydrate (Issue193.categoryRow 1 "A" PNull);
                    hydrate (Issue193.categoryRow 3 "C" (PNum 1));
                    Issue193.b]))].
Proof.
  apply (insert_rows_are_the_product Issue193.ClosureCategory Issue193.postgres
           Issue193.savedDatabase "unused" "unused" Issue193.b (Some Issue193.c)
           [hydrate (Issue193.categoryRow 2 "B" (PNum 1))]
           [hydrate (Issue193.categoryRow 1 "A" PNull);
            hydrate (Issue193.categoryRow 3 "C" (PNum 1))]).
  - reflexivity.
  - by_evaluation.
  - by_evaluation.
Defined.

(** X4. The delete statement of a closure-table plan depends on the moved
    entity only, not on the destination: the same delete is planned for
    every destination and for none.  Moving to no destination inserts
    exactly one row per fetched descendant, with the moved entity as
    ancestor. *)
Theorem delete_ignores_destination
    (metadata : EntityMetadata) (connection : Connection) (db : database)
    (entity : obj) (entDescendants : list obj) :
  treeType metadata = Some closureTable ->
  findDescendants metadata connection db entity = inr entDescendants ->
  let junction := closureJunctionTable metadata in
  exists clearAncestorsQuery,
    (forall alias closureTableAlias to,
        exists insertAncestorsQuery,
          moveEntityQueriesBuilder metadata connection db alias closureTableAlias
            entity to
          = inr [QDelete clearAncestorsQuery; QInsert insertAncestorsQuery])
    /\ forall alias closureTableAlias,
         moveEntityQueriesBuilder metadata connection db alias closureTableAlias
           entity None
         = inr [QDelete clearAncestorsQuery;
                QInsert
                  (mkInsert (junctionTableName junction)
                     ((fun descendantEntity =>
                         keyPartial (descendantColumns junction) descendantEntity
                         ∪ keyPartial (ancestorColumns junction) entity)
                        <$> entDescendants))].
Proof.
  intros Hclosure Hdescendants junction.
  assert (junctionDeclared metadata = true) as Hdeclared.
  { unfold findDescendants in Hdescendants.
    apply bind_inr in Hdescendants as (qb & Hqb & _).
    eapply descendants_builder_declared; eassumption. }
  destruct (mapM_total (descendantFragments metadata) entDescendants)
    as [fragments Hfragments].
  { apply Forall_forall. intros e _. apply descendantFragments_total, Hdeclared. }
  assert (forall alias closureTableAlias to,
             moveEntityQueriesBuilder metadata connection db alias closureTableAlias
               entity to
             = (toAncestors ← match to with
                               | Some to => findAncestors metadata connection db to
                               | None => mret []
                               end;
                closures ← closuresToInsert metadata (toAncestors ++ [entity])
                                            entDescendants;
                mret [QDelete
                        (mkDelete (junctionTableName junction)
                           (Some (COr ((fun fs => CParen (CAnd (fragCond <$> fs)))
                                         <$> fragments)))
                           (recordParameters ∅ (concat fragments)));
                      QInsert (mkInsert (junctionTableName junction) closures)]))
    as Hplan.
  { intros alias closureTableAlias to.
    unfold moveEntityQueriesBuilder. rewrite Hdescendants. cbn [mbind result_bind].
    destruct (match to with
              | Some to => findAncestors metadata connection db to
              | None => mret []
              end) as [e|toAncestors]; [reflexivity|].
    cbn [mbind result_bind]. rewrite bool_decide_eq_true_2 by exact Hclosure.
    rewrite Hfragments. reflexivity. }
  eexists. split.
  - intros alias closureTableAlias to. rewrite Hplan.
    assert (exists toAncestors,
               match to with
               | Some to => findAncestors metadata connection db to
               | None => mret []
               end = inr toAncestors) as [toAncestors ->].
    { destruct to as [to|]; [|eexists; reflexivity].
      rewrite (findAncestors_rows metadata connection db Hclosure Hdeclared).
      eexists. reflexivity. }
    cbn [mbind result_bind].
    rewrite (closuresToInsert_product metadata _ _ Hdeclared).
    cbn [mbind result_bind mret result_ret]. eexists. reflexivity.
  - intros alias closureTableAlias. rewrite Hplan.
    cbn [mbind result_bind mret result_ret app].
    rewrite (closuresToInsert_product metadata _ _ Hdeclared).
    cbn [mbind result_bind flat_map]. rewrite app_nil_r. reflexivity.
Qed.

(** X4, for moving B of the saved tree of the test to the root. *)
Lemma delete_ignores_destination_witness :
  exists clearAncestorsQuery,
    forall alias closureTableAlias,
      moveEntityQueriesBuilder Issue193.ClosureCategory Issue193.postgres
        Issue193.savedDatabase alias closureTableAlias Issue193.b None
      = inr [QDelete clearAncestorsQuery;
             QInsert
               (mkInsert "gh_193_closure"
                  ((fun descendantEntity =>
                      keyPartial [Issue193.descendantColumn] descendantEntity
                      ∪ keyPartial [Issue193.ancestorColumn] Issue193.b)
                     <$> [hydrate (Issue193.categoryRow 2 "B" (PNum 1))]))].
Proof.
  destruct (delete_ignores_destination Issue193.ClosureCategory Issue193.postgres
              Issue193.savedDatabase Issue193.b
              [hydrate (Issue193.categoryRow 2 "B" (PNum 1))])
    as (clear & _ & Hroot).
  - reflexivity.
  - by_evaluation.
  - exists clear. exact Hroot.
Defined.

(** ** Parameter names of the delete statement *)

Lemma recordParameters_stays (fs : list Fragment) (start : obj) k v :
  start !! k = Some v ->
  (forall g, g ∈ fs -> fragKey g = k -> fragValue g = v) ->
  recordParameters start fs !! k = Some v.
Proof.
  revert start. induction fs as [|f fs IH]; intros start Hstart Hsame; [exact Hstart|].
  cbn [recordParameters foldl]. apply IH.
  - destruct (decide (fragKey f = k)) as [Hk|Hk].
    + rewrite <- Hk, lookup_insert_eq. f_equal.
      apply Hsame; [apply list_elem_of_here|exact Hk].
    + rewrite lookup_insert_ne by exact Hk. exact Hstart.
  - intros g Hg. apply Hsame, list_elem_of_further, Hg.
Qed.

(** Where a name always stands for one value, every fragment finds its
    own value under its name. *)
Lemma recordParameters_kept (fs : list Fragment) (start : obj) :
  (forall f g, f ∈ fs -> g ∈ fs -> fragKey f = fragKey g -> fragValue f = fragValue g) ->
  forall f, f ∈ fs -> recordParameters start fs !! fragKey f = Some (fragValue f).
Proof.
  intros Hsame f Hf. destruct (list_elem_of_split _ _ Hf) as (pre & post & ->).
  unfold recordParameters. rewrite foldl_app. cbn [foldl].
  apply recordParameters_stays.
  - apply lookup_insert_eq.
  - intros g Hg Hk. symmetry. apply Hsame; [exact Hf| |congruence].
    apply elem_of_app. right. apply list_elem_of_further, Hg.
Qed.

Lemma concat_singletons {A B} (g : A -> B) (l : list A) :
  concat ((fun x => [g x]) <$> l) = g <$> l.
Proof. induction l as [|x l IH]; [reflexivity|]. cbn. rewrite IH. reflexivity. Qed.

Lemma numberToString_safe (n : Z) :
  safeInteger n = true -> numberToString n = pretty n.
Proof.
  intros Hsafe. apply bool_decide_eq_true_1 in Hsafe. unfold numberToString.
  rewrite bool_decide_eq_true_2 by lia. reflexivity.
Qed.

(** X5. With a single descendant column and keys that are safe integers,
    the names of the delete parameters (property name followed by the
    printed key) never clash: the statement binds, for every fetched
    descendant, the parameter named after its key to that key, so each
    condition finds the value it was written for. *)
Theorem numeric_keys_keep_their_parameters
    (metadata : EntityMetadata) (connection : Connection) (db : database)
    (alias closureTableAlias : string) (entity : obj) (to : option obj)
    (entDescendants : list obj) (column ref : ColumnMetadata) :
  treeType metadata = Some closureTable ->
  findDescendants metadata connection db entity = inr entDescendants ->
  descendantColumns (closureJunctionTable metadata) = [column] ->
  referencedColumn column = Some ref ->
  (forall e, e ∈ entDescendants ->
             exists n, getEntityValue ref e = VPrim (PNum n) /\ safeInteger n = true) ->
  deleteParametersKept metadata entDescendants = true
  /\ exists clearAncestorsQuery insertAncestorsQuery,
       moveEntityQueriesBuilder metadata connection db alias closureTableAlias entity to
       = inr [QDelete clearAncestorsQuery; QInsert insertAncestorsQuery]
       /\ forall e n,
            e ∈ entDescendants ->
            getEntityValue ref e = VPrim (PNum n) ->
            delParameters clearAncestorsQuery !! (propertyName ref +:+ pretty n)
            = Some (VPrim (PNum n)).
Proof.
  intros Hclosure Hdescendants Hcolumn Href Hnumeric.
  assert (junctionDeclared metadata = true) as Hdeclared.
  { unfold findDescendants in Hdescendants.
    apply bind_inr in Hdescendants as (qb & Hqb & _).
    eapply descendants_builder_declared; eassumption. }
  set (fragment := fun e : obj =>
         mkFragment (propertyName ref +:+ valueToString (getEntityValue ref e))
           (getEntityValue ref e)
           (CEq (OEscCol None (propertyPath column))
                (OParam (propertyName ref +:+ valueToString (getEntityValue ref e))))).
  assert (mapM (descendantFragments metadata) entDescendants
          = inr ((fun e => [fragment e]) <$> entDescendants)) as Hfragments.
  { apply mapM_pure. intros e _. unfold descendantFragments. rewrite Hcolumn.
    cbn [mapM]. unfold refColumn. rewrite Href. reflexivity. }
  assert (forall f, f ∈ fragment <$> entDescendants ->
            recordParameters ∅ (fragment <$> entDescendants) !! fragKey f
            = Some (fragValue f)) as Hkept.
  { apply recordParameters_kept. intros f g Hf Hg Hk.
    apply list_elem_of_fmap in Hf as (e & -> & He).
    apply list_elem_of_fmap in Hg as (e' & -> & He').
    destruct (Hnumeric e He) as (n & Hn & Hsafe).
    destruct (Hnumeric e' He') as (n' & Hn' & Hsafe').
    subst fragment. cbn [fragKey fragValue] in *. rewrite Hn, Hn' in *.
    cbn [valueToString primToString] in Hk.
    rewrite (numberToString_safe n Hsafe), (numberToString_safe n' Hsafe') in Hk.
    apply String.app_inj, pretty_Z_inj in Hk. congruence. }
  split.
  - unfold deleteParametersKept. rewrite Hfragments, concat_singletons.
    apply forallb_forall. intros f Hf. apply bool_decide_eq_true_2.
    apply Hkept, list_elem_of_In, Hf.
  - destruct (closure_plan metadata connection db Hclosure Hdeclared alias
                closureTableAlias entity to entDescendants Hdescendants)
      as (fragments & ins & Hfs & Hplan).
    rewrite Hfragments in Hfs. injection Hfs as <-.
    do 2 eexists. split; [exact Hplan|].
    intros e n He Hn. cbn [delParameters]. rewrite concat_singletons.
    assert (fragment e ∈ fragment <$> entDescendants) as Hin
      by (apply list_elem_of_fmap; exists e; auto).
    apply Hkept in Hin. subst fragment. cbn [fragKey fragValue] in Hin.
    destruct (Hnumeric e He) as (n' & Hn' & Hsafe).
    rewrite Hn in Hn'. injection Hn' as <-.
    rewrite Hn in Hin. cbn [valueToString primToString] in Hin.
    rewrite (numberToString_safe n Hsafe) in Hin. exact Hin.
Qed.

(** X5, for moving C, whose descendants are C itself and D, in the saved
    tree of the test: the delete binds [id3] and [id4]. *)
Lemma numeric_keys_keep_their_parameters_witness :
  deleteParametersKept Issue193.ClosureCategory
    [hydrate (Issue193.categoryRow 3 "C" (PNum 1));
     hydrate (Issue193.categoryRow 4 "D" (PNum 3))] = true
  /\ exists clearAncestorsQuery insertAncestorsQuery,
       moveEntityQueriesBuilder Issue193.ClosureCategory Issue193.postgres
         Issue193.savedDatabase "unused" "unused" Issue193.c (Some Issue193.b)
       = inr [QDelete clearAncestorsQuery; QInsert insertAncestorsQuery]
       /\ delParameters clearAncestorsQuery !! "id3" = Some (VPrim (PNum 3))
       /\ delParameters clearAncestorsQuery !! "id4" = Some (VPrim (PNum 4)).
Proof.
  destruct (numeric_keys_keep_their_parameters Issue193.ClosureCategory
              Issue193.postgres Issue193.savedDatabase "unused" "unused"
              Issue193.c (Some Issue193.b)
              [hydrate (Issue193.categoryRow 3 "C" (PNum 1));
               hydrate (Issue193.categoryRow 4 "D" (PNum 3))]
              Issue193.descendantColumn Issue193.idColumn)
    as (Hkept & clear & insert & Hplan & Hbound).
  - reflexivity.
  - by_evaluation.
  - reflexivity.
  - reflexivity.
  - intros e He. apply elem_of_cons in He as [-> | He];
      [exists 3; split; reflexivity|].
    apply list_elem_of_singleton in He as ->. exists 4. split; reflexivity.
  - split; [exact Hkept|]. exists clear, insert. split; [exact Hplan|]. split.
    + apply (Hbound (hydrate (Issue193.categoryRow 3 "C" (PNum 1))) 3);
        [apply list_elem_of_here|reflexivity].
    + apply (Hbound (hydrate (Issue193.categoryRow 4 "D" (PNum 3))) 4);
        [apply list_elem_of_further, list_elem_of_here|reflexivity].
Defined.

(** From 10^21 on a number prints in exponent notation, and that is the
    name its parameter gets. *)
Example large_keys_print_with_exponent :
  primToString (PNum 1000000000000000000000) = "1e+21"
  /\ primToString (PNum (-1500000000000000000000)) = "-1.5e+21".
Proof. split; by_evaluation. Qed.

(** Names do clash between a number and the string that prints the same:
    the parameter [id1] of the first condition ends up holding the
    string. *)
Example delete_parameters_clash :
  deleteParametersKept Issue193.ClosureCategory
    [<["id" := VPrim (PNum 1)]> ∅; <["id" := VPrim (PStr "1")]> ∅] = false.
Proof. vm_compute. reflexivity. Qed.

(** ** What [move] leaves in memory *)

(** X6. The transaction of [move] covers the database only.  Once the
    statements of the plan have run, the moved entity's parent property
    holds the destination whatever the save does: when the save fails,
    [move] fails with the save's error and the database is the one before
    the call, yet the entity in memory already points to the destination.
    No other object is written.  When a statement of the plan fails,
    nothing is assigned at all. *)
Theorem move_assigns_before_it_saves
    (metadata : EntityMetadata) (connection : Connection)
    (execute : QueryBuilder -> database -> result database)
    (save : heap -> loc -> database -> result database)
    (entity : loc) (to : option loc) (w : World)
    (plan : list QueryBuilder) (joinColumn : ColumnMetadata) :
  moveEntityQueriesBuilder metadata connection (data w) "treeEntity" "treeClosure"
    (objects w !!! entity) ((fun l => objects w !!! l) <$> to) = inr plan ->
  firstJoinColumn metadata = inr joinColumn ->
  let assigned :=
    <[entity := setEntityValue joinColumn (objects w !!! entity) (destination to)]>
      (objects w) in
  let outcome := move metadata connection execute save entity to w in
  (forall afterQueries,
      executeAll execute plan (data w) = inr afterQueries ->
      objects (snd outcome) = assigned
      /\ getProp (objects (snd outcome) !!! entity) (propertyName joinColumn)
         = destination to
      /\ (forall l, l <> entity -> objects (snd outcome) !! l = objects w !! l)
      /\ forall e, save assigned entity afterQueries = inl e ->
                   outcome = (inl e, mkWorld assigned (data w)))
  /\ (forall e, executeAll execute plan (data w) = inl e -> outcome = (inl e, w)).
Proof.
  intros Hplan Hjoin assigned outcome. subst outcome.
  rewrite move_eq, Hplan, Hjoin. split.
  - intros afterQueries Hrun. rewrite Hrun. cbv zeta. fold assigned.
    assert (objects (match save assigned entity afterQueries with
                     | inl e => (inl e, mkWorld assigned (data w))
                     | inr db2 => (inr tt, mkWorld assigned db2)
                     end).2 = assigned) as Hobjects
      by (destruct (save assigned entity afterQueries); reflexivity).
    split; [exact Hobjects|]. rewrite Hobjects. split.
    + subst assigned. rewrite lookup_total_insert_eq.
      unfold setEntityValue, getProp. rewrite lookup_insert_eq. reflexivity.
    + split.
      * intros l Hl. subst assigned. apply lookup_insert_ne. congruence.
      * intros e ->. reflexivity.
  - intros e ->. reflexivity.
Qed.

(** X6, with statements that wipe the database and a save that fails. *)
Lemma move_assigns_before_it_saves_witness :
  move Issue193.ClosureCategory Issue193.postgres Examples.wipeExecute
       Examples.failingSave 2%nat (Some 3%nat)
       (mkWorld Issue193.savedHeap Issue193.savedDatabase)
  = (inl (ExternalError "save failed"),
     mkWorld (<[2%nat := setEntityValue Issue193.parentJoinColumn
                           (Issue193.savedHeap !!! 2%nat) (VRef 3%nat)]>
                Issue193.savedHeap)
             Issue193.savedDatabase).
Proof.
  destruct (move_assigns_before_it_saves Issue193.ClosureCategory Issue193.postgres
              Examples.wipeExecute Examples.failingSave 2%nat (Some 3%nat)
              (mkWorld Issue193.savedHeap Issue193.savedDatabase)
              [QDelete Issue193.clearClosureQuery; QInsert Issue193.insertClosuresQuery]
              Issue193.parentJoinColumn) as [Hran _].
  - by_evaluation.
  - reflexivity.
  - destruct (Hran ∅ eq_refl) as (_ & _ & _ & Hfails).
    apply (Hfails (ExternalError "save failed")). reflexivity.
Defined.

(** ** What the ancestors tree writes *)

Lemma find_pointwise {A} (f g : A -> bool) (l : list A) :
  (forall x, f x = g x) -> List.find f l = List.find g l.
Proof.
  intros Hfg. induction l as [|x l IH]; [reflexivity|].
  simpl. rewrite Hfg, IH. reflexivity.
Qed.

Lemma getProp_insert_ne (o : obj) (name other : string) (v : value) :
  other <> name -> getProp (<[other := v]> o) name = getProp o name.
Proof. intros Hne. unfold getProp. rewrite lookup_insert_ne by exact Hne. reflexivity. Qed.

Section ParentWrites.
Variable metadata : EntityMetadata.
Variable entities : list loc.
Variable relationMaps : list RelationMap.
Variable relation : RelationMetadata.
Variable primary : ColumnMetadata.
Hypothesis declared_relation : treeParentRelation metadata = Some relation.
Hypothesis declared_primary : head (primaryColumns metadata) = Some primary.
Hypothesis distinct : relationPropertyName relation <> propertyName primary.

Let parentProperty := relationPropertyName relation.
Let located := locatedParent primary entities relationMaps.

(** The store [h'] is [h] with, on some objects, the parent property set
    to the parent located for them. *)
Let parentsWritten (h h' : heap) : Prop :=
  forall l, h' !!! l = h !!! l
            \/ exists parentEntity,
                 located h l = Some parentEntity
                 /\ h' !!! l = <[parentProperty := VRef parentEntity]> (h !!! l).

Lemma parentsWritten_keys h h' l :
  parentsWritten h h' ->
  getProp (h' !!! l) (propertyName primary) = getProp (h !!! l) (propertyName primary).
Proof.
  intros Hw. destruct (Hw l) as [->|(pe & _ & ->)]; [reflexivity|].
  apply getProp_insert_ne, distinct.
Qed.

Lemma located_same_keys h h' l :
  (forall l, getProp (h' !!! l) (propertyName primary)
             = getProp (h !!! l) (propertyName primary)) ->
  located h' l = located h l.
Proof.
  intros Hkeys. unfold located, locatedParent, findParentEntity, getEntityValue.
  rewrite Hkeys. apply find_pointwise. intros e. rewrite Hkeys. reflexivity.
Qed.

Lemma assignment_parentsWritten h entity parentEntity :
  located h entity = Some parentEntity ->
  parentsWritten h
    (<[entity := <[parentProperty := VRef parentEntity]> (h !!! entity)]> h).
Proof.
  intros Hlocated l. destruct (decide (entity = l)) as [<-|Hne].
  - right. exists parentEntity. split; [exact Hlocated|].
    apply lookup_total_insert_eq.
  - left. apply lookup_total_insert_ne, Hne.
Qed.

Lemma buildParentEntityTree_written fuel :
  forall entity h outcome,
    buildParentEntityTree metadata fuel entity entities relationMaps h = Some outcome ->
    exists h',
      outcome = inr h'
      /\ parentsWritten h h'
      /\ (forall l, is_Some (h !! l) -> is_Some (h' !! l))
      /\ forall parentEntity,
           located h entity = Some parentEntity ->
           h' !! entity
           = Some (<[parentProperty := VRef parentEntity]> (h !!! entity)).
Proof.
  induction fuel as [|fuel IH]; intros entity h outcome H; [discriminate|].
  rewrite (buildParentEntityTree_step _ _ _ fuel relation primary) in H by assumption.
  change (findParentEntity primary (getEntityValue primary (h !!! entity)) entities
            relationMaps h) with (located h entity) in H.
  destruct (located h entity) as [parentEntity|] eqn:Hlocated.
  - remember (<[entity := <[relationPropertyName relation := VRef parentEntity]>
                             (h !!! entity)]> h) as h1 eqn:Hh1.
    apply IH in H as (h' & -> & Hw & Hdom & _).
    assert (parentsWritten h h1) as Hw1
      by (rewrite Hh1; apply assignment_parentsWritten, Hlocated).
    assert (h1 !! entity
            = Some (<[parentProperty := VRef parentEntity]> (h !!! entity))) as Hat
      by (rewrite Hh1; apply lookup_insert_eq).
    assert (forall l, entity <> l -> h1 !! l = h !! l) as Hother
      by (intros l Hl; rewrite Hh1; apply lookup_insert_ne, Hl).
    assert (h1 !!! entity = <[parentProperty := VRef parentEntity]> (h !!! entity))
      as Hat' by (rewrite Hh1; apply lookup_total_insert_eq).
    clear Hh1.
    assert (forall l, located h1 l = located h l) as Hsame
      by (intros l; apply located_same_keys; intros l';
          apply parentsWritten_keys, Hw1).
    assert (parentsWritten h h') as Hall.
    { intros l. destruct (Hw l) as [Hl|(pe & Hpe & Hl)].
      - rewrite Hl. apply Hw1.
      - rewrite Hsame in Hpe. right. exists pe. split; [exact Hpe|].
        rewrite Hl. destruct (Hw1 l) as [->|(pe1 & _ & ->)]; [reflexivity|].
        apply insert_insert_eq. }
    exists h'. split; [reflexivity|]. split; [exact Hall|]. split.
    + intros l Hl. apply Hdom.
      destruct (decide (entity = l)) as [<-|Hne].
      * rewrite Hat. eexists. reflexivity.
      * rewrite Hother by exact Hne. exact Hl.
    + intros pe [= <-].
      assert (is_Some (h' !! entity)) as [o Ho].
      { apply Hdom. rewrite Hat. eexists. reflexivity. }
      rewrite Ho. f_equal.
      assert (h' !!! entity = o) as Hoo
        by (unfold lookup_total, map_lookup_total; rewrite Ho; reflexivity).
      rewrite <- Hoo.
      destruct (Hw entity) as [Hl1|(pe1 & Hpe1 & Hl1)].
      * rewrite Hl1. exact Hat'.
      * rewrite Hsame, Hlocated in Hpe1. injection Hpe1 as <-.
        rewrite Hl1, Hat'. apply insert_insert_eq.
  - injection H as <-. exists h. split; [reflexivity|]. split; [|split].
    + intros l. left. reflexivity.
    + auto.
    + intros pe Hpe. discriminate.
Qed.

(** Run on its own result, the assembly finds the same parents and writes
    what is there already. *)
Lemma buildParentEntityTree_again fuel :
  forall entity h h',
    buildParentEntityTree metadata fuel entity entities relationMaps h = Some (inr h') ->
    buildParentEntityTree metadata fuel entity entities relationMaps h' = Some (inr h').
Proof.
  induction fuel as [|fuel IH]; intros entity h h' H; [discriminate|].
  destruct (buildParentEntityTree_written (S fuel) entity h _ H)
    as (h'' & [= <-] & Hw & _ & Hentity).
  rewrite (buildParentEntityTree_step _ _ _ fuel relation primary) in H |- *
    by assumption.
  change (findParentEntity primary (getEntityValue primary (h !!! entity)) entities
            relationMaps h) with (located h entity) in H.
  change (findParentEntity primary (getEntityValue primary (h' !!! entity)) entities
            relationMaps h') with (located h' entity).
  rewrite (located_same_keys h h')
    by (intros l; apply parentsWritten_keys, Hw).
  destruct (located h entity) as [parentEntity|] eqn:Hlocated.
  - specialize (Hentity parentEntity eq_refl).
    assert (h' !!! entity = <[parentProperty := VRef parentEntity]> (h !!! entity))
      as Hat by (unfold lookup_total, map_lookup_total; rewrite Hentity; reflexivity).
    fold parentProperty. rewrite Hat, insert_insert_eq, <- Hat.
    rewrite insert_id by (rewrite Hentity, Hat; reflexivity).
    eapply IH, H.
  - injection H as ->. reflexivity.
Qed.
End ParentWrites.

(** X7. With the parent relation and a primary column declared, and the
    parent property not the key property, [buildParentEntityTree] never
    fails, and a run that returns has written nothing but parent
    properties: every object of the store is as before or has its parent
    property set to the parent located for it, the entity handed in among
    the latter whenever a parent is located for it.  Running it again on
    the resulting store changes nothing. *)
Theorem buildParentEntityTree_writes_parents_only
    (metadata : EntityMetadata) (entities : list loc)
    (relationMaps : list RelationMap) (relation : RelationMetadata)
    (primary : ColumnMetadata) (fuel : nat) (entity : loc) (h : heap)
    (outcome : result heap) :
  treeParentRelation metadata = Some relation ->
  head (primaryColumns metadata) = Some primary ->
  relationPropertyName relation <> propertyName primary ->
  buildParentEntityTree metadata fuel entity entities relationMaps h = Some outcome ->
  exists h',
    outcome = inr h'
    /\ (forall l,
          h' !!! l = h !!! l
          \/ exists parentEntity,
               locatedParent primary entities relationMaps h l = Some parentEntity
               /\ h' !!! l
                  = <[relationPropertyName relation := VRef parentEntity]> (h !!! l))
    /\ (forall parentEntity,
          locatedParent primary entities relationMaps h entity = Some parentEntity ->
          getProp (h' !!! entity) (relationPropertyName relation) = VRef parentEntity)
    /\ buildParentEntityTree metadata fuel entity entities relationMaps h'
       = Some (inr h').
Proof.
  intros Hrelation Hprimary Hdistinct Hrun.
  destruct (buildParentEntityTree_written metadata entities relationMaps relation
              primary Hrelation Hprimary Hdistinct fuel entity h outcome Hrun)
    as (h' & -> & Hw & _ & Hentity).
  exists h'. split; [reflexivity|]. split; [exact Hw|]. split.
  - intros parentEntity Hlocated. apply Hentity in Hlocated.
    unfold lookup_total, map_lookup_total. rewrite Hlocated. simpl.
    unfold getProp. rewrite lookup_insert_eq. reflexivity.
  - eapply buildParentEntityTree_again; eassumption.
Qed.

(** X7, on what [findAncestorsTree] fetches for D in the test tree. *)
Lemma buildParentEntityTree_writes_parents_only_witness :
  exists h',
    buildParentEntityTree Issue193.ClosureCategory 4 4%nat Examples.fetchedAncestors
      Examples.ancestorMaps Examples.fetchedHeap = Some (inr h')
    /\ getProp (h' !!! 4%nat) "parentCategory" = VRef 13%nat
    /\ buildParentEntityTree Issue193.ClosureCategory 4 4%nat Examples.fetchedAncestors
         Examples.ancestorMaps h' = Some (inr h').
Proof.
  destruct (buildParentEntityTree_writes_parents_only Issue193.ClosureCategory
              Examples.fetchedAncestors Examples.ancestorMaps
              (mkRelation "parentCategory" [Issue193.parentJoinColumn])
              Issue193.idColumn 4 4%nat Examples.fetchedHeap _
              eq_refl eq_refl ltac:(discriminate) buildParentEntityTree_of_d)
    as (h' & Hout & _ & Hparent & Hagain).
  exists h'. injection Hout as <-.
  split; [exact buildParentEntityTree_of_d|]. split; [|exact Hagain].
  apply Hparent. by_evaluation.
Defined.

(** ** What the descendants tree writes, and when it returns *)

Lemma forEachM_invariant {A} (f : A -> heap -> option (result heap))
    (R : heap -> heap -> Prop) (l : list A) :
  (forall h, R h h) ->
  (forall h1 h2 h3, R h1 h2 -> R h2 h3 -> R h1 h3) ->
  (forall x h o, x ∈ l -> f x h = Some o -> exists h', o = inr h' /\ R h h') ->
  forall h o, forEachM f l h = Some o -> exists h', o = inr h' /\ R h h'.
Proof.
  intros Hrefl Htrans. induction l as [|x l IH]; intros Hf h o H.
  - injection H as <-. exists h. auto.
  - cbn [forEachM] in H. destruct (f x h) as [[e|h1]|] eqn:Hx; [| |discriminate].
    + destruct (Hf x h _ (list_elem_of_here _ _) Hx) as (h' & Hbad & _). discriminate.
    + destruct (Hf x h _ (list_elem_of_here _ _) Hx) as (h' & [= <-] & Hstep).
      destruct (IH (fun y hy oy Hy => Hf y hy oy (list_elem_of_further _ _ _ Hy))
                  h1 o H) as (h' & -> & Hrest).
      exists h'. split; [reflexivity|]. eapply Htrans; eassumption.
Qed.

Lemma forEachM_returns {A} (f : A -> heap -> option (result heap))
    (P : heap -> Prop) (l : list A) :
  (forall x h, x ∈ l -> P h ->
     exists o, f x h = Some o /\ forall h', o = inr h' -> P h') ->
  forall h, P h -> exists o, forEachM f l h = Some o.
Proof.
  induction l as [|x l IH]; intros Hf h Hh.
  - eexists. reflexivity.
  - cbn [forEachM].
    destruct (Hf x h (list_elem_of_here _ _) Hh) as ([e|h1] & -> & Hnext).
    + eexists. reflexivity.
    + apply IH; [|apply Hnext; reflexivity].
      intros y hy Hy. apply Hf, list_elem_of_further, Hy.
Qed.

Lemma forEachM_more {A} (f g : A -> heap -> option (result heap)) (l : list A) :
  (forall x h o, f x h = Some o -> g x h = Some o) ->
  forall h o, forEachM f l h = Some o -> forEachM g l h = Some o.
Proof.
  intros Hfg. induction l as [|x l IH]; intros h o H; [exact H|].
  cbn [forEachM] in *. destruct (f x h) as [[e|h1]|] eqn:Hx; [| |discriminate].
  - rewrite (Hfg _ _ _ Hx). exact H.
  - rewrite (Hfg _ _ _ Hx). apply IH, H.
Qed.

Section ChildrenWrites.
Variable metadata : EntityMetadata.
Variable entities : list loc.
Variable relationMaps : list RelationMap.
Variable relation : RelationMetadata.
Variable primary : ColumnMetadata.
Hypothesis declared_relation : treeChildrenRelation metadata = Some relation.
Hypothesis declared_primary : head (primaryColumns metadata) = Some primary.
Hypothesis not_id : relationPropertyName relation <> "id".
Hypothesis not_key : relationPropertyName relation <> propertyName primary.

Let childProperty := relationPropertyName relation.
Let selected := selectedChildren primary entities relationMaps.

Lemma buildChildrenEntityTree_step fuel node h :
  buildChildrenEntityTree metadata (S fuel) node entities relationMaps h
  = forEachM (fun childEntity =>
                buildChildrenEntityTree metadata fuel childEntity entities relationMaps)
             (selected h node)
             (<[node := <[childProperty := VArr (selected h node)]> (h !!! node)]> h).
Proof. simpl. rewrite declared_relation, declared_primary. reflexivity. Qed.

(** The store [h'] is [h] with, on some objects, the children property
    set to the children selected for them. *)
Let childrenWritten (h h' : heap) : Prop :=
  forall l, h' !!! l = h !!! l
            \/ h' !!! l = <[childProperty := VArr (selected h l)]> (h !!! l).

Lemma childrenWritten_keys h h' :
  childrenWritten h h' ->
  forall l, getProp (h' !!! l) "id" = getProp (h !!! l) "id"
            /\ getProp (h' !!! l) (propertyName primary)
               = getProp (h !!! l) (propertyName primary).
Proof.
  intros Hw l. destruct (Hw l) as [-> | ->]; [auto|].
  split; apply getProp_insert_ne; assumption.
Qed.

Lemma selected_same_keys h h' :
  (forall l, getProp (h' !!! l) "id" = getProp (h !!! l) "id"
             /\ getProp (h' !!! l) (propertyName primary)
                = getProp (h !!! l) (propertyName primary)) ->
  forall l, selected h' l = selected h l.
Proof.
  intros Hkeys l. unfold selected, selectedChildren, getEntityValue.
  rewrite (proj2 (Hkeys l)). apply filter_ext. intros e.
  rewrite (proj1 (Hkeys e)). reflexivity.
Qed.

Lemma childrenWritten_refl h : childrenWritten h h.
Proof. intros l. left. reflexivity. Qed.

Lemma childrenWritten_trans h1 h2 h3 :
  childrenWritten h1 h2 -> childrenWritten h2 h3 -> childrenWritten h1 h3.
Proof.
  intros H12 H23 l.
  pose proof (selected_same_keys h1 h2 (childrenWritten_keys h1 h2 H12) l) as Hsame.
  destruct (H23 l) as [-> | ->]; [apply H12|]. rewrite Hsame.
  destruct (H12 l) as [-> | ->]; [right; reflexivity|].
  right. apply insert_insert_eq.
Qed.

Lemma assignment_childrenWritten h node :
  childrenWritten h
    (<[node := <[childProperty := VArr (selected h node)]> (h !!! node)]> h).
Proof.
  intros l. destruct (decide (node = l)) as [<-|Hne].
  - right. apply lookup_total_insert_eq.
  - left. apply lookup_total_insert_ne, Hne.
Qed.

Lemma buildChildrenEntityTree_written fuel :
  forall node h outcome,
    buildChildrenEntityTree metadata fuel node entities relationMaps h = Some outcome ->
    exists h',
      outcome = inr h'
      /\ childrenWritten h h'
      /\ h' !!! node = <[childProperty := VArr (selected h node)]> (h !!! node).
Proof.
  induction fuel as [|fuel IH]; intros node h outcome H; [discriminate|].
  rewrite buildChildrenEntityTree_step in H.
  pose proof (assignment_childrenWritten h node) as Hw1.
  remember (<[node := <[childProperty := VArr (selected h node)]> (h !!! node)]> h)
    as h1 eqn:Hh1.
  assert (h1 !!! node = <[childProperty := VArr (selected h node)]> (h !!! node))
    as Hat by (rewrite Hh1; apply lookup_total_insert_eq).
  clear Hh1.
  destruct (forEachM_invariant _ childrenWritten (selected h node)
              childrenWritten_refl childrenWritten_trans
              (fun x hx o _ Hx =>
                 match IH x hx o Hx with
                 | ex_intro _ h' (conj Ho (conj Hw _)) =>
                     ex_intro _ h' (conj Ho Hw)
                 end)
              h1 outcome H) as (h' & -> & Hw).
  exists h'. split; [reflexivity|]. split.
  - eapply childrenWritten_trans; eassumption.
  - pose proof (selected_same_keys h h1 (childrenWritten_keys h h1 Hw1) node) as Hsame.
    destruct (Hw node) as [-> | ->]; [exact Hat|].
    rewrite Hsame, Hat. apply insert_insert_eq.
Qed.

Lemma buildChildrenEntityTree_more_fuel fuel :
  forall node h outcome,
    buildChildrenEntityTree metadata fuel node entities relationMaps h = Some outcome ->
    buildChildrenEntityTree metadata (S fuel) node entities relationMaps h
    = Some outcome.
Proof.
  induction fuel as [|fuel IH]; intros node h outcome H; [discriminate|].
  rewrite buildChildrenEntityTree_step in H |- *.
  eapply forEachM_more; [|exact H]. intros x hx o. apply IH.
Qed.

(** A selected child carries the id of a relation map that names the
    node's key as parent id. *)
Lemma selected_edge h node child :
  child ∈ selected h node ->
  exists relationMap,
    relationMap ∈ relationMaps
    /\ getEntityValue primary (h !!! node) = VPrim (rmParentId relationMap)
    /\ getProp (h !!! child) "id" = VPrim (rmId relationMap).
Proof.
  unfold selected, selectedChildren. intros Hchild.
  apply list_elem_of_In, filter_In in Hchild as [_ Hfound].
  unfold indexOfFound in Hfound. apply existsb_exists in Hfound as (id & Hid & Heq).
  apply list_elem_of_In, list_elem_of_fmap in Hid as (relationMap & -> & Hmap).
  apply list_elem_of_In, filter_In in Hmap as [Hmap Hparent].
  exists relationMap. split; [apply list_elem_of_In, Hmap|].
  unfold strictEq in *. split.
  - apply bool_decide_eq_true_1 in Hparent. exact Hparent.
  - apply bool_decide_eq_true_1 in Heq. exact Heq.
Qed.

Lemma childrenWritten_kept h h2 h' x :
  childrenWritten h h2 ->
  h2 !!! x = <[childProperty := VArr (selected h x)]> (h !!! x) ->
  childrenWritten h2 h' ->
  h' !!! x = <[childProperty := VArr (selected h x)]> (h !!! x).
Proof.
  intros Hw Hat Hw'. destruct (Hw' x) as [-> | ->]; [exact Hat|].
  rewrite (selected_same_keys h h2 (childrenWritten_keys h h2 Hw) x), Hat.
  apply insert_insert_eq.
Qed.

Lemma buildChildrenEntityTree_children fuel node h h' :
  buildChildrenEntityTree metadata fuel node entities relationMaps h = Some (inr h') ->
  forall child,
    child ∈ selected h node ->
    h' !!! child = <[childProperty := VArr (selected h child)]> (h !!! child).
Proof.
  destruct fuel as [|fuel]; [discriminate|].
  rewrite buildChildrenEntityTree_step.
  pose proof (assignment_childrenWritten h node) as Hw1.
  remember (<[node := <[childProperty := VArr (selected h node)]> (h !!! node)]> h)
    as h1 eqn:Hh1. clear Hh1. revert h1 Hw1.
  induction (selected h node) as [|x l IH]; intros hx Hwx H child Hchild.
  - apply elem_of_nil in Hchild as [].
  - cbn [forEachM] in H.
    destruct (buildChildrenEntityTree metadata fuel x entities relationMaps hx)
      as [[e|h2]|] eqn:Hx; [discriminate| |discriminate].
    apply buildChildrenEntityTree_written in Hx as (h2' & [= <-] & Hw2 & Hat).
    pose proof (childrenWritten_trans _ _ _ Hwx Hw2) as Hw.
    apply elem_of_cons in Hchild as [->|Hchild]; [|exact (IH h2 Hw H child Hchild)].
    destruct (forEachM_invariant _ childrenWritten l
                childrenWritten_refl childrenWritten_trans
                (fun y hy o _ Hy =>
                   match buildChildrenEntityTree_written fuel y hy o Hy with
                   | ex_intro _ h3 (conj Ho (conj Hw3 _)) =>
                       ex_intro _ h3 (conj Ho Hw3)
                   end)
                h2 (inr h') H) as (h3 & [= <-] & Hrest).
    apply (childrenWritten_kept h h2 h' x Hw); [|exact Hrest].
    rewrite Hat, (selected_same_keys h hx (childrenWritten_keys h hx Hwx) x).
    destruct (Hwx x) as [-> | ->]; [reflexivity|apply insert_insert_eq].
Qed.

Hypothesis key_is_id : propertyName primary = "id".

(** Going down, the keys met are distinct parent ids of the map, each
    above the node the recursion stands on. *)
Lemma buildChildrenEntityTree_bounded :
  acyclicMap relationMaps ->
  forall fuel visited node h,
    NoDup visited ->
    (forall id, id ∈ visited -> id ∈ (rmParentId <$> relationMaps)) ->
    (forall id, getProp (h !!! node) "id" = VPrim id ->
                forall v, v ∈ visited -> tc (rmEdge relationMaps) id v) ->
    (length relationMaps <= fuel + length visited)%nat ->
    exists outcome,
      buildChildrenEntityTree metadata (S fuel) node entities relationMaps h
      = Some outcome.
Proof.
  intros Hacyclic.
  assert (forall visited id,
             NoDup visited ->
             (forall v, v ∈ visited -> v ∈ (rmParentId <$> relationMaps)) ->
             id ∉ visited -> id ∈ (rmParentId <$> relationMaps) ->
             (length (id :: visited) <= length relationMaps)%nat) as Hcount.
  { intros visited id Hnodup Hsub Hfresh Hmem.
    rewrite <- (length_fmap rmParentId relationMaps).
    apply submseteq_length, NoDup_submseteq; [constructor; assumption|].
    intros x Hx. apply elem_of_cons in Hx as [->|Hx]; [exact Hmem|apply Hsub, Hx]. }
  assert (forall visited node h child,
             NoDup visited ->
             (forall id, id ∈ visited -> id ∈ (rmParentId <$> relationMaps)) ->
             (forall id, getProp (h !!! node) "id" = VPrim id ->
                         forall v, v ∈ visited -> tc (rmEdge relationMaps) id v) ->
             child ∈ selected h node ->
             exists relationMap,
               getProp (h !!! child) "id" = VPrim (rmId relationMap)
               /\ NoDup (rmParentId relationMap :: visited)
               /\ (forall id, id ∈ rmParentId relationMap :: visited ->
                              id ∈ (rmParentId <$> relationMaps))
               /\ (forall v, v ∈ rmParentId relationMap :: visited ->
                             tc (rmEdge relationMaps) (rmId relationMap) v)
               /\ (length (rmParentId relationMap :: visited)
                   <= length relationMaps)%nat) as Hdown.
  { intros visited node h child Hnodup Hsub Hreach Hchild.
    apply selected_edge in Hchild as (relationMap & Hin & Hparent & Hid).
    unfold getEntityValue in Hparent. rewrite key_is_id in Hparent.
    assert (rmParentId relationMap ∉ visited) as Hfresh
      by (intros Hv; exact (Hacyclic _ (Hreach _ Hparent _ Hv))).
    assert (rmParentId relationMap ∈ (rmParentId <$> relationMaps)) as Hmem
      by (apply list_elem_of_fmap; exists relationMap; auto).
    assert (rmEdge relationMaps (rmId relationMap) (rmParentId relationMap)) as Hedge
      by (exists relationMap; auto).
    exists relationMap. split; [exact Hid|]. split; [constructor; assumption|].
    split; [|split].
    - intros id Hx. apply elem_of_cons in Hx as [->|Hx]; [exact Hmem|apply Hsub, Hx].
    - intros v Hv. apply elem_of_cons in Hv as [->|Hv]; [apply tc_once, Hedge|].
      eapply tc_l; [exact Hedge|]. eapply Hreach; eassumption.
    - apply Hcount; assumption. }
  induction fuel as [|fuel IH]; intros visited node h Hnodup Hsub Hreach Hlen.
  - rewrite buildChildrenEntityTree_step.
    destruct (selected h node) as [|child rest] eqn:Hselected; [eexists; reflexivity|].
    destruct (Hdown visited node h child Hnodup Hsub Hreach)
      as (relationMap & _ & _ & _ & _ & Hmax).
    { rewrite Hselected. apply list_elem_of_here. }
    simpl in Hmax. lia.
  - rewrite buildChildrenEntityTree_step.
    pose proof (assignment_childrenWritten h node) as Hw1.
    remember (<[node := <[childProperty := VArr (selected h node)]> (h !!! node)]> h)
      as h1 eqn:Hh1. clear Hh1.
    apply (forEachM_returns
             (fun childEntity =>
                buildChildrenEntityTree metadata (S fuel) childEntity entities
                  relationMaps)
             (childrenWritten h1)); [|apply childrenWritten_refl].
    intros child hx Hchild Hx.
    destruct (Hdown visited node h child Hnodup Hsub Hreach Hchild)
      as (relationMap & Hid & Hnodup' & Hsub' & Hreach' & Hmax).
    pose proof (childrenWritten_trans _ _ _ Hw1 Hx) as Hwx.
    destruct (IH (rmParentId relationMap :: visited) child hx Hnodup' Hsub')
      as [outcome Houtcome].
    + intros id Hidx. rewrite (proj1 (childrenWritten_keys h hx Hwx child)) in Hidx.
      rewrite Hid in Hidx. injection Hidx as <-. exact Hreach'.
    + simpl in Hmax |- *. lia.
    + exists outcome. split; [exact Houtcome|].
      intros h' ->. apply buildChildrenEntityTree_written in Houtcome
        as (h'' & [= <-] & Hw & _).
      eapply childrenWritten_trans; eassumption.
Qed.
End ChildrenWrites.

(** X8. With the children relation and a primary column declared, and the
    children property neither [id] nor the key property,
    [buildChildrenEntityTree] never fails, and a run that returns has
    written nothing but children properties: every object of the store is
    as before or has its children property set to the fetched entities
    selected for it, and the node handed in and each of its selected
    children are among the latter. *)
Theorem buildChildrenEntityTree_writes_children_only
    (metadata : EntityMetadata) (entities : list loc)
    (relationMaps : list RelationMap) (relation : RelationMetadata)
    (primary : ColumnMetadata) (fuel : nat) (node : loc) (h : heap)
    (outcome : result heap) :
  treeChildrenRelation metadata = Some relation ->
  head (primaryColumns metadata) = Some primary ->
  relationPropertyName relation <> "id" ->
  relationPropertyName relation <> propertyName primary ->
  buildChildrenEntityTree metadata fuel node entities relationMaps h = Some outcome ->
  let written l :=
    <[relationPropertyName relation :=
        VArr (selectedChildren primary entities relationMaps h l)]> (h !!! l) in
  exists h',
    outcome = inr h'
    /\ (forall l, h' !!! l = h !!! l \/ h' !!! l = written l)
    /\ h' !!! node = written node
    /\ forall child,
         child ∈ selectedChildren primary entities relationMaps h node ->
         h' !!! child = written child.
Proof.
  intros Hrelation Hprimary Hid Hkey Hrun written.
  destruct (buildChildrenEntityTree_written metadata entities relationMaps relation
              primary Hrelation Hprimary Hid Hkey fuel node h outcome Hrun)
    as (h' & -> & Hw & Hnode).
  exists h'. split; [reflexivity|]. split; [exact Hw|]. split; [exact Hnode|].
  exact (buildChildrenEntityTree_children metadata entities relationMaps relation
           primary Hrelation Hprimary Hid Hkey fuel node h h' Hrun).
Qed.

Example buildChildrenEntityTree_of_a :
  buildChildrenEntityTree Issue193.ClosureCategory 4 11%nat Examples.fetchedAncestors
    Examples.ancestorMaps Examples.fetchedHeap
  = Some (inr (<[14%nat := <["childCategories" := VArr []]>
                             (Examples.fetchedHeap !!! 14%nat)]>
                 (<[13%nat := <["childCategories" := VArr [14%nat]]>
                                (Examples.fetchedHeap !!! 13%nat)]>
                    (<[11%nat := <["childCategories" := VArr [13%nat]]>
                                   (Examples.fetchedHeap !!! 11%nat)]>
                       Examples.fetchedHeap)))).
Proof. by_evaluation. Qed.

(** X8, on the fetched copies of A, C and D of the test tree, from A. *)
Lemma buildChildrenEntityTree_writes_children_only_witness :
  exists h',
    buildChildrenEntityTree Issue193.ClosureCategory 4 11%nat Examples.fetchedAncestors
      Examples.ancestorMaps Examples.fetchedHeap = Some (inr h')
    /\ getProp (h' !!! 11%nat) "childCategories" = VArr [13%nat]
    /\ getProp (h' !!! 13%nat) "childCategories" = VArr [14%nat].
Proof.
  destruct (buildChildrenEntityTree_writes_children_only Issue193.ClosureCategory
              Examples.fetchedAncestors Examples.ancestorMaps
              (mkRelation "childCategories" []) Issue193.idColumn 4 11%nat
              Examples.fetchedHeap _
              eq_refl eq_refl ltac:(discriminate) ltac:(discriminate)
              buildChildrenEntityTree_of_a)
    as (h' & Hout & _ & Hnode & Hchildren).
  exists h'. injection Hout as <-.
  split; [exact buildChildrenEntityTree_of_a|]. split.
  - by_evaluation.
  - by_evaluation.
Defined.

Lemma buildChildrenEntityTree_fuel_le
    (metadata : EntityMetadata) (entities : list loc)
    (relationMaps : list RelationMap) (relation : RelationMetadata)
    (primary : ColumnMetadata) (node : loc) (h : heap) (outcome : result heap)
    (fuel fuel' : nat) :
  treeChildrenRelation metadata = Some relation ->
  head (primaryColumns metadata) = Some primary ->
  (fuel <= fuel')%nat ->
  buildChildrenEntityTree metadata fuel node entities relationMaps h = Some outcome ->
  buildChildrenEntityTree metadata fuel' node entities relationMaps h = Some outcome.
Proof.
  intros Hrelation Hprimary Hle Hrun. induction Hle as [|fuel' _ IH]; [exact Hrun|].
  eapply buildChildrenEntityTree_more_fuel; eassumption.
Qed.

(** X9. When the primary key property is [id] and the children property is
    not, [buildChildrenEntityTree] returns on every relation map in which
    no id is its own ancestor: from any node and any store, every run with
    more fuel than the map has entries gives the same store, and no
    error. *)
Theorem buildChildrenEntityTree_returns
    (metadata : EntityMetadata) (entities : list loc)
    (relationMaps : list RelationMap) (relation : RelationMetadata)
    (primary : ColumnMetadata) (node : loc) (h : heap) :
  treeChildrenRelation metadata = Some relation ->
  head (primaryColumns metadata) = Some primary ->
  propertyName primary = "id" ->
  relationPropertyName relation <> "id" ->
  acyclicMap relationMaps ->
  exists h', forall fuel,
      (length relationMaps < fuel)%nat ->
      buildChildrenEntityTree metadata fuel node entities relationMaps h
      = Some (inr h').
Proof.
  intros Hrelation Hprimary Hkey Hid Hacyclic.
  assert (relationPropertyName relation <> propertyName primary) as Hdistinct
    by (rewrite Hkey; exact Hid).
  destruct (buildChildrenEntityTree_bounded metadata entities relationMaps relation
              primary Hrelation Hprimary Hid Hdistinct Hkey Hacyclic
              (length relationMaps) [] node h) as [outcome Hrun].
  - constructor.
  - intros id Hin. apply elem_of_nil in Hin as [].
  - intros id _ v Hin. apply elem_of_nil in Hin as [].
  - simpl. lia.
  - destruct (buildChildrenEntityTree_written metadata entities relationMaps relation
                primary Hrelation Hprimary Hid Hdistinct _ node h outcome Hrun)
      as (h' & -> & _).
    exists h'. intros fuel Hfuel.
    eapply buildChildrenEntityTree_fuel_le; [eassumption..| |exact Hrun]. lia.
Qed.

(** X9, on the relation maps fetched for the test tree. *)
Lemma buildChildrenEntityTree_returns_witness :
  exists h', forall fuel,
      (3 < fuel)%nat ->
      buildChildrenEntityTree Issue193.ClosureCategory fuel 11%nat
        Examples.fetchedAncestors Examples.ancestorMaps Examples.fetchedHeap
      = Some (inr h').
Proof.
  exact (buildChildrenEntityTree_returns Issue193.ClosureCategory
           Examples.fetchedAncestors Examples.ancestorMaps
           (mkRelation "childCategories" []) Issue193.idColumn 11%nat
           Examples.fetchedHeap eq_refl eq_refl eq_refl ltac:(discriminate)
           (ranked_acyclic Examples.idRank Examples.ancestorMaps eq_refl)).
Defined.

(** Where the key property is not [id], an acyclic relation map is not
    enough: an entity whose [id] column holds the key of its child is
    selected as its own child, and the recursion never returns. *)
Example buildChildrenEntityTree_own_child :
  acyclicMap SelfChild.descendantMaps
  /\ forall fuel,
       buildChildrenEntityTree Examples.UuidCategory fuel 0%nat
         SelfChild.fetchedDescendants SelfChild.descendantMaps SelfChild.fetchedHeap
       = None.
Proof.
  split; [exact (ranked_acyclic Examples.idRank SelfChild.descendantMaps eq_refl)|].
  assert (forall h l,
             getProp (h !!! l) "uuid" = VPrim (PNum 1) ->
             getProp (h !!! 1%nat) "id" = VPrim (PNum 2) ->
             getProp (h !!! 2%nat) "id" = VPrim (PNum 7) ->
             selectedChildren Examples.uuidColumn SelfChild.fetchedDescendants
               SelfChild.descendantMaps h l = [1%nat]) as Hselected.
  { intros h l Huuid Hone Htwo. unfold selectedChildren, getEntityValue.
    change (propertyName Examples.uuidColumn) with "uuid". rewrite Huuid.
    unfold SelfChild.fetchedDescendants. cbn [List.filter]. unfold loc in *.
    rewrite Hone, Htwo. reflexivity. }
  assert (forall fuel h,
             getProp (h !!! 1%nat) "uuid" = VPrim (PNum 1) ->
             getProp (h !!! 1%nat) "id" = VPrim (PNum 2) ->
             getProp (h !!! 2%nat) "id" = VPrim (PNum 7) ->
             buildChildrenEntityTree Examples.UuidCategory fuel 1%nat
               SelfChild.fetchedDescendants SelfChild.descendantMaps h = None) as Hloop.
  { induction fuel as [|fuel IH]; intros h Huuid Hone Htwo; [reflexivity|].
    rewrite (buildChildrenEntityTree_step Examples.UuidCategory _ _
               (mkRelation "childCategories" []) Examples.uuidColumn eq_refl eq_refl).
    rewrite (Hselected h 1%nat Huuid Hone Htwo). cbn [forEachM].
    rewrite IH; [reflexivity| | |].
    - rewrite lookup_total_insert_eq. rewrite <- Huuid.
      apply getProp_insert_ne. discriminate.
    - rewrite lookup_total_insert_eq. rewrite <- Hone.
      apply getProp_insert_ne. discriminate.
    - rewrite lookup_total_insert_ne by discriminate. exact Htwo. }
  intros [|fuel]; [reflexivity|].
  rewrite (buildChildrenEntityTree_step Examples.UuidCategory _ _
             (mkRelation "childCategories" []) Examples.uuidColumn eq_refl eq_refl).
  rewrite (Hselected SelfChild.fetchedHeap 0%nat) by reflexivity.
  cbn [forEachM]. rewrite Hloop; [reflexivity| | |].
  - rewrite lookup_total_insert_ne by discriminate. reflexivity.
  - rewrite lookup_total_insert_ne by discriminate. reflexivity.
  - rewrite lookup_total_insert_ne by discriminate. reflexivity.
Qed.

(** ** The nested-set queries, read on rows *)

Section NestedSetRows.
Variable metadata : EntityMetadata.
Variable connection : Connection.
Variable db : database.
Variables left right joinColumn ref : ColumnMetadata.
Variable relation : RelationMetadata.
Hypothesis nested : treeType metadata = Some nestedSet.
Hypothesis declared_left : nestedSetLeftColumn metadata = Some left.
Hypothesis declared_right : nestedSetRightColumn metadata = Some right.
Hypothesis declared_relation : treeParentRelation metadata = Some relation.
Hypothesis one_column : joinColumns relation = [joinColumn].
Hypothesis declared_reference : referencedColumn joinColumn = Some ref.

Let table := tableRows metadata db (targetName metadata).

Lemma nested_key_condition (entity : obj) (r j : row) :
  condHolds metadata connection db
    (mergeParameters
       (recordParameters ∅
          [mkFragment (replaceFirst "."%char "_" (propertyPath ref))
             (getEntityValue ref entity)
             (CEq (OCol "joined" (propertyPath ref))
                  (OParam (replaceFirst "."%char "_" (propertyPath ref))))])
       ∅)
    (Some (CAnd [CEq (OCol "joined" (propertyPath ref))
                     (OParam (replaceFirst "."%char "_" (propertyPath ref)))]))
    [("treeEntity", r); ("joined", j)]
  = carriesKey ref entity j.
Proof.
  rewrite condHolds_conj by (constructor; [apply render_eq_nonempty|constructor]).
  cbn [forallb evalCond evalOperand]. rewrite andb_true_r.
  rewrite columnValue_second by discriminate.
  unfold carriesKey, mergeParameters, recordParameters. cbn [foldl fragKey fragValue].
  rewrite (right_id ∅ (∪)). unfold getProp at 1. rewrite lookup_insert_eq.
  reflexivity.
Qed.

Lemma nested_set_descendants_rows (entity : obj) :
  findDescendants metadata connection db entity
  = inr (hydrate <$> List.filter
           (fun r => existsb (fun j => withinBounds left right j r
                                       && carriesKey ref entity j) table)
           table).
Proof.
  unfold findDescendants, createDescendantsQueryBuilder.
  rewrite nested.
  rewrite (bool_decide_eq_false_2 (Some nestedSet = Some closureTable)) by discriminate.
  rewrite (bool_decide_eq_true_2 (Some nestedSet = Some nestedSet)) by reflexivity.
  rewrite declared_left, declared_right, declared_relation. simpl.
  rewrite one_column. unfold nestedSetFragment, refColumn. simpl.
  rewrite declared_reference. simpl. f_equal. unfold getMany, selectedRows. f_equal.
  cbn [where_ innerJoin createQueryBuilder selFrom selAlias selJoins selWhere
       selParameters app].
  apply filter_ext. intros r. cbn [joinsHold joinAlias joinCondition joinTable app].
  apply existsb_pointwise. intros j. f_equal.
  exact (nested_key_condition entity r j).
Qed.

Lemma nested_set_ancestors_rows (entity : obj) :
  findAncestors metadata connection db entity
  = inr (hydrate <$> List.filter
           (fun r => existsb (fun j => withinBounds left right r j
                                       && carriesKey ref entity j) table)
           table).
Proof.
  unfold findAncestors, createAncestorsQueryBuilder.
  rewrite nested.
  rewrite (bool_decide_eq_false_2 (Some nestedSet = Some closureTable)) by discriminate.
  rewrite (bool_decide_eq_true_2 (Some nestedSet = Some nestedSet)) by reflexivity.
  rewrite declared_left, declared_right, declared_relation. simpl.
  rewrite one_column. unfold nestedSetFragment, refColumn. simpl.
  rewrite declared_reference. simpl. f_equal. unfold getMany, selectedRows. f_equal.
  cbn [where_ innerJoin createQueryBuilder selFrom selAlias selJoins selWhere
       selParameters app].
  apply filter_ext. intros r. cbn [joinsHold joinAlias joinCondition joinTable app].
  apply existsb_pointwise. intros j. f_equal.
  exact (nested_key_condition entity r j).
Qed.
End NestedSetRows.

(** X10. On a nested set whose parent relation has one join column, the
    two queries read the bounds of the rows carrying the entity's key:
    [findDescendants] returns the rows of the table whose left bound lies
    within the bounds of such a row, and no others; [findAncestors] the
    rows whose bounds enclose the left bound of such a row, and no others.
    The entity's own row is returned by both as soon as its bounds are
    ordered. *)
Theorem nested_set_queries_read_bounds
    (metadata : EntityMetadata) (connection : Connection) (db : database)
    (left right joinColumn ref : ColumnMetadata) (relation : RelationMetadata)
    (entity : obj) :
  treeType metadata = Some nestedSet ->
  nestedSetLeftColumn metadata = Some left ->
  nestedSetRightColumn metadata = Some right ->
  treeParentRelation metadata = Some relation ->
  joinColumns relation = [joinColumn] ->
  referencedColumn joinColumn = Some ref ->
  let table := tableRows metadata db (targetName metadata) in
  exists descendants ancestors,
    findDescendants metadata connection db entity = inr descendants
    /\ findAncestors metadata connection db entity = inr ancestors
    /\ (forall o,
          o ∈ descendants
          <-> exists r j,
                r ∈ table /\ j ∈ table /\ o = hydrate r
                /\ carriesKey ref entity j = true
                /\ withinBounds left right j r = true)
    /\ (forall o,
          o ∈ ancestors
          <-> exists r j,
                r ∈ table /\ j ∈ table /\ o = hydrate r
                /\ carriesKey ref entity j = true
                /\ withinBounds left right r j = true)
    /\ forall own,
         own ∈ table ->
         carriesKey ref entity own = true ->
         withinBounds left right own own = true ->
         hydrate own ∈ descendants /\ hydrate own ∈ ancestors.
Proof.
  intros Hnested Hleft Hright Hrelation Hone Href table.
  rewrite (nested_set_descendants_rows metadata connection db left right
             joinColumn ref relation Hnested Hleft Hright Hrelation Hone Href).
  rewrite (nested_set_ancestors_rows metadata connection db left right
             joinColumn ref relation Hnested Hleft Hright Hrelation Hone Href).
  fold table.
  assert (forall (g : row -> row -> bool) o,
             o ∈ (hydrate <$> List.filter
                    (fun r => existsb (fun j => g r j && carriesKey ref entity j) table)
                    table)
             <-> exists r j,
                   r ∈ table /\ j ∈ table /\ o = hydrate r
                   /\ carriesKey ref entity j = true /\ g r j = true) as Hread.
  { intros g o. rewrite elem_of_hydrated_filter. split.
    - intros (r & Hr & -> & Hj). apply existsb_elem_of in Hj as (j & Hj & Hm).
      apply andb_prop in Hm as [Hg Hkey]. exists r, j. auto.
    - intros (r & j & Hr & Hj & -> & Hkey & Hg). exists r.
      split; [exact Hr|]. split; [reflexivity|].
      apply existsb_elem_of. exists j. split; [exact Hj|].
      rewrite Hg, Hkey. reflexivity. }
  do 2 eexists. split; [reflexivity|]. split; [reflexivity|].
  split; [exact (Hread (fun r j => withinBounds left right j r))|].
  split; [exact (Hread (fun r j => withinBounds left right r j))|].
  intros own Hown Hkey Hbounds. split.
  - apply (Hread (fun r j => withinBounds left right j r)). exists own, own. auto.
  - apply (Hread (fun r j => withinBounds left right r j)). exists own, own. auto.
Qed.

Lemma nested_example_table :
  tableRows Examples.NestedSetCategory NestedSetExample.nestedDatabase
    (targetName Examples.NestedSetCategory)
  = [NestedSetExample.rowA; NestedSetExample.rowB; NestedSetExample.rowC].
Proof. by_evaluation. Qed.

(** X10, for B in a nested set of A and its children B and C: B is among
    its own descendants, C is not, and A is among its ancestors. *)
Lemma nested_set_queries_read_bounds_witness :
  exists descendants ancestors,
    findDescendants Examples.NestedSetCategory Issue193.postgres
      NestedSetExample.nestedDatabase (hydrate NestedSetExample.rowB) = inr descendants
    /\ findAncestors Examples.NestedSetCategory Issue193.postgres
         NestedSetExample.nestedDatabase (hydrate NestedSetExample.rowB) = inr ancestors
    /\ hydrate NestedSetExample.rowB ∈ descendants
    /\ (hydrate NestedSetExample.rowC ∉ descendants)
    /\ hydrate NestedSetExample.rowA ∈ ancestors.
Proof.
  destruct (nested_set_queries_read_bounds Examples.NestedSetCategory
              Issue193.postgres NestedSetExample.nestedDatabase
              Examples.leftColumn Examples.rightColumn Issue193.parentJoinColumn
              Issue193.idColumn
              (mkRelation "parentCategory" [Issue193.parentJoinColumn])
              (hydrate NestedSetExample.rowB)
              eq_refl eq_refl eq_refl eq_refl eq_refl eq_refl)
    as (descendants & ancestors & Hd & Ha & Hdown & Hup & _).
  assert (NestedSetExample.rowB
          ∈ tableRows Examples.NestedSetCategory NestedSetExample.nestedDatabase
              (targetName Examples.NestedSetCategory)) as HB
    by (rewrite nested_example_table; apply list_elem_of_further, list_elem_of_here).
  exists descendants, ancestors. split; [exact Hd|]. split; [exact Ha|].
  split; [|split].
  - apply Hdown. exists NestedSetExample.rowB, NestedSetExample.rowB.
    split; [exact HB|]. split; [exact HB|]. split; [reflexivity|].
    split; reflexivity.
  - intros Hin. apply Hdown in Hin as (r & j & _ & Hj & Heq & Hkey & Hbounds).
    apply hydrate_inj in Heq as <-. rewrite nested_example_table in Hj.
    repeat (apply elem_of_cons in Hj as [-> | Hj]);
      [discriminate Hkey | discriminate Hbounds | discriminate Hkey
      | apply elem_of_nil in Hj as []].
  - apply Hup. exists NestedSetExample.rowA, NestedSetExample.rowB.
    split; [rewrite nested_example_table; apply list_elem_of_here|].
    split; [exact HB|]. split; [reflexivity|]. split; reflexivity.
Defined.

(** X11. On a nested set where E's row is the only one carrying E's key
    and X's row the only one carrying X's, the two queries are converse to
    each other, and both say that the left bound of X lies within the
    bounds of E. *)
Theorem nested_set_descendants_ancestors_converse
    (metadata : EntityMetadata) (connection : Connection) (db : database)
    (left right joinColumn ref : ColumnMetadata) (relation : RelationMetadata)
    (E X : row) (entityE entityX : obj) :
  treeType metadata = Some nestedSet ->
  nestedSetLeftColumn metadata = Some left ->
  nestedSetRightColumn metadata = Some right ->
  treeParentRelation metadata = Some relation ->
  joinColumns relation = [joinColumn] ->
  referencedColumn joinColumn = Some ref ->
  let table := tableRows metadata db (targetName metadata) in
  E ∈ table ->
  X ∈ table ->
  carriesKey ref entityE E = true ->
  carriesKey ref entityX X = true ->
  (forall r, r ∈ table -> carriesKey ref entityE r = true -> r = E) ->
  (forall r, r ∈ table -> carriesKey ref entityX r = true -> r = X) ->
  exists descendants ancestors,
    findDescendants metadata connection db entityE = inr descendants
    /\ findAncestors metadata connection db entityX = inr ancestors
    /\ (hydrate X ∈ descendants <-> withinBounds left right E X = true)
    /\ (hydrate E ∈ ancestors <-> withinBounds left right E X = true).
Proof.
  intros Hnested Hleft Hright Hrelation Hone Href table HE HX HkeyE HkeyX
         HonlyE HonlyX.
  rewrite (nested_set_descendants_rows metadata connection db left right
             joinColumn ref relation Hnested Hleft Hright Hrelation Hone Href).
  rewrite (nested_set_ancestors_rows metadata connection db left right
             joinColumn ref relation Hnested Hleft Hright Hrelation Hone Href).
  do 2 eexists. split; [reflexivity|]. split; [reflexivity|].
  rewrite !elem_of_hydrated_filter.
  split; split.
  - intros (x & _ & Heq & Hx). apply hydrate_inj in Heq as <-.
    apply existsb_elem_of in Hx as (j & Hj & Hm).
    apply andb_prop in Hm as [Hbounds Hkey].
    rewrite <- (HonlyE j Hj Hkey). exact Hbounds.
  - intros Hbounds. exists X. split; [exact HX|]. split; [reflexivity|].
    apply existsb_elem_of. exists E. split; [exact HE|].
    rewrite Hbounds, HkeyE. reflexivity.
  - intros (x & _ & Heq & Hx). apply hydrate_inj in Heq as <-.
    apply existsb_elem_of in Hx as (j & Hj & Hm).
    apply andb_prop in Hm as [Hbounds Hkey].
    rewrite <- (HonlyX j Hj Hkey). exact Hbounds.
  - intros Hbounds. exists E. split; [exact HE|]. split; [reflexivity|].
    apply existsb_elem_of. exists X. split; [exact HX|].
    rewrite Hbounds, HkeyX. reflexivity.
Qed.

(** X11, for A and its child B. *)
Lemma nested_set_descendants_ancestors_converse_witness :
  exists descendants ancestors,
    findDescendants Examples.NestedSetCategory Issue193.postgres
      NestedSetExample.nestedDatabase (hydrate NestedSetExample.rowA) = inr descendants
    /\ findAncestors Examples.NestedSetCategory Issue193.postgres
         NestedSetExample.nestedDatabase (hydrate NestedSetExample.rowB) = inr ancestors
    /\ hydrate NestedSetExample.rowB ∈ descendants
    /\ hydrate NestedSetExample.rowA ∈ ancestors.
Proof.
  destruct (nested_set_descendants_ancestors_converse Examples.NestedSetCategory
              Issue193.postgres NestedSetExample.nestedDatabase
              Examples.leftColumn Examples.rightColumn Issue193.parentJoinColumn
              Issue193.idColumn
              (mkRelation "parentCategory" [Issue193.parentJoinColumn])
              NestedSetExample.rowA NestedSetExample.rowB
              (hydrate NestedSetExample.rowA) (hydrate NestedSetExample.rowB)
              eq_refl eq_refl eq_refl eq_refl eq_refl eq_refl)
    as (descendants & ancestors & Hd & Ha & Hdown & Hup).
  - rewrite nested_example_table. apply list_elem_of_here.
  - rewrite nested_example_table. apply list_elem_of_further, list_elem_of_here.
  - by_evaluation.
  - by_evaluation.
  - intros r Hr Hkey. rewrite nested_example_table in Hr.
    repeat (apply elem_of_cons in Hr as [-> | Hr]);
      [reflexivity | discriminate Hkey | discriminate Hkey
      | apply elem_of_nil in Hr as []].
  - intros r Hr Hkey. rewrite nested_example_table in Hr.
    repeat (apply elem_of_cons in Hr as [-> | Hr]);
      [discriminate Hkey | reflexivity | discriminate Hkey
      | apply elem_of_nil in Hr as []].
  - exists descendants, ancestors. split; [exact Hd|]. split; [exact Ha|].
    split; [apply Hdown|apply Hup]; by_evaluation.
Defined.

(** ** Closures the plan deletes and does not restore *)

Lemma closure_plan_rows
    (metadata : EntityMetadata) (connection : Connection) (db : database)
    (alias closureTableAlias : string) (entity : obj) (to : option obj)
    (entDescendants toAncestors : list obj) :
  treeType metadata = Some closureTable ->
  findDescendants metadata connection db entity = inr entDescendants ->
  match to with
  | Some to => findAncestors metadata connection db to
  | None => inr []
  end = inr toAncestors ->
  let junction := closureJunctionTable metadata in
  exists fragments,
    mapM (descendantFragments metadata) entDescendants = inr fragments
    /\ moveEntityQueriesBuilder metadata connection db alias closureTableAlias entity to
       = inr [QDelete
                (mkDelete (junctionTableName junction)
                   (Some (COr ((fun fs => CParen (CAnd (fragCond <$> fs)))
                                 <$> fragments)))
                   (recordParameters ∅ (concat fragments)));
              QInsert
                (mkInsert (junctionTableName junction)
                   (flat_map
                      (fun ancestorEntity =>
                         (fun descendantEntity =>
                            keyPartial (descendantColumns junction) descendantEntity
                            ∪ keyPartial (ancestorColumns junction) ancestorEntity)
                           <$> entDescendants)
                      (toAncestors ++ [entity])%list))].
Proof.
  intros Hclosure Hdescendants Hancestors junction.
  assert (junctionDeclared metadata = true) as Hdeclared.
  { unfold findDescendants in Hdescendants.
    apply bind_inr in Hdescendants as (qb & Hqb & _).
    eapply descendants_builder_declared; eassumption. }
  destruct (mapM_total (descendantFragments metadata) entDescendants)
    as [fragments Hfragments].
  { apply Forall_forall. intros e _. apply descendantFragments_total, Hdeclared. }
  exists fragments. split; [exact Hfragments|].
  unfold moveEntityQueriesBuilder. rewrite Hdescendants. cbn [mbind result_bind].
  change (@mret result _ (list obj) []) with (@inr error (list obj) []).
  rewrite Hancestors. cbn [mbind result_bind].
  rewrite bool_decide_eq_true_2 by exact Hclosure.
  rewrite Hfragments. cbn [mbind result_bind].
  rewrite (closuresToInsert_product metadata _ _ Hdeclared).
  reflexivity.
Qed.

Lemma keyPartial_columns (columns : list ColumnMetadata) (e : obj) (k : string) :
  is_Some (keyPartial columns e !! k) ->
  exists column, column ∈ columns /\ propertyPath column = k.
Proof.
  unfold keyPartial.
  enough (forall start : obj,
             is_Some (foldl (fun prev column =>
                               match referencedColumn column with
                               | Some ref =>
                                   <[propertyPath column := getEntityValue ref e]> prev
                               | None => prev
                               end) start columns !! k) ->
             is_Some (start !! k)
             \/ exists column, column ∈ columns /\ propertyPath column = k) as Hfold.
  { intros H. destruct (Hfold ∅ H) as [Hempty|Hcolumn]; [|exact Hcolumn].
    rewrite lookup_empty in Hempty. destruct Hempty as [? [=]]. }
  induction columns as [|column columns IH]; intros start H; [left; exact H|].
  cbn [foldl] in H. apply IH in H as [H|(c & Hc & Hk)].
  - destruct (referencedColumn column) as [ref|]; [|left; exact H].
    destruct (decide (propertyPath column = k)) as [Heq|Hne].
    + right. exists column. split; [apply list_elem_of_here|exact Heq].
    + left. rewrite lookup_insert_ne in H by exact Hne. exact H.
  - right. exists c. split; [apply list_elem_of_further, Hc|exact Hk].
Qed.

Lemma keyPartial_same_columns (columns : list ColumnMetadata) (e e' : obj) (k : string) :
  is_Some (keyPartial columns e !! k) -> is_Some (keyPartial columns e' !! k).
Proof.
  unfold keyPartial.
  enough (forall start start' : obj,
             (is_Some (start !! k) -> is_Some (start' !! k)) ->
             is_Some (foldl (fun prev column =>
                               match referencedColumn column with
                               | Some ref =>
                                   <[propertyPath column := getEntityValue ref e]> prev
                               | None => prev
                               end) start columns !! k) ->
             is_Some (foldl (fun prev column =>
                               match referencedColumn column with
                               | Some ref =>
                                   <[propertyPath column := getEntityValue ref e']> prev
                               | None => prev
                               end) start' columns !! k)) as Hfold
    by (apply Hfold; intros H; exact H).
  induction columns as [|column columns IH]; intros start start' Hstart;
    [exact Hstart|].
  cbn [foldl]. apply IH.
  destruct (referencedColumn column) as [ref|]; [|exact Hstart].
  destruct (decide (propertyPath column = k)) as [Heq|Hne].
  - intros _. rewrite Heq, lookup_insert_eq. eexists. reflexivity.
  - rewrite !lookup_insert_ne by exact Hne. exact Hstart.
Qed.

Lemma closure_ancestor_part (ancestors descendants : list ColumnMetadata)
    (a a' d d' : obj) :
  (forall ac dc, ac ∈ ancestors -> dc ∈ descendants ->
                 propertyPath ac <> propertyPath dc) ->
  keyPartial descendants d ∪ keyPartial ancestors a
  = keyPartial descendants d' ∪ keyPartial ancestors a' ->
  keyPartial ancestors a = keyPartial ancestors a'.
Proof.
  intros Hapart Heq. apply map_eq. intros k.
  assert (forall x y, is_Some (keyPartial ancestors x !! k) ->
                      keyPartial descendants y !! k = None) as Hfree.
  { intros x y Hx. apply eq_None_not_Some. intros Hy.
    apply keyPartial_columns in Hx as (ac & Hac & Hk).
    apply keyPartial_columns in Hy as (dc & Hdc & Hk').
    apply (Hapart ac dc Hac Hdc). congruence. }
  assert ((keyPartial descendants d ∪ keyPartial ancestors a) !! k
          = (keyPartial descendants d' ∪ keyPartial ancestors a') !! k) as Hk
    by (rewrite Heq; reflexivity).
  destruct (keyPartial ancestors a !! k) as [v|] eqn:Ha.
  - assert (is_Some (keyPartial ancestors a !! k)) as Hsome
      by (rewrite Ha; eexists; reflexivity).
    rewrite (lookup_union_r _ _ _ (Hfree a d Hsome)) in Hk.
    rewrite (lookup_union_r _ _ _ (Hfree a d' Hsome)) in Hk.
    rewrite <- Hk, Ha. reflexivity.
  - destruct (keyPartial ancestors a' !! k) as [v|] eqn:Ha'; [|reflexivity].
    assert (is_Some (keyPartial ancestors a' !! k)) as Hsome
      by (rewrite Ha'; eexists; reflexivity).
    apply (keyPartial_same_columns ancestors a' a) in Hsome.
    rewrite Ha in Hsome. destruct Hsome as [? [=]].
Qed.

(** X12. A closure-table plan deletes every junction row that names a
    fetched descendant X as its descendant, whatever its ancestor, and
    inserts rows only for the ancestors of the destination and the moved
    entity.  So where X is none of those, no inserted row names X as its
    ancestor: the closures of X over its own subtree, the reflexive one
    included, are deleted and not restored. *)
Theorem subtree_closures_not_restored
    (metadata : EntityMetadata) (connection : Connection) (db : database)
    (alias closureTableAlias : string) (entity : obj) (to : option obj)
    (entDescendants toAncestors : list obj) (X : obj) :
  treeType metadata = Some closureTable ->
  findDescendants metadata connection db entity = inr entDescendants ->
  match to with
  | Some to => findAncestors metadata connection db to
  | None => inr []
  end = inr toAncestors ->
  deleteParametersKept metadata entDescendants = true ->
  let junction := closureJunctionTable metadata in
  (forall ac dc, ac ∈ ancestorColumns junction -> dc ∈ descendantColumns junction ->
                 propertyPath ac <> propertyPath dc) ->
  X ∈ entDescendants ->
  (forall a, a ∈ (toAncestors ++ [entity])%list ->
             keyPartial (ancestorColumns junction) a
             <> keyPartial (ancestorColumns junction) X) ->
  exists clearAncestorsQuery insertAncestorsQuery,
    moveEntityQueriesBuilder metadata connection db alias closureTableAlias entity to
    = inr [QDelete clearAncestorsQuery; QInsert insertAncestorsQuery]
    /\ (forall r,
          matchesEntity (descendantColumns junction) r X = true ->
          deleteTargets metadata connection db clearAncestorsQuery r = true)
    /\ (forall d,
          keyPartial (descendantColumns junction) d
          ∪ keyPartial (ancestorColumns junction) X
          ∉ insValues insertAncestorsQuery).
Proof.
  intros Hclosure Hdescendants Hancestors Hkept junction Hapart HX Hother.
  destruct (closure_plan_rows metadata connection db alias closureTableAlias entity to
              entDescendants toAncestors Hclosure Hdescendants Hancestors)
    as (fragments & Hfragments & Hplan).
  do 2 eexists. split; [exact Hplan|]. split.
  - intros r Hr. unfold deleteTargets, condHolds. cbn [delWhere delParameters delFrom].
    case_bool_decide as Htext; [reflexivity|].
    unfold deleteParametersKept in Hkept. rewrite Hfragments in Hkept.
    rewrite forallb_forall in Hkept.
    cbn [evalCond].
    rewrite (delete_disjuncts metadata connection db _ r _ entDescendants fragments).
    + apply existsb_elem_of. exists X. split; [exact HX|exact Hr].
    + apply mapM_inr, Hfragments.
    + intros f Hf. apply list_elem_of_In, Hkept in Hf.
      apply bool_decide_eq_true_1 in Hf. exact Hf.
  - intros d Hd. cbn [insValues] in Hd.
    apply list_elem_of_In, in_flat_map in Hd as (a & Ha & Hd).
    apply list_elem_of_In, list_elem_of_fmap in Hd as (d' & Heq & _).
    apply (Hother a); [apply list_elem_of_In, Ha|].
    symmetry. eapply closure_ancestor_part; [exact Hapart|exact Heq].
Qed.

(** X12, for moving C, whose child is D, under B in the saved tree of the
    test: the rows naming D as descendant go, and none comes back with D
    as ancestor. *)
Lemma subtree_closures_not_restored_witness :
  exists clearAncestorsQuery insertAncestorsQuery,
    moveEntityQueriesBuilder Issue193.ClosureCategory Issue193.postgres
      Issue193.savedDatabase "unused" "unused" Issue193.c (Some Issue193.b)
    = inr [QDelete clearAncestorsQuery; QInsert insertAncestorsQuery]
    /\ deleteTargets Issue193.ClosureCategory Issue193.postgres Issue193.savedDatabase
         clearAncestorsQuery (Issue193.closureRow 4 4) = true
    /\ Issue193.closureValue 4 4 ∉ insValues insertAncestorsQuery.
Proof.
  destruct (subtree_closures_not_restored Issue193.ClosureCategory Issue193.postgres
              Issue193.savedDatabase "unused" "unused" Issue193.c (Some Issue193.b)
              [hydrate (Issue193.categoryRow 3 "C" (PNum 1));
               hydrate (Issue193.categoryRow 4 "D" (PNum 3))]
              [hydrate (Issue193.categoryRow 1 "A" PNull);
               hydrate (Issue193.categoryRow 2 "B" (PNum 1))]
              (hydrate (Issue193.categoryRow 4 "D" (PNum 3))))
    as (clear & insert & Hplan & Hdeleted & Hinserted).
  - reflexivity.
  - by_evaluation.
  - by_evaluation.
  - by_evaluation.
  - intros ac dc Hac Hdc.
    apply list_elem_of_singleton in Hac as ->.
    apply list_elem_of_singleton in Hdc as ->. discriminate.
  - apply list_elem_of_further, list_elem_of_here.
  - intros a Ha Heq.
    assert (getProp a "id" = VPrim (PNum 4)) as Hid
      by (apply (f_equal (fun m : obj => getProp m "id_ancestor")) in Heq; exact Heq).
    repeat (apply elem_of_cons in Ha as [-> | Ha]);
      [discriminate Hid | discriminate Hid | discriminate Hid
      | apply elem_of_nil in Ha as []].
  - exists clear, insert. split; [exact Hplan|]. split.
    + apply Hdeleted. by_evaluation.
    + exact (Hinserted (hydrate (Issue193.categoryRow 4 "D" (PNum 3)))).
Defined.

(** * Materialized paths *)


Section MaterializedPathRows.
Variable metadata : EntityMetadata.
Variable connection : Connection.
Variable db : database.
Variable pathColumn : ColumnMetadata.
Hypothesis path_encoding : treeType metadata = Some materializedPath.
Hypothesis declared_path : materializedPathColumn metadata = Some pathColumn.

Let table := tableRows metadata db (targetName metadata).





End MaterializedPathRows.





(** * [move] as one unit of work *)

(** C6. [move] runs the statements of its plan in order, assigns the
    destination to the entity's parent-relation property and persists the
    entity, all as one unit of work of the transaction manager; for a
    closure-table entity the plan is one delete followed by one insert on
    the junction table, so the unit holds three writes.  When every
    statement and the save succeed, [move] succeeds and the database is
    the one they lead to, the entity holding the destination.  When
    anything fails, [move] fails with that error and the database is the
    one before the call, also where statements had already run.  [move]
    never succeeds otherwise. *)
Theorem move_is_atomic
    (metadata : EntityMetadata) (connection : Connection)
    (execute : QueryBuilder -> database -> result database)
    (save : heap -> loc -> database -> result database)
    (entity : loc) (to : option loc) (w : World) :
  let outcome := move metadata connection execute save entity to w in
  let plan :=
    moveEntityQueriesBuilder metadata connection (data w) "treeEntity" "treeClosure"
      (objects w !!! entity) ((fun l => objects w !!! l) <$> to) in
  let assigned joinColumn :=
    <[entity := setEntityValue joinColumn (objects w !!! entity) (destination to)]>
      (objects w) in
  let junction := closureJunctionTable metadata in
  (treeType metadata = Some closureTable ->
   forall moveQueries,
     plan = inr moveQueries ->
     exists clearAncestorsQuery insertAncestorsQuery,
       moveQueries = [QDelete clearAncestorsQuery; QInsert insertAncestorsQuery]
       /\ delFrom clearAncestorsQuery = junctionTableName junction
       /\ insInto insertAncestorsQuery = junctionTableName junction
       /\ forall db,
            executeAll execute moveQueries db
            = (afterDelete ← execute (QDelete clearAncestorsQuery) db;
               execute (QInsert insertAncestorsQuery) afterDelete))
  /\ (forall moveQueries joinColumn afterQueries saved,
        plan = inr moveQueries ->
        executeAll execute moveQueries (data w) = inr afterQueries ->
        firstJoinColumn metadata = inr joinColumn ->
        save (assigned joinColumn) entity afterQueries = inr saved ->
        outcome = (inr tt, mkWorld (assigned joinColumn) saved))
  /\ (forall e,
        fst outcome = inl e ->
        data (snd outcome) = data w
        /\ (plan = inl e
            \/ exists moveQueries,
                 plan = inr moveQueries
                 /\ (executeAll execute moveQueries (data w) = inl e
                     \/ exists afterQueries,
                          executeAll execute moveQueries (data w) = inr afterQueries
                          /\ (firstJoinColumn metadata = inl e
                              \/ exists joinColumn,
                                   firstJoinColumn metadata = inr joinColumn
                                   /\ save (assigned joinColumn) entity afterQueries
                                      = inl e))))
  /\ (fst outcome = inr tt ->
      exists moveQueries joinColumn afterQueries saved,
        plan = inr moveQueries
        /\ executeAll execute moveQueries (data w) = inr afterQueries
        /\ firstJoinColumn metadata = inr joinColumn
        /\ save (assigned joinColumn) entity afterQueries = inr saved).
Proof.
  intros outcome plan assigned junction. subst outcome. rewrite move_eq. fold plan.
  split; [|split; [|split]].
  - intros Hclosure moveQueries Hplan.
    destruct (closure_plan_shape metadata connection (data w) "treeEntity"
                "treeClosure" (objects w !!! entity) ((fun l => objects w !!! l) <$> to)
                moveQueries Hclosure Hplan)
      as (clearAncestorsQuery & insertAncestorsQuery & -> & Hfrom & Hinto).
    exists clearAncestorsQuery, insertAncestorsQuery.
    split; [reflexivity|]. split; [exact Hfrom|]. split; [exact Hinto|].
    intros db. cbn [executeAll].
    destruct (execute (QDelete clearAncestorsQuery) db) as [e|afterDelete];
      [reflexivity|].
    cbn [mbind result_bind].
    destruct (execute (QInsert insertAncestorsQuery) afterDelete); reflexivity.
  - intros moveQueries joinColumn afterQueries saved -> Hrun Hjoin Hsave.
    rewrite Hrun, Hjoin. cbv zeta. fold (assigned joinColumn). rewrite Hsave.
    reflexivity.
  - intros e. destruct plan as [e0|moveQueries]; cbn [fst snd].
    { intros [= ->]. split; [reflexivity|]. left. reflexivity. }
    destruct (executeAll execute moveQueries (data w)) as [e0|afterQueries] eqn:Hrun;
      cbn [fst snd].
    { intros [= ->]. split; [reflexivity|]. right. exists moveQueries.
      split; [reflexivity|]. left. exact Hrun. }
    destruct (firstJoinColumn metadata) as [e0|joinColumn] eqn:Hjoin; cbn [fst snd].
    { intros [= ->]. split; [reflexivity|]. right. exists moveQueries.
      split; [reflexivity|]. right. exists afterQueries. split; [exact Hrun|].
      left. reflexivity. }
    cbv zeta. fold (assigned joinColumn).
    destruct (save (assigned joinColumn) entity afterQueries) as [e0|saved] eqn:Hsave;
      cbn [fst snd]; [|discriminate].
    intros [= ->]. split; [reflexivity|]. right. exists moveQueries.
    split; [reflexivity|]. right. exists afterQueries. split; [exact Hrun|].
    right. exists joinColumn. split; [reflexivity|]. exact Hsave.
  - destruct plan as [e0|moveQueries]; cbn [fst]; [discriminate|].
    destruct (executeAll execute moveQueries (data w)) as [e0|afterQueries] eqn:Hrun;
      cbn [fst]; [discriminate|].
    destruct (firstJoinColumn metadata) as [e0|joinColumn] eqn:Hjoin; cbn [fst];
      [discriminate|].
    cbv zeta. fold (assigned joinColumn).
    destruct (save (assigned joinColumn) entity afterQueries) as [e0|saved] eqn:Hsave;
      cbn [fst]; [discriminate|].
    intros _. exists moveQueries, joinColumn, afterQueries, saved.
    split; [reflexivity|]. split; [exact Hrun|]. split; [reflexivity|]. exact Hsave.
Qed.

(** C6, both ways.  On the nested set of the examples nothing is planned
    and the save succeeds: B points to C in memory and in its row.  On the
    closure table of the test the delete runs and the insert is refused:
    [move] fails and the database is the saved one, the deleted rows
    included. *)
Lemma move_is_atomic_witness :
  move Examples.NestedSetCategory Issue193.postgres
    (Collaborators.execute Examples.NestedSetCategory Issue193.postgres)
    (Collaborators.save Examples.NestedSetCategory) 2%nat (Some 3%nat)
    (mkWorld NestedSetExample.nestedHeap NestedSetExample.nestedDatabase)
  = (inr tt,
     mkWorld (<[2%nat := <["parentCategory" := VRef 3%nat]>
                           (hydrate NestedSetExample.rowB)]>
                NestedSetExample.nestedHeap)
             (<["category" := [NestedSetExample.rowA;
                               <["parentCategoryId" := PNum 3]> NestedSetExample.rowB;
                               NestedSetExample.rowC]]>
                NestedSetExample.nestedDatabase))
  /\ exists e,
       fst (move Issue193.ClosureCategory Issue193.postgres
              (Collaborators.execute Issue193.ClosureCategory Issue193.postgres)
              (Collaborators.save Issue193.ClosureCategory) 2%nat (Some 3%nat)
              (mkWorld Issue193.savedHeap Issue193.savedDatabase)) = inl e
       /\ data (snd (move Issue193.ClosureCategory Issue193.postgres
                       (Collaborators.execute Issue193.ClosureCategory Issue193.postgres)
                       (Collaborators.save Issue193.ClosureCategory) 2%nat (Some 3%nat)
                       (mkWorld Issue193.savedHeap Issue193.savedDatabase)))
          = Issue193.savedDatabase.
Proof.
  split.
  - destruct (move_is_atomic Examples.NestedSetCategory Issue193.postgres
                (Collaborators.execute Examples.NestedSetCategory Issue193.postgres)
                (Collaborators.save Examples.NestedSetCategory) 2%nat (Some 3%nat)
                (mkWorld NestedSetExample.nestedHeap NestedSetExample.nestedDatabase))
      as (_ & Hall & _).
    apply (Hall [] Issue193.parentJoinColumn NestedSetExample.nestedDatabase);
      by_evaluation.
  - destruct (move_is_atomic Issue193.ClosureCategory Issue193.postgres
                (Collaborators.execute Issue193.ClosureCategory Issue193.postgres)
                (Collaborators.save Issue193.ClosureCategory) 2%nat (Some 3%nat)
                (mkWorld Issue193.savedHeap Issue193.savedDatabase))
      as (_ & _ & Hnone & _).
    exists (ExternalError "null value in a key column of the junction table").
    assert (fst (move Issue193.ClosureCategory Issue193.postgres
                   (Collaborators.execute Issue193.ClosureCategory Issue193.postgres)
                   (Collaborators.save Issue193.ClosureCategory) 2%nat (Some 3%nat)
                   (mkWorld Issue193.savedHeap Issue193.savedDatabase))
            = inl (ExternalError "null value in a key column of the junction table"))
      as Hfails by by_evaluation.
    split; [exact Hfails|]. exact (proj1 (Hnone _ Hfails)).
Defined.

(** * The scenario of the test, in whatever order rows are returned *)

Lemma existsb_permuted {A} (f : A -> bool) (l l' : list A) :
  l ≡ₚ l' -> existsb f l = existsb f l'.
Proof.
  induction 1 as [|x l l' _ IH|x y l|l l' l'' _ IH _ IH']; cbn [existsb].
  - reflexivity.
  - rewrite IH. reflexivity.
  - destruct (f x), (f y); reflexivity.
  - rewrite IH. exact IH'.
Qed.

Lemma filter_permuted {A} (f : A -> bool) (l l' : list A) :
  l ≡ₚ l' -> List.filter f l ≡ₚ List.filter f l'.
Proof.
  induction 1 as [|x l l' _ IH|x y l|l l' l'' _ IH _ IH']; cbn [List.filter].
  - reflexivity.
  - destruct (f x); [constructor|]; exact IH.
  - destruct (f x), (f y); try reflexivity. apply perm_swap.
  - rewrite IH. exact IH'.
Qed.

(** The rows a select gets are the same whatever order the two tables
    list their rows in: the statements of the repository ask for no
    order. *)
Lemma filter_join_permuted {A B} (g : A -> B -> bool) (l l' : list A)
    (js js' : list B) :
  l ≡ₚ l' -> js ≡ₚ js' ->
  List.filter (fun r => existsb (g r) js) l
  ≡ₚ List.filter (fun r => existsb (g r) js') l'.
Proof.
  intros Hl Hjs.
  rewrite (filter_ext (fun r => existsb (g r) js) (fun r => existsb (g r) js'))
    by (intros r; apply existsb_permuted, Hjs).
  apply filter_permuted, Hl.
Qed.

Section RowOrder.
Variable metadata : EntityMetadata.
Variable connection : Connection.
Variables db db' : database.
Hypothesis closure_encoding : treeType metadata = Some closureTable.
Hypothesis declared : junctionDeclared metadata = true.
Hypothesis same_rows :
  tableRows metadata db (targetName metadata)
  ≡ₚ tableRows metadata db' (targetName metadata).
Hypothesis same_closures :
  tableRows metadata db (junctionTableName (closureJunctionTable metadata))
  ≡ₚ tableRows metadata db' (junctionTableName (closureJunctionTable metadata)).

Lemma closure_queries_any_order (entity : obj) :
  exists descendants descendants' ancestors ancestors',
    findDescendants metadata connection db entity = inr descendants
    /\ findDescendants metadata connection db' entity = inr descendants'
    /\ descendants ≡ₚ descendants'
    /\ findAncestors metadata connection db entity = inr ancestors
    /\ findAncestors metadata connection db' entity = inr ancestors'
    /\ ancestors ≡ₚ ancestors'.
Proof.
  rewrite !(findDescendants_rows metadata connection _ closure_encoding declared).
  rewrite !(findAncestors_rows metadata connection _ closure_encoding declared).
  do 4 eexists.
  split; [reflexivity|]. split; [reflexivity|]. split.
  - apply fmap_Permutation. exact (filter_join_permuted _ _ _ _ _ same_rows same_closures).
  - split; [reflexivity|]. split; [reflexivity|].
    apply fmap_Permutation. exact (filter_join_permuted _ _ _ _ _ same_rows same_closures).
Qed.
End RowOrder.

Section Issue193Move.
Variable db : database.
Hypothesis saved_rows :
  tableRows Issue193.ClosureCategory db "ClosureCategory"
  ≡ₚ tableRows Issue193.ClosureCategory Issue193.savedDatabase "ClosureCategory".
Hypothesis saved_closures :
  tableRows Issue193.ClosureCategory db "gh_193_closure"
  ≡ₚ tableRows Issue193.ClosureCategory Issue193.savedDatabase "gh_193_closure".

Lemma issue193_fetches :
  findDescendants Issue193.ClosureCategory Issue193.postgres db Issue193.b
  = inr [hydrate (Issue193.categoryRow 2 "B" (PNum 1))]
  /\ exists toAncestors,
       findAncestors Issue193.ClosureCategory Issue193.postgres db Issue193.c
       = inr toAncestors
       /\ toAncestors ≡ₚ [hydrate (Issue193.categoryRow 1 "A" PNull);
                          hydrate (Issue193.categoryRow 3 "C" (PNum 1))].
Proof.
  split.
  - destruct (closure_queries_any_order Issue193.ClosureCategory Issue193.postgres
                db Issue193.savedDatabase eq_refl eq_refl saved_rows saved_closures
                Issue193.b)
      as (descendants & descendants' & _ & _ & -> & Hsaved & Hsame & _).
    f_equal. apply Permutation_singleton_r. rewrite Hsame.
    assert (inr descendants'
            = @inr error _ [hydrate (Issue193.categoryRow 2 "B" (PNum 1))]) as Heq
      by (rewrite <- Hsaved; by_evaluation).
    injection Heq as ->. reflexivity.
  - destruct (closure_queries_any_order Issue193.ClosureCategory Issue193.postgres
                db Issue193.savedDatabase eq_refl eq_refl saved_rows saved_closures
                Issue193.c)
      as (_ & _ & ancestors & ancestors' & _ & _ & _ & -> & Hsaved & Hsame).
    exists ancestors. split; [reflexivity|]. rewrite Hsame.
    assert (inr ancestors'
            = @inr error _ [hydrate (Issue193.categoryRow 1 "A" PNull);
                            hydrate (Issue193.categoryRow 3 "C" (PNum 1))]) as Heq
      by (rewrite <- Hsaved; by_evaluation).
    injection Heq as ->. reflexivity.
Qed.

Lemma issue193_plan_any_order :
  exists insertClosuresQuery,
    (forall alias closureTableAlias,
        moveEntityQueriesBuilder Issue193.ClosureCategory Issue193.postgres db
          alias closureTableAlias Issue193.b (Some Issue193.c)
        = inr [QDelete Issue193.clearClosureQuery; QInsert insertClosuresQuery])
    /\ insInto insertClosuresQuery = "gh_193_closure"
    /\ insValues insertClosuresQuery
       ≡ₚ [Issue193.closureValue 1 2; Issue193.closureValue 3 2;
           Issue193.closureValue 2 2].
Proof.
  destruct issue193_fetches as [Hdescendants (toAncestors & Hancestors & Hsame)].
  eexists. split; [|split].
  - intros alias closureTableAlias.
    destruct (closure_plan_rows Issue193.ClosureCategory Issue193.postgres db
                alias closureTableAlias Issue193.b (Some Issue193.c) _ _
                eq_refl Hdescendants Hancestors) as (fragments & Hfragments & ->).
    vm_compute in Hfragments. injection Hfragments as <-. reflexivity.
  - reflexivity.
  - cbn [insValues].
    etransitivity; [apply Permutation_flat_map, Permutation_app_tail, Hsame|].
    reflexivity.
Qed.
End Issue193Move.

(** C1.  In the scenario of the test (A root, B and C under A, D under C),
    in whatever order the database returns rows, the plan for moving B
    under C is exactly two statements: a delete on the junction table
    whose condition is ["id_descendant" = :id2] with [id2] bound to B's id
    2, which targets the junction rows whose descendant is B; and an
    insert of the rows (A,B), (C,B), (B,B).  [move] runs them before it
    assigns the destination: where the delete executes and the database
    refuses the insert, [move] fails with the refusal, the database is as
    before and B's [parentCategory] still holds A. *)
Theorem move_b_under_c
    (db : database)
    (execute : QueryBuilder -> database -> result database)
    (save : heap -> loc -> database -> result database)
    (afterDelete : database) (e : error) :
  tableRows Issue193.ClosureCategory db "ClosureCategory"
  ≡ₚ tableRows Issue193.ClosureCategory Issue193.savedDatabase "ClosureCategory" ->
  tableRows Issue193.ClosureCategory db "gh_193_closure"
  ≡ₚ tableRows Issue193.ClosureCategory Issue193.savedDatabase "gh_193_closure" ->
  execute (QDelete Issue193.clearClosureQuery) db = inr afterDelete ->
  (forall insertQuery,
      insValues insertQuery <> [] ->
      execute (QInsert insertQuery) afterDelete = inl e) ->
  exists insertClosuresQuery,
    (forall alias closureTableAlias,
        moveEntityQueriesBuilder Issue193.ClosureCategory Issue193.postgres db
          alias closureTableAlias Issue193.b (Some Issue193.c)
        = inr [QDelete Issue193.clearClosureQuery; QInsert insertClosuresQuery])
    /\ delFrom Issue193.clearClosureQuery = "gh_193_closure"
    /\ (exists condition,
          delWhere Issue193.clearClosureQuery = Some condition
          /\ renderCond Issue193.postgres condition
             = "(" +:+ Issue193.quote +:+ "id_descendant" +:+ Issue193.quote
               +:+ " = :id2)")
    /\ delParameters Issue193.clearClosureQuery = <["id2" := VPrim (PNum 2)]> ∅
    /\ (forall r : row,
          deleteTargets Issue193.ClosureCategory Issue193.postgres db
            Issue193.clearClosureQuery r = true
          <-> r !! "id_descendant" = Some (PNum 2))
    /\ insInto insertClosuresQuery = "gh_193_closure"
    /\ insValues insertClosuresQuery
       ≡ₚ [Issue193.closureValue 1 2; Issue193.closureValue 3 2;
           Issue193.closureValue 2 2]
    /\ move Issue193.ClosureCategory Issue193.postgres execute save
         2%nat (Some 3%nat) (mkWorld Issue193.savedHeap db)
       = (inl e, mkWorld Issue193.savedHeap db)
    /\ getProp (Issue193.savedHeap !!! 2%nat) "parentCategory" = VRef 1%nat.
Proof.
  intros Hrows Hclosures Hdelete Hinsert.
  destruct (issue193_plan_any_order db Hrows Hclosures)
    as (insertClosuresQuery & Hplan & Hinto & Hvalues).
  exists insertClosuresQuery.
  split; [exact Hplan|]. split; [reflexivity|].
  split; [eexists; split; [reflexivity | vm_compute; reflexivity]|].
  split; [reflexivity|]. split; [apply issue193_delete_targets|].
  split; [exact Hinto|]. split; [exact Hvalues|]. split; [|reflexivity].
  rewrite move_eq. cbn [objects data fmap option_fmap option_map].
  replace (Issue193.savedHeap !!! 2%nat) with Issue193.b by (vm_compute; reflexivity).
  replace (Issue193.savedHeap !!! 3%nat) with Issue193.c by (vm_compute; reflexivity).
  rewrite Hplan. cbn [executeAll mbind result_bind].
  rewrite Hdelete. cbn [mbind result_bind]. rewrite Hinsert; [reflexivity|].
  intros Hempty. rewrite Hempty in Hvalues. apply Permutation_nil in Hvalues.
  discriminate Hvalues.
Qed.

(** C1, on the saved database of the test, with the statements run as its
    database runs them. *)
Lemma move_b_under_c_witness :
  moveEntityQueriesBuilder Issue193.ClosureCategory Issue193.postgres
    Issue193.savedDatabase "unused" "unused" Issue193.b (Some Issue193.c)
  = inr [QDelete Issue193.clearClosureQuery; QInsert Issue193.insertClosuresQuery]
  /\ move Issue193.ClosureCategory Issue193.postgres
       (Collaborators.execute Issue193.ClosureCategory Issue193.postgres)
       (Collaborators.save Issue193.ClosureCategory)
       2%nat (Some 3%nat) (mkWorld Issue193.savedHeap Issue193.savedDatabase)
     = (inl (ExternalError "null value in a key column of the junction table"),
        mkWorld Issue193.savedHeap Issue193.savedDatabase).
Proof.
  destruct (move_b_under_c Issue193.savedDatabase
              (Collaborators.execute Issue193.ClosureCategory Issue193.postgres)
              (Collaborators.save Issue193.ClosureCategory)
              (<["gh_193_closure" :=
                   [Issue193.closureRow 1 1; Issue193.closureRow 3 3;
                    Issue193.closureRow 1 3; Issue193.closureRow 4 4;
                    Issue193.closureRow 3 4; Issue193.closureRow 1 4]]>
                 Issue193.savedDatabase)
              (ExternalError "null value in a key column of the junction table"))
    as (insertClosuresQuery & Hplan & _ & _ & _ & _ & _ & _ & Hmove & _).
  - reflexivity.
  - reflexivity.
  - by_evaluation.
  - intros insertQuery _. reflexivity.
  - split; [|exact Hmove]. apply issue193_plan.
Defined.
